(** * Dialog manager and turtle field of the Blockly games site

    A shallow embedding of [BlocklyDialogs] (the pop-up dialog manager) and of
    the value logic of [FieldTurtle] (the turtle customisation field), with
    the properties the specification states about them.

    The browser is the host of both programs.  Its document is modelled as a
    store: every element has a list of children, a class list, a tag name and
    inline style properties; event listeners and pending timers are lists.
    The dialog manager's module-level variables are a record next to that
    store, and every function of the manager is a function on the whole
    state.  Host actions that leave no mark in the store (focus, blur, a call
    of a dispose callback, ...) are appended to a log; document mutations and
    assignments to the two variables the specification orders
    ([isDialogVisible_] and [dialogDispose_]) are logged as well, so that
    statements about the order of effects can be made on the log. *)

From Stdlib Require Import ZArith.
From stdpp Require Import gmap strings list.

(** ** The host: document, listeners, timers, layout *)

Module Dom.

(** Elements.  An element that carries an [id] attribute is identified by it
    (ids are unique in a document); all others by a number.  [Document] is
    the event target [document], [Body] is [document.body]. *)
Inductive node :=
  | Document
  | Body
  | Named (id : string)
  | Anon (n : nat).

#[global] Instance node_eq_dec : EqDecision node.
Proof. solve_decision. Defined.

#[global] Instance node_countable : Countable node.
Proof.
  refine (inj_countable'
    (fun n => match n with
              | Document => inl (inl tt)
              | Body => inl (inr tt)
              | Named id => inr (inl id)
              | Anon k => inr (inr k)
              end)
    (fun x => match x with
              | inl (inl _) => Document
              | inl (inr _) => Body
              | inr (inl id) => Named id
              | inr (inr k) => Anon k
              end) _).
  by intros [].
Defined.

(** A value of an inline style property: a length in pixels (the code builds
    these as [number + 'px']) or any other literal. *)
Inductive cssval :=
  | Px (z : Z)
  | Lit (s : string).

#[global] Instance cssval_eq_dec : EqDecision cssval.
Proof. solve_decision. Defined.

(** What the layout engine reports.  These are inputs of the program: the
    manager reads them and never writes them. *)
Record Layout := mkLayout {
  offsetLeft : node -> Z;
  offsetTop : node -> Z;
  offsetWidth : node -> Z;
  offsetHeight : node -> Z;
  pageOffset : node -> Z * Z;            (* Blockly.utils.style.getPageOffset *)
  svgBBox : node -> option (Z * Z);      (* element.getBBox(): width, height *)
  innerWidth : Z;                        (* window.innerWidth *)
  innerHeight : Z                        (* window.innerHeight *)
}.

(** A DOM event, with the fields the handlers read.  [rightButton] is the
    answer of [Blockly.utils.isRightButton]. *)
Record Event := mkEvent {
  clientX : Z;
  clientY : Z;
  keyCode : Z;
  rightButton : bool
}.

End Dom.
Export Dom.

(** ** The dialog manager *)

Module BlocklyDialogs.

(** Functions that are registered as event listeners. *)
Inductive Handler :=
  | HideDialogH                (* BlocklyDialogs.hideDialog *)
  | DialogMouseDownH           (* BlocklyDialogs.dialogMouseDown_ *)
  | DialogMouseMoveH           (* BlocklyDialogs.dialogMouseMove_ *)
  | DialogUnbindDragEventsH    (* BlocklyDialogs.dialogUnbindDragEvents_ *)
  | DialogKeyDownH             (* BlocklyDialogs.dialogKeyDown *)
  | AbortKeyDownH              (* BlocklyDialogs.abortKeyDown_ *)
  | IndexPageH                 (* BlocklyInterface.indexPage *)
  | ExternalH (n : nat).       (* a listener of some other module *)

(** Functions passed as [disposeFunc].  The two the manager itself passes are
    named; a caller's own function is opaque: calling it is logged and has no
    other effect on the manager's state. *)
Inductive Callback :=
  | StopDialogKeyDownCb        (* BlocklyDialogs.stopDialogKeyDown *)
  | AbortDisposeCb             (* the closure abortOffer passes *)
  | ExternalCb (n : nat).

#[global] Instance Handler_eq_dec : EqDecision Handler.
Proof. solve_decision. Defined.
#[global] Instance Callback_eq_dec : EqDecision Callback.
Proof. solve_decision. Defined.

(** A registered listener.  [l_key] is [Some k] for a listener registered
    through [Blockly.browserEvents.bind] (every call wraps the function anew,
    and [k] stands for that wrapper) and [None] for a plain
    [addEventListener], which ignores a registration it already has. *)
Record Listener := mkListener {
  l_target : node;
  l_type : string;
  l_handler : Handler;
  l_capture : bool;
  l_key : option nat
}.

#[global] Instance Listener_eq_dec : EqDecision Listener.
Proof. solve_decision. Defined.

(** The bounding box [getBBox] computes. *)
Record BBox := mkBBox { bx : Z; by_ : Z; bheight : Z; bwidth : Z }.

(** Closures handed to [setTimeout]. *)
Inductive Task :=
  | ShowEndResult (content : node)             (* endResult of showDialog *)
  | HideEndResult                              (* endResult of hideDialog *)
  | BorderChange (box : BBox) (opacity : string)   (* change of matchBorder_ *)
  | AbortOfferTask.                            (* BlocklyDialogs.abortOffer *)

Inductive Effect :=
  | EAppend (parent child : node)         (* parent.appendChild(child) *)
  | ERemove (child : node)                (* child.parentNode.removeChild(child) *)
  | EStyle (n : node) (prop : string) (v : cssval)
  | EClassAdd (n : node) (c : string)
  | EClassRemove (n : node) (c : string)
  | EClassName (n : node) (c : list string)
  | ESetVisible (b : bool)                (* isDialogVisible_ = b *)
  | ESetDispose (d : option Callback)     (* dialogDispose_ = d *)
  | ECall (cb : Callback)
  | ETimeout (t : Task) (ms : nat)
  | EFocus (n : node)
  | EBlur (n : node)
  | EHideChaff
  | EStopPropagation
  | EPreventDefault
  | EIndexPage.

Record DocState := mkDoc {
  children : gmap node (list node);
  classes : gmap node (list string);
  tags : gmap node string;
  styles : gmap (node * string) cssval;
  listeners : list Listener;
  nextKey : nat
}.

(** The module-level variables of BlocklyDialogs. *)
Record Vars := mkVars {
  isDialogVisible_ : bool;
  dialogOrigin_ : option node;
  dialogDispose_ : option Callback;
  dialogMouseDownWrapper_ : option nat;
  dialogMouseUpWrapper_ : option nat;
  dialogMouseMoveWrapper_ : option nat;
  dialogStartX_ : Z;
  dialogStartY_ : Z
}.

(** What the manager asks of the rest of the application. *)
Record Host := mkHost {
  layout : Layout;
  mainWorkspace : bool;       (* Blockly.getMainWorkspace() is not null *)
  workspaceDragging : bool;   (* BlocklyInterface.workspace.isDragging() *)
  levelComplete : bool        (* loadFromLocalStorage(storageName, LEVEL) is truthy *)
}.

Record State := mkState {
  doc : DocState;
  vars : Vars;
  host : Host;
  timers : list (Task * nat);
  log : list Effect
}.

Inductive JsError :=
  | TypeError (msg : string)
  | HierarchyRequestError.

Inductive Result :=
  | Ok (s : State)
  | Throw (e : JsError) (s : State).

(** The state a call leaves, whether it returns or throws. *)
Definition after (r : Result) : State :=
  match r with
  | Ok s => s
  | Throw _ s => s
  end.

(** *** Record updates *)

Definition with_doc (f : DocState -> DocState) (s : State) : State :=
  mkState (f (doc s)) (vars s) (host s) (timers s) (log s).
Definition with_vars (f : Vars -> Vars) (s : State) : State :=
  mkState (doc s) (f (vars s)) (host s) (timers s) (log s).
Definition emit (e : Effect) (s : State) : State :=
  mkState (doc s) (vars s) (host s) (timers s) (log s ++ [e]).

Definition set_children ch (d : DocState) : DocState :=
  mkDoc ch (classes d) (tags d) (styles d) (listeners d) (nextKey d).
Definition set_classes cl (d : DocState) : DocState :=
  mkDoc (children d) cl (tags d) (styles d) (listeners d) (nextKey d).
Definition set_tags tg (d : DocState) : DocState :=
  mkDoc (children d) (classes d) tg (styles d) (listeners d) (nextKey d).
Definition set_styles st (d : DocState) : DocState :=
  mkDoc (children d) (classes d) (tags d) st (listeners d) (nextKey d).
Definition set_listeners ls (d : DocState) : DocState :=
  mkDoc (children d) (classes d) (tags d) (styles d) ls (nextKey d).
Definition set_nextKey k (d : DocState) : DocState :=
  mkDoc (children d) (classes d) (tags d) (styles d) (listeners d) k.

Definition set_isDialogVisible_ b (v : Vars) : Vars :=
  mkVars b (dialogOrigin_ v) (dialogDispose_ v) (dialogMouseDownWrapper_ v)
         (dialogMouseUpWrapper_ v) (dialogMouseMoveWrapper_ v)
         (dialogStartX_ v) (dialogStartY_ v).
Definition set_dialogOrigin_ o (v : Vars) : Vars :=
  mkVars (isDialogVisible_ v) o (dialogDispose_ v) (dialogMouseDownWrapper_ v)
         (dialogMouseUpWrapper_ v) (dialogMouseMoveWrapper_ v)
         (dialogStartX_ v) (dialogStartY_ v).
Definition set_dialogDispose_ d (v : Vars) : Vars :=
  mkVars (isDialogVisible_ v) (dialogOrigin_ v) d (dialogMouseDownWrapper_ v)
         (dialogMouseUpWrapper_ v) (dialogMouseMoveWrapper_ v)
         (dialogStartX_ v) (dialogStartY_ v).
Definition set_dialogMouseDownWrapper_ w (v : Vars) : Vars :=
  mkVars (isDialogVisible_ v) (dialogOrigin_ v) (dialogDispose_ v) w
         (dialogMouseUpWrapper_ v) (dialogMouseMoveWrapper_ v)
         (dialogStartX_ v) (dialogStartY_ v).
Definition set_dialogMouseUpWrapper_ w (v : Vars) : Vars :=
  mkVars (isDialogVisible_ v) (dialogOrigin_ v) (dialogDispose_ v)
         (dialogMouseDownWrapper_ v) w (dialogMouseMoveWrapper_ v)
         (dialogStartX_ v) (dialogStartY_ v).
Definition set_dialogMouseMoveWrapper_ w (v : Vars) : Vars :=
  mkVars (isDialogVisible_ v) (dialogOrigin_ v) (dialogDispose_ v)
         (dialogMouseDownWrapper_ v) (dialogMouseUpWrapper_ v) w
         (dialogStartX_ v) (dialogStartY_ v).
Definition set_dialogStart_ x y (v : Vars) : Vars :=
  mkVars (isDialogVisible_ v) (dialogOrigin_ v) (dialogDispose_ v)
         (dialogMouseDownWrapper_ v) (dialogMouseUpWrapper_ v)
         (dialogMouseMoveWrapper_ v) x y.

(** *** The document interface *)

Definition kids (s : State) (n : node) : list node :=
  default [] (children (doc s) !! n).

Definition firstChild (s : State) (n : node) : option node :=
  head (kids s n).

Definition classList (s : State) (n : node) : list string :=
  default [] (classes (doc s) !! n).

Definition hasClass (s : State) (n : node) (c : string) : bool :=
  bool_decide (c ∈ classList s n).

Definition tagName (s : State) (n : node) : option string :=
  tags (doc s) !! n.

Definition style (s : State) (n : node) (prop : string) : option cssval :=
  styles (doc s) !! (n, prop).

(** Removes [c] from the child list it is in. *)
Definition detach (c : node) (ch : gmap node (list node)) : gmap node (list node) :=
  filter (λ x, x ≠ c) <$> ch.

(** All descendants of [n] in document order, down to depth [fuel]. *)
Fixpoint descendants (fuel : nat) (ch : gmap node (list node)) (n : node)
  : list node :=
  match fuel with
  | O => []
  | S fuel' =>
      flat_map (λ c, c :: descendants fuel' ch c) (default [] (ch !! n))
  end.

(** In a tree no path is longer than the number of elements that have
    children, which bounds the depth to search. *)
Definition allDescendants (s : State) (n : node) : list node :=
  descendants (size (children (doc s))) (children (doc s)) n.

(** [a] is [n] or one of its ancestors. *)
Definition contains (s : State) (a n : node) : bool :=
  bool_decide (n = a ∨ n ∈ allDescendants s a).

(** What the DOM does not accept as a child of the element [parent]: a
    document, [parent] itself, and an ancestor of [parent]. *)
Definition refuses (s : State) (parent child : node) : bool :=
  bool_decide (child = Document) || contains s child parent.

(** The move of an accepted child: it leaves its former parent and becomes
    the last child of [parent]. *)
Definition attach (parent child : node) (s : State) : State :=
  let ch := detach child (children (doc s)) in
  emit (EAppend parent child)
    (with_doc (set_children (<[parent := default [] (ch !! parent) ++ [child]]> ch)) s).

(** [parent.appendChild(child)], for an element [parent]: a child the DOM
    refuses makes the call throw a HierarchyRequestError and leaves the tree
    as it is. *)
Definition appendChild (parent child : node) (s : State) : Result :=
  if refuses s parent child then Throw HierarchyRequestError s
  else Ok (attach parent child s).

(** [child.parentNode.removeChild(child)]. *)
Definition removeFromParent (child : node) (s : State) : State :=
  emit (ERemove child)
    (with_doc (set_children (detach child (children (doc s)))) s).

(** [document.createElement(tag)] for the element the code then gives the id
    of [n]: a new element has that tag, no class and no child. *)
Definition createElement (tag : string) (n : node) (s : State) : State :=
  with_doc (λ d, set_tags (<[n := tag]> (tags d))
                   (set_classes (delete n (classes d))
                      (set_children (delete n (children d)) d))) s.

Definition classListAdd (n : node) (c : string) (s : State) : State :=
  let l := classList s n in
  emit (EClassAdd n c)
    (with_doc (λ d, set_classes
                      (if bool_decide (c ∈ l) then classes d
                       else <[n := l ++ [c]]> (classes d)) d) s).

Definition classListRemove (n : node) (c : string) (s : State) : State :=
  emit (EClassRemove n c)
    (with_doc (λ d, set_classes
                      (<[n := filter (λ x, x ≠ c) (classList s n)]> (classes d)) d) s).

(** [n.className = ...] *)
Definition setClassName (n : node) (l : list string) (s : State) : State :=
  emit (EClassName n l)
    (with_doc (λ d, set_classes (<[n := l]> (classes d)) d) s).

(** [n.style[prop] = v] *)
Definition setStyle (n : node) (prop : string) (v : cssval) (s : State) : State :=
  emit (EStyle n prop v)
    (with_doc (λ d, set_styles (<[(n, prop) := v]> (styles d)) d) s).

Definition getElementsByClassName (s : State) (n : node) (c : string)
  : list node :=
  filter (λ x, hasClass s x c = true) (allDescendants s n).

Definition getElementsByTagName (s : State) (n : node) (t : string)
  : list node :=
  filter (λ x, tagName s x = Some t) (allDescendants s n).

(** An element is in the document when it is somebody's child. *)
Definition hasParent (s : State) (n : node) : bool :=
  bool_decide (map_Exists (λ _ l, n ∈ l) (children (doc s))).

(** Modelled from the spec: BlocklyGames.getElementById is not among the
    sources; the spec lists "element lookup by identifier" among what the host
    provides.  The element that carries the id is found when it is in the
    document. *)
Definition getElementById (s : State) (id : string) : option node :=
  if hasParent s (Named id) then Some (Named id) else None.

Definition sameRegistration (target : node) (type : string) (h : Handler)
    (capture : bool) (l : Listener) : Prop :=
  l_target l = target ∧ l_type l = type ∧ l_handler l = h
  ∧ l_capture l = capture ∧ l_key l = None.

#[global] Instance sameRegistration_dec target type h capture l :
  Decision (sameRegistration target type h capture l).
Proof. unfold sameRegistration. apply _. Defined.

(** [target.addEventListener(type, h, capture)] *)
Definition addEventListener (target : node) (type : string) (h : Handler)
    (capture : bool) (s : State) : State :=
  with_doc (λ d, set_listeners
    (if bool_decide (Exists (sameRegistration target type h capture)
                            (listeners d))
     then listeners d
     else listeners d ++ [mkListener target type h capture None]) d) s.

(** [target.removeEventListener(type, h, capture)] *)
Definition removeEventListener (target : node) (type : string) (h : Handler)
    (capture : bool) (s : State) : State :=
  with_doc (λ d, set_listeners
    (filter (λ l, ¬ sameRegistration target type h capture l) (listeners d)) d) s.

(** [Blockly.browserEvents.bind(target, type, null, h)]: registers a new
    wrapper of [h] and returns the data that unbinds it. *)
Definition bind (target : node) (type : string) (h : Handler) (s : State)
  : nat * State :=
  let k := nextKey (doc s) in
  (k, with_doc (λ d, set_nextKey (S k)
         (set_listeners
            (listeners d ++ [mkListener target type h false (Some k)]) d)) s).

(** [Blockly.browserEvents.unbind(data)] *)
Definition unbind (k : nat) (s : State) : State :=
  with_doc (λ d, set_listeners
    (filter (λ l, l_key l ≠ Some k) (listeners d)) d) s.

(** [setTimeout(t, ms)] *)
Definition setTimeout (t : Task) (ms : nat) (s : State) : State :=
  emit (ETimeout t ms)
    (mkState (doc s) (vars s) (host s) (timers s ++ [(t, ms)]) (log s)).

(** *** Sequencing *)

(** The functions of the manager are imperative: a statement is a state
    transformer, and [a >> b] runs [a] and then [b]. *)
Definition Action := State -> State.

Definition andThen (a b : Action) : Action := λ s, b (a s).

Notation "a >> b" := (andThen a b) (at level 100, right associativity).

Definition skip : Action := λ s, s.

(** A statement that can throw is a function to [Result].  [a >>> b] runs
    [a] and, unless [a] throws, [b]; an exception ends the sequence with the
    state it was thrown in. *)
Definition Fallible := State -> Result.

Definition lift (a : Action) : Fallible := λ s, Ok (a s).

Definition tryThen (a b : Fallible) : Fallible :=
  λ s, match a s with
       | Ok s' => b s'
       | Throw e s' => Throw e s'
       end.

Notation "a >>> b" := (tryThen a b) (at level 100, right associativity).

(** The state a fallible statement leaves. *)
Definition settle (a : Fallible) : Action := λ s, after (a s).

(** *** The page *)

(** The three elements of the dialog chrome are static markup of the page. *)
Definition dialog : node := Named "dialog".
Definition shadow : node := Named "dialogShadow".
Definition border : node := Named "dialogBorder".
Definition header : node := Named "dialogHeader".

(** *** Assignments to the logged variables, and calls of callbacks *)

Definition setVisible (b : bool) : Action :=
  λ s, emit (ESetVisible b) (with_vars (set_isDialogVisible_ b) s).

Definition setDispose (d : option Callback) : Action :=
  λ s, emit (ESetDispose d) (with_vars (set_dialogDispose_ d) s).

(** BlocklyDialogs.stopDialogKeyDown *)
Definition stopDialogKeyDown : Action :=
  removeEventListener Body "keydown" DialogKeyDownH true.

(** BlocklyDialogs.startDialogKeyDown *)
Definition startDialogKeyDown : Action :=
  addEventListener Body "keydown" DialogKeyDownH true.

(** A call [cb()] of a dispose function. *)
Definition call (cb : Callback) : Action :=
  emit (ECall cb) >>
  match cb with
  | StopDialogKeyDownCb => stopDialogKeyDown
  | AbortDisposeCb => removeEventListener Body "keydown" AbortKeyDownH true
  | ExternalCb _ => skip
  end.

(** *** BlocklyDialogs.getBBox and BlocklyDialogs.matchBorder_ *)

Definition getBBox (s : State) (element : node) : BBox :=
  let L := layout (host s) in
  let xy := pageOffset L element in
  match svgBBox L element with
  | Some (w, h) => mkBBox xy.1 xy.2 h w
  | None => mkBBox xy.1 xy.2 (offsetHeight L element) (offsetWidth L element)
  end.

(** The inner function [change] of matchBorder_. *)
Definition change (bBox : BBox) (opacity : string) : Action :=
  setStyle border "width" (Px (bwidth bBox)) >>
  setStyle border "height" (Px (bheight bBox)) >>
  setStyle border "left" (Px (bx bBox)) >>
  setStyle border "top" (Px (by_ bBox)) >>
  setStyle border "opacity" (Lit opacity).

Definition matchBorder_ (element : option node) (animate : bool)
    (opacity : string) : Action :=
  λ s,
  match element with
  | None => s
  | Some element =>
      let bBox := getBBox s element in
      ((if animate then
          setClassName border ["dialogAnimate"] >>
          setTimeout (BorderChange bBox opacity) 1
        else
          setClassName border [] >>
          change bBox opacity) >>
       setStyle border "visibility" (Lit "visible")) s
  end.

(** *** Dragging *)

(** BlocklyDialogs.dialogUnbindDragEvents_ *)
Definition dialogUnbindDragEvents_ : Action :=
  (λ s, match dialogMouseUpWrapper_ (vars s) with
        | Some w =>
            (unbind w >> with_vars (set_dialogMouseUpWrapper_ None)) s
        | None => s
        end) >>
  (λ s, match dialogMouseMoveWrapper_ (vars s) with
        | Some w =>
            (unbind w >> with_vars (set_dialogMouseMoveWrapper_ None)) s
        | None => s
        end).

(** BlocklyDialogs.dialogMouseDown_ *)
Definition dialogMouseDown_ (e : Event) : Action :=
  dialogUnbindDragEvents_ >>
  (λ s,
     if rightButton e then s      (* right-click *)
     else
       let L := layout (host s) in
       let s := with_vars (set_dialogStart_ (offsetLeft L dialog - clientX e)%Z
                                            (offsetTop L dialog - clientY e)%Z) s in
       let '(up, s) := bind Document "mouseup" DialogUnbindDragEventsH s in
       let s := with_vars (set_dialogMouseUpWrapper_ (Some up)) s in
       let '(move, s) := bind Document "mousemove" DialogMouseMoveH s in
       let s := with_vars (set_dialogMouseMoveWrapper_ (Some move)) s in
       emit EStopPropagation s).

(** BlocklyDialogs.dialogMouseMove_ *)
Definition dialogMouseMove_ (e : Event) : Action :=
  λ s,
  let L := layout (host s) in
  let dialogLeft := (dialogStartX_ (vars s) + clientX e)%Z in
  let dialogTop := (dialogStartY_ (vars s) + clientY e)%Z in
  let dialogTop := Z.max dialogTop 0 in
  let dialogTop := Z.min dialogTop (innerHeight L - offsetHeight L dialog) in
  let dialogLeft := Z.max dialogLeft 0 in
  let dialogLeft := Z.min dialogLeft (innerWidth L - offsetWidth L dialog) in
  (setStyle dialog "left" (Px dialogLeft) >>
   setStyle dialog "top" (Px dialogTop)) s.

(** *** BlocklyDialogs.hideDialog *)

(** The inner function [endResult] of hideDialog. *)
Definition hideEndResult : Action :=
  setStyle shadow "zIndex" (Lit "-1") >>
  setStyle shadow "visibility" (Lit "hidden") >>
  setStyle border "visibility" (Lit "hidden").

(** The loop [while (dialog.firstChild) { ... }].  Every round takes the
    first child out of the dialog, so as many rounds as the dialog has
    children are enough (lemma [moveChildren_spec]).  A child the body
    refuses ends the loop, and hideDialog, with the exception. *)
Fixpoint moveChildren (fuel : nat) (s : State) : Result :=
  match fuel with
  | O => Ok s
  | S fuel' =>
      match firstChild s dialog with
      | None => Ok s
      | Some content =>
          (lift (classListAdd content "dialogHiddenContent") >>>
           appendChild Body content >>>
           moveChildren fuel') s
      end
  end.

(** The statements of hideDialog before the loop, for a visible dialog. *)
Definition closeDialog (opt_animate : bool) : Action :=
  dialogUnbindDragEvents_ >>
  (λ s, match dialogMouseDownWrapper_ (vars s) with
        | Some w =>
            (unbind w >> with_vars (set_dialogMouseDownWrapper_ None)) s
        | None => s
        end) >>
  setVisible false >>
  (λ s, match dialogDispose_ (vars s) with
        | Some f => call f s
        | None => s
        end) >>
  setDispose None >>
  (λ s,
     let origin := if opt_animate then dialogOrigin_ (vars s) else None in
     (setStyle shadow "opacity" (Lit "0") >>
      match origin with
      | Some o =>                          (* origin && dialog *)
          matchBorder_ (Some dialog) false "0.8" >>
          matchBorder_ (Some o) true "0.2" >>
          setTimeout HideEndResult 175
      | None => hideEndResult
      end >>
      setStyle dialog "visibility" (Lit "hidden") >>
      setStyle dialog "zIndex" (Lit "-1") >>
      (λ s, match getElementById s "dialogHeader" with
            | Some h => removeFromParent h s
            | None => s
            end)) s).

Definition hideDialog (opt_animate : bool) : Fallible :=
  λ s,
  if negb (isDialogVisible_ (vars s)) then Ok s
  else
    (lift (closeDialog opt_animate) >>>
     (λ s, moveChildren (length (kids s dialog)) s)) s.

(** *** BlocklyDialogs.showDialog *)

(** The loop [while ((button = buttons[0])) { ... }] over the live collection
    [content.getElementsByClassName('addHideHandler')].  Every round takes
    the first button out of the collection, so as many rounds as the
    collection has members are enough (lemma [wireButtons_spec]). *)
Fixpoint wireButtons (fuel : nat) (content : node) (s : State) : State :=
  match fuel with
  | O => s
  | S fuel' =>
      match getElementsByClassName s content "addHideHandler" with
      | [] => s
      | button :: _ =>
          (addEventListener button "click" HideDialogH true >>
           addEventListener button "touchend" HideDialogH true >>
           classListRemove button "addHideHandler" >>
           wireButtons fuel' content) s
      end
  end.

(** The loop [for (const name in style) { element.style[name] = style[name] }],
    over the properties of [style] in their order. *)
Definition copyStyles (element : node) (style : list (string * cssval))
  : Action :=
  λ s, foldl (λ s '(name, v), setStyle element name v s) s style.

(** The inner function [endResult] of showDialog; [content] is the variable
    of the enclosing call. *)
Definition showEndResult (content : node) : Action :=
  λ s,
  if negb (isDialogVisible_ (vars s)) then s   (* closed during opening *)
  else
    (setStyle dialog "visibility" (Lit "visible") >>
     setStyle dialog "zIndex" (Lit "10") >>
     setStyle border "visibility" (Lit "hidden") >>
     (λ s,
        let buttons := getElementsByClassName s content "primary" in
        let buttons :=
          match buttons with
          | [] =>
              match getElementsByClassName s content "secondary" with
              | [] => getElementsByTagName s content "button"
              | bs => bs
              end
          | bs => bs
          end in
        match buttons with
        | b :: _ => emit (EFocus b) s
        | [] => s
        end)) s.

(** Everything showDialog does once [content] is known not to be null. *)
Definition showContent (content : node) (origin : option node)
    (animate modal : bool) (style : list (string * cssval))
    (disposeFunc : option Callback) : Fallible :=
  lift (λ s, wireButtons
               (length (getElementsByClassName s content "addHideHandler"))
               content s) >>>
  (λ s, if isDialogVisible_ (vars s) then hideDialog false s else Ok s) >>>
  lift ((λ s, if mainWorkspace (host s) then emit EHideChaff s else s) >>
        setVisible true >>
        with_vars (set_dialogOrigin_ origin) >>
        setDispose disposeFunc >>
        copyStyles dialog style) >>>
  (if modal then
     lift (setStyle shadow "visibility" (Lit "visible") >>
           setStyle shadow "opacity" (Lit "0.3") >>
           setStyle shadow "zIndex" (Lit "9") >>
           createElement "div" header) >>>
     appendChild dialog header >>>
     lift (λ s, let '(w, s) := bind header "mousedown" DialogMouseDownH s in
                with_vars (set_dialogMouseDownWrapper_ (Some w)) s)
   else lift skip) >>>
  appendChild dialog content >>>
  lift (classListRemove content "dialogHiddenContent" >>
        match origin with
        | Some o => emit (EBlur o)
        | None => skip                 (* the TypeError is caught *)
        end >>
        match animate, origin with
        | true, Some o =>
            matchBorder_ (Some o) false "0.2" >>
            matchBorder_ (Some dialog) true "0.8" >>
            setTimeout (ShowEndResult content) 175
        | _, _ => showEndResult content
        end).

Definition showDialog (content origin : option node) (animate modal : bool)
    (style : list (string * cssval)) (disposeFunc : option Callback)
    (s : State) : Result :=
  match content with
  | None => Throw (TypeError "Content not found: null") s
  | Some content =>
      showContent content origin animate modal style disposeFunc s
  end.

(** *** Keyboard handlers and BlocklyDialogs.abortOffer *)

Definition isKey (e : Event) (codes : list Z) : bool :=
  bool_decide (keyCode e ∈ codes).

(** BlocklyDialogs.dialogKeyDown *)
Definition dialogKeyDown (e : Event) : Fallible :=
  λ s,
  if isDialogVisible_ (vars s) then
    if isKey e [13; 27; 32]%Z then
      (hideDialog true >>>
       lift (emit EStopPropagation >> emit EPreventDefault)) s
    else Ok s
  else Ok s.

(** BlocklyDialogs.abortKeyDown_ *)
Definition abortKeyDown_ (e : Event) : Fallible :=
  dialogKeyDown e >>>
  lift (if isKey e [13; 32]%Z then emit EIndexPage else skip).

Definition abortOffer (s : State) : Result :=
  if levelComplete (host s) then Ok s
  else if isDialogVisible_ (vars s) || workspaceDragging (host s) then
    Ok (setTimeout AbortOfferTask (15 * 1000) s)
  else
    let content := getElementById s "dialogAbort" in
    let style := [("width", Lit "40%"); ("left", Lit "30%"); ("top", Lit "3em")] in
    match getElementById s "abortOk" with
    | None => Throw (TypeError "ok is null") s
    | Some ok =>
        let s := addEventListener ok "click" IndexPageH true s in
        let s := addEventListener ok "touchend" IndexPageH true s in
        match showDialog content None false true style (Some AbortDisposeCb) s with
        | Ok s => Ok (addEventListener Body "keydown" AbortKeyDownH true s)
        | Throw e s => Throw e s
        end
    end.

(** *** The event loop *)

(** A call of a listener with the event [e]. *)
Definition runHandler (h : Handler) (e : Event) : Fallible :=
  match h with
  | HideDialogH => hideDialog true     (* opt_animate is the event: truthy *)
  | DialogMouseDownH => lift (dialogMouseDown_ e)
  | DialogMouseMoveH => lift (dialogMouseMove_ e)
  | DialogUnbindDragEventsH => lift dialogUnbindDragEvents_
  | DialogKeyDownH => dialogKeyDown e
  | AbortKeyDownH => abortKeyDown_ e
  | IndexPageH => lift (emit EIndexPage)
  | ExternalH _ => lift skip
  end.

(** The browser delivers an event of type [type] at [target]: the listeners
    registered there when the delivery starts are called in order, except
    those removed meanwhile.  An exception a listener throws ends that
    listener; the browser reports it and calls the next one. *)
Definition dispatch (target : node) (type : string) (e : Event) : Action :=
  λ s,
  foldl (λ s l,
           if bool_decide (l ∈ listeners (doc s))
           then after (runHandler (l_handler l) e s)
           else s)
        s
        (filter (λ l, l_target l = target ∧ l_type l = type) (listeners (doc s))).

(** A call of a closure that was handed to [setTimeout].  An exception it
    throws ends the call; the state it leaves is kept. *)
Definition runTask (t : Task) : Action :=
  match t with
  | ShowEndResult content => showEndResult content
  | HideEndResult => hideEndResult
  | BorderChange bBox opacity => change bBox opacity
  | AbortOfferTask =>
      λ s, match abortOffer s with
           | Ok s' => s'
           | Throw _ s' => s'
           end
  end.

(** The [i]-th pending timer expires. *)
Definition fireTimer (i : nat) : Action :=
  λ s,
  match timers s !! i with
  | Some (t, _) =>
      runTask t (mkState (doc s) (vars s) (host s) (delete i (timers s)) (log s))
  | None => s
  end.

(** The state when the page has loaded: the variables as the module
    initialises them, the chrome elements under the body, nothing else. *)
Definition emptyLayout : Layout :=
  mkLayout (λ _, 0%Z) (λ _, 0%Z) (λ _, 0%Z) (λ _, 0%Z) (λ _, (0%Z, 0%Z))
           (λ _, None) 0%Z 0%Z.

Definition initialVars : Vars :=
  mkVars false None None None None None 0%Z 0%Z.

Definition initialState : State :=
  mkState
    (mkDoc {[ Body := [dialog; shadow; border] ]} ∅ ∅ ∅ [] 0)
    initialVars
    (mkHost emptyLayout false false false)
    [] [].

(** *** A drag, as the browser drives it *)

(** What can happen between a press on the header and a later mouse move:
    the mouse moves, or the page is laid out anew (the window is resized, the
    dialog moves or changes size). *)
Inductive DragStep :=
  | MouseMoved (e : Event)
  | Relayout (L : Layout).

Definition dragStep (st : DragStep) : Action :=
  match st with
  | MouseMoved e => dispatch Document "mousemove" e
  | Relayout L =>
      λ s, mkState (doc s) (vars s)
             (mkHost L (mainWorkspace (host s)) (workspaceDragging (host s))
                     (levelComplete (host s)))
             (timers s) (log s)
  end.

(** *** Notions the properties are stated with *)

(** The callbacks called and the timers set, in the order of a log. *)
Definition calls (l : list Effect) : list Callback :=
  omap (λ e, match e with ECall cb => Some cb | _ => None end) l.

Definition timeouts (l : list Effect) : list (Task * nat) :=
  omap (λ e, match e with ETimeout t ms => Some (t, ms) | _ => None end) l.

(** The marker class of content that is not shown. *)
Definition hiddenContent : string := "dialogHiddenContent".

(** Events that only touch the tree or the presentation. *)
Definition presentational (e : Effect) : Prop :=
  match e with
  | ECall _ | ETimeout _ _ | ESetVisible _ | ESetDispose _ => False
  | _ => True
  end.

(** Events other than calls of callbacks and deferred steps. *)
Definition quiet (e : Effect) : Prop :=
  match e with
  | ECall _ | ETimeout _ _ => False
  | _ => True
  end.

(** Events other than calls of callbacks. *)
Definition uncalled (e : Effect) : Prop :=
  match e with
  | ECall _ => False
  | _ => True
  end.

(** Events other than calls of callbacks and assignments to the logged
    variables. *)
Definition noCall (e : Effect) : Prop :=
  match e with
  | ECall _ | ESetVisible _ | ESetDispose _ => False
  | _ => True
  end.

(** What showDialog logs while it wires the marked buttons: the marker
    class is taken off each of them. *)
Definition wiring (e : Effect) : Prop :=
  match e with
  | EClassRemove _ c => c = "addHideHandler"
  | _ => False
  end.

(** What a hide without animation logs once the dispose function is
    cleared: the backdrop, the border and the container are hidden at
    once. *)
Definition hiddenAtOnce : list Effect :=
  [EStyle shadow "opacity" (Lit "0");
   EStyle shadow "zIndex" (Lit "-1");
   EStyle shadow "visibility" (Lit "hidden");
   EStyle border "visibility" (Lit "hidden");
   EStyle dialog "visibility" (Lit "hidden");
   EStyle dialog "zIndex" (Lit "-1")].

(** What a hide logs last: the header is removed, and the children of the
    container are marked and moved to the body. *)
Definition moving (e : Effect) : Prop :=
  match e with
  | ERemove n => n = header
  | EClassAdd _ c => c = hiddenContent
  | EAppend p _ => p = Body
  | _ => False
  end.

(** What showDialog logs between the forced hide and the append of the
    content. *)
Definition openingLog (chaff modal : bool) (style : list (string * cssval))
    (disposeFunc : option Callback) : list Effect :=
  (if chaff then [EHideChaff] else [])
  ++ [ESetVisible true; ESetDispose disposeFunc]
  ++ ((λ '(name, v), EStyle dialog name v) <$> style)
  ++ (if modal then
        [EStyle shadow "visibility" (Lit "visible");
         EStyle shadow "opacity" (Lit "0.3");
         EStyle shadow "zIndex" (Lit "9");
         EAppend dialog header]
      else []).


(** [clamp v lo hi]: the lower bound is applied first, the upper bound
    second. *)
Definition clamp (v lo hi : Z) : Z := Z.min (Z.max v lo) hi.

(** A listener of another module. *)
Definition foreign (l : Listener) : Prop :=
  match l_handler l with
  | ExternalH _ => True
  | _ => False
  end.

(** The two listeners dialogMouseDown_ binds. *)
Definition moveListener (k : nat) : Listener :=
  mkListener Document "mousemove" DialogMouseMoveH false (Some k).

Definition upListener (k : nat) : Listener :=
  mkListener Document "mouseup" DialogUnbindDragEventsH false (Some k).

(** The manager keeps track of its drag listeners: a listener for mouse moves
    or button releases is foreign, or it is the one the drag variables
    record.  The page starts in such a state and the drag handlers keep it
    (lemmas [dragTracked_initial], [dialogMouseDown_tracked],
    [dialogMouseMove_tracked]). *)
Definition tracked (v : Vars) (l : Listener) : Prop :=
  (l_type l = "mousemove" →
     foreign l ∨ ∃ k, dialogMouseMoveWrapper_ v = Some k ∧ l = moveListener k)
  ∧ (l_type l = "mouseup" →
     foreign l ∨ ∃ k, dialogMouseUpWrapper_ v = Some k ∧ l = upListener k).

Definition dragTracked (s : State) : Prop :=
  Forall (tracked (vars s)) (listeners (doc s)).

(** A drag is in progress: the start offsets are [X] and [Y], and of the
    listeners for mouse moves on the document the manager's own is the last
    and the only one that is not foreign. *)
Definition dragging (X Y : Z) (s : State) : Prop :=
  dialogStartX_ (vars s) = X ∧ dialogStartY_ (vars s) = Y
  ∧ ∃ k F,
      filter (λ l, l_target l = Document ∧ l_type l = "mousemove")
             (listeners (doc s)) = F ++ [moveListener k]
      ∧ Forall foreign F.

(** *** A page to run the manager on *)

(** A level page with two dialogs' contents waiting in the body, each with a
    button that closes the dialog, and a button the dialogs open from.  The
    dialog is laid out at (100, 100) and is 300 by 200 in a window of 800 by
    600. *)
Definition helpContent : node := Named "dialogHelp".
Definition doneContent : node := Named "dialogDone".
Definition helpButton : node := Named "helpButton".

Definition demoLayout : Layout :=
  mkLayout (λ n, if decide (n = dialog) then 100%Z else 0%Z)
           (λ n, if decide (n = dialog) then 100%Z else 0%Z)
           (λ n, if decide (n = dialog) then 300%Z else 40%Z)
           (λ n, if decide (n = dialog) then 200%Z else 20%Z)
           (λ _, (0%Z, 0%Z)) (λ _, None) 800%Z 600%Z.

Definition demoPage : State :=
  mkState
    (mkDoc
       {[ Body := [dialog; shadow; border; helpButton; helpContent; doneContent];
          helpContent := [Named "helpOk"];
          doneContent := [Named "doneOk"] ]}
       {[ helpContent := ["dialogHiddenContent"];
          doneContent := ["dialogHiddenContent"];
          Named "helpOk" := ["addHideHandler"; "secondary"];
          Named "doneOk" := ["addHideHandler"; "primary"] ]}
       {[ Named "helpOk" := "button"; Named "doneOk" := "button";
          helpButton := "button" ]}
       ∅ [] 0)
    initialVars
    (mkHost demoLayout true false false)
    [] [].

(** The help dialog, opened modally with an animation from the help button
    and with a dispose function of the caller. *)
Definition helpShown : State :=
  after (showDialog (Some helpContent) (Some helpButton) true true
                    [("width", Lit "50%")] (Some (ExternalCb 7)) demoPage).

(** The same page once the level is solved. *)
Definition solvedPage : State :=
  mkState (doc demoPage) (vars demoPage)
          (mkHost demoLayout true false true) (timers demoPage) (log demoPage).

(** A press of the left and of the right button at (50, 50), and a mouse
    move to (80, 80). *)
Definition leftPress : Event := mkEvent 50 50 0 false.
Definition rightPress : Event := mkEvent 50 50 0 true.
Definition moveTo80 : Event := mkEvent 80 80 0 false.

(** A close that is animated and a show that follows within the 175 ms of
    the animation.  The help dialog has opened and its two timers have
    expired; it is closed with the animation, whose first timer expires; the
    other dialog is shown, modal and without animation; then the completion
    of the close expires. *)
Definition helpOpened : State := fireTimer 0 (fireTimer 0 helpShown).
Definition helpClosing : State :=
  fireTimer 0 (after (hideDialog true helpOpened)).
Definition doneShown : State :=
  after (showDialog (Some doneContent) None false true [] None helpClosing).
Definition doneAfterStaleCompletion : State := fireTimer 0 doneShown.

(** A show that supersedes a show whose animation has not completed: the help
    dialog is opening when the other dialog is shown, animated as well; then
    the completion of the first show expires. *)
Definition doneOpening : State :=
  after (showDialog (Some doneContent) (Some helpButton) true true [] None
                    (fireTimer 0 helpShown)).
Definition doneAfterStaleShow : State := fireTimer 0 doneOpening.

(** *** The manager, as the page drives it *)

(** What happens to the manager in the life of a page: the application calls
    one of its public functions, the browser delivers an event or lets a
    timer expire, another module registers a listener of its own, or the
    host's answers change (the page is laid out anew, the level is
    solved, ...). *)
Inductive Op :=
  | ShowDialog (content origin : option node) (animate modal : bool)
               (style : list (string * cssval)) (disposeFunc : option Callback)
  | HideDialog (opt_animate : bool)
  | AbortOffer
  | StartDialogKeyDown
  | StopDialogKeyDown
  | Deliver (target : node) (type : string) (e : Event)
  | Expire (i : nat)
  | ForeignListener (target : node) (type : string) (n : nat) (capture : bool)
  | HostChange (h : Host).

Definition run (o : Op) : Action :=
  match o with
  | ShowDialog content origin animate modal style disposeFunc =>
      λ s, after (showDialog content origin animate modal style disposeFunc s)
  | HideDialog opt_animate => λ s, after (hideDialog opt_animate s)
  | AbortOffer => λ s, after (abortOffer s)
  | StartDialogKeyDown => startDialogKeyDown
  | StopDialogKeyDown => stopDialogKeyDown
  | Deliver target type e => dispatch target type e
  | Expire i => fireTimer i
  | ForeignListener target type n capture =>
      addEventListener target type (ExternalH n) capture
  | HostChange h => λ s, mkState (doc s) (vars s) h (timers s) (log s)
  end.

Definition runAll (ops : list Op) : Action :=
  λ s, foldl (λ s o, run o s) s ops.

(** *** Notions of the invariants *)

(** An action keeps the drag listeners tracked. *)
Definition keepsTracked (a : Action) : Prop :=
  ∀ s, dragTracked s → dragTracked (a s).

(** An action that leaves the listeners and the two drag variables alone. *)
Definition leavesDrag (a : Action) : Prop :=
  ∀ s, listeners (doc (a s)) = listeners (doc s)
       ∧ dialogMouseUpWrapper_ (vars (a s)) = dialogMouseUpWrapper_ (vars s)
       ∧ dialogMouseMoveWrapper_ (vars (a s)) = dialogMouseMoveWrapper_ (vars s).

(** The listener showDialog binds on the header of a modal dialog. *)
Definition downListener (k : nat) : Listener :=
  mkListener header "mousedown" DialogMouseDownH false (Some k).

(** The three mouse handlers of the manager. *)
Definition mouseHandler (h : Handler) : Prop :=
  h = DialogMouseDownH ∨ h = DialogMouseMoveH ∨ h = DialogUnbindDragEventsH.

(** A listener with one of the manager's mouse handlers is the one the
    corresponding variable records. *)
Definition owned (v : Vars) (l : Listener) : Prop :=
  match l_handler l with
  | DialogMouseDownH =>
      ∃ k, dialogMouseDownWrapper_ v = Some k ∧ l = downListener k
  | DialogMouseMoveH =>
      ∃ k, dialogMouseMoveWrapper_ v = Some k ∧ l = moveListener k
  | DialogUnbindDragEventsH =>
      ∃ k, dialogMouseUpWrapper_ v = Some k ∧ l = upListener k
  | _ => True
  end.

Definition ownedAll (s : State) : Prop :=
  Forall (owned (vars s)) (listeners (doc s)).

(** No mouse listener of the manager is recorded. *)
Definition unbound (s : State) : Prop :=
  dialogMouseDownWrapper_ (vars s) = None
  ∧ dialogMouseUpWrapper_ (vars s) = None
  ∧ dialogMouseMoveWrapper_ (vars s) = None.

Definition idle (s : State) : Prop := ownedAll s ∧ unbound s.

(** Every registered listener with a mouse handler of the manager is the
    one its variable records, and while no dialog is visible the three
    variables are null: no such listener is registered then. *)
Definition mouseOwned (s : State) : Prop :=
  ownedAll s ∧ (isDialogVisible_ (vars s) = false → unbound s).

(** A listener registered with [addEventListener] for an event other than
    a key press: the manager never removes one. *)
Definition plain (l : Listener) : Prop :=
  l_key l = None ∧ l_type l ≠ "keydown".

(** An action keeps the plain listeners. *)
Definition retainsPlain (a : Action) : Prop :=
  ∀ s l, l ∈ listeners (doc s) → plain l → l ∈ listeners (doc (a s)).

(** An action that leaves the three variables and the visibility flag alone,
    and of the listeners adds none with a mouse handler of the manager and
    removes no plain one. *)
Definition benign (a : Action) : Prop :=
  ∀ s,
    dialogMouseDownWrapper_ (vars (a s)) = dialogMouseDownWrapper_ (vars s)
    ∧ dialogMouseUpWrapper_ (vars (a s)) = dialogMouseUpWrapper_ (vars s)
    ∧ dialogMouseMoveWrapper_ (vars (a s)) = dialogMouseMoveWrapper_ (vars s)
    ∧ isDialogVisible_ (vars (a s)) = isDialogVisible_ (vars s)
    ∧ (∀ l, l ∈ listeners (doc (a s)) →
            l ∈ listeners (doc s) ∨ ¬ mouseHandler (l_handler l))
    ∧ (∀ l, l ∈ listeners (doc s) → plain l → l ∈ listeners (doc (a s))).

(** A handler that closes the dialog when it is called with the event
    [e]. *)
Definition closes (e : Event) (h : Handler) : Prop :=
  h = HideDialogH
  ∨ ((h = DialogKeyDownH ∨ h = AbortKeyDownH) ∧ isKey e [13; 27; 32]%Z = true).

(** What of a state a user sees or the manager keeps: all but the log. *)
Definition sameButLog (s s' : State) : Prop :=
  doc s' = doc s ∧ vars s' = vars s ∧ host s' = host s ∧ timers s' = timers s.

(** [hoare P a Q]: from a state in [P] the action [a] leads to a state in
    [Q]. *)
Definition hoare (P : State → Prop) (a : Action) (Q : State → Prop) : Prop :=
  ∀ s, P s → Q (a s).

(** The two listeners showDialog registers on a button that is marked
    [addHideHandler]. *)
Definition clickListener (button : node) : Listener :=
  mkListener button "click" HideDialogH true None.

Definition touchListener (button : node) : Listener :=
  mkListener button "touchend" HideDialogH true None.

(** The listener startDialogKeyDown registers. *)
Definition keyListener : Listener :=
  mkListener Body "keydown" DialogKeyDownH true None.


(** An action that only appends to the log, and only effects in [P]. *)
Definition emits (P : Effect → Prop) (a : Action) : Prop :=
  ∀ s, ∃ evs, log (a s) = log s ++ evs ∧ Forall P evs.

(** Effects other than a navigation to the index page. *)
Definition onPage (ev : Effect) : Prop :=
  match ev with
  | EIndexPage => False
  | _ => True
  end.



(** The page is laid out anew. *)
Definition relayout (L : Layout) : Action :=
  λ s, mkState (doc s) (vars s)
         (mkHost L (mainWorkspace (host s)) (workspaceDragging (host s))
                 (levelComplete (host s)))
         (timers s) (log s).


End BlocklyDialogs.

(** ** The turtle field *)

Module FieldTurtle.

(** The JavaScript values a component of a turtle value can hold. *)
Inductive jsval :=
  | Undefined
  | Null
  | Str (s : string).

#[global] Instance jsval_eq_dec : EqDecision jsval.
Proof. solve_decision. Defined.

(** [!v] is [negb (truthy v)]. *)
Definition truthy (v : jsval) : bool :=
  match v with
  | Undefined | Null => false
  | Str s => negb (bool_decide (s = ""))
  end.

(** [v == undefined], the loose comparison: it holds of [null] as well. *)
Definition looseEqUndefined (v : jsval) : bool :=
  match v with
  | Undefined | Null => true
  | Str _ => false
  end.

(** The object a turtle field holds, and the names of its properties. *)
Record TurtleValue := mkTurtle {
  pattern : jsval;
  hat : jsval;
  turtleName : jsval
}.

Inductive Key := PatternKey | HatKey | TurtleNameKey.

#[global] Instance Key_eq_dec : EqDecision Key.
Proof. solve_decision. Defined.

#[global] Instance TurtleValue_eq_dec : EqDecision TurtleValue.
Proof. solve_decision. Defined.

(** [value[variable]] *)
Definition getKey (variable : Key) (value : TurtleValue) : jsval :=
  match variable with
  | PatternKey => pattern value
  | HatKey => hat value
  | TurtleNameKey => turtleName value
  end.

(** [value = {}; value[variable] = v] *)
Definition singleton (variable : Key) (v : jsval) : TurtleValue :=
  match variable with
  | PatternKey => mkTurtle v Undefined Undefined
  | HatKey => mkTurtle Undefined v Undefined
  | TurtleNameKey => mkTurtle Undefined Undefined v
  end.

Definition PATTERNS : list string := ["Dots"; "Stripes"; "Hexagons"].
Definition HATS : list string :=
  ["Stovepipe"; "Crown"; "Propeller"; "Mask"; "Fedora"].
Definition NAMES : list string :=
  ["Yertle"; "Franklin"; "Crush"; "Leonardo"; "Bowser"; "Squirtle"; "Oogway"].

(** [array.indexOf(s)] for a string [s], counting from [i]. *)
Fixpoint indexFrom (i : Z) (array : list string) (s : string) : Z :=
  match array with
  | [] => (-1)%Z
  | x :: rest => if bool_decide (x = s) then i else indexFrom (i + 1)%Z rest s
  end.

(** [array.indexOf(v)]: the comparison is strict, so only a string can be
    found in an array of strings. *)
Definition indexOf (array : list string) (v : jsval) : Z :=
  match v with
  | Str s => indexFrom 0%Z array s
  | _ => (-1)%Z
  end.

(** [array[i]] *)
Definition at_ (array : list string) (i : Z) : jsval :=
  if (i <? 0)%Z then Undefined
  else match array !! Z.to_nat i with
       | Some s => Str s
       | None => Undefined
       end.

(** The properties of the field that the value logic reads and writes.
    [value_] is [null] and [displayValue_] is [undefined] until they are
    first assigned. *)
Record Field := mkField {
  value_ : option TurtleValue;
  displayValue_ : option TurtleValue;
  cachedValidatedValue_ : option TurtleValue;
  isValueInvalid_ : bool;
  isDirty_ : bool
}.

(** [this.displayValue_ && this.displayValue_[variable]] *)
Definition displayed (variable : Key) (f : Field) : jsval :=
  match displayValue_ f with
  | None => Undefined
  | Some d => getKey variable d
  end.

(** What doClassValidation_ hands back: the value it returns ([None] for
    [null]), and [newValue] as the assignments have left it (the caller still
    holds that object). *)
Record Validation := mkValidation {
  returned : option TurtleValue;
  newValue' : TurtleValue;
  field' : Field
}.

Definition doClassValidation_ (newValue : TurtleValue) (f : Field)
  : Validation :=
  let p :=
    if looseEqUndefined (pattern newValue) then displayed PatternKey f
    else if (indexOf PATTERNS (pattern newValue) =? -1)%Z then Null
    else pattern newValue in
  let h :=
    if looseEqUndefined (hat newValue) then displayed HatKey f
    else if (indexOf HATS (hat newValue) =? -1)%Z then Null
    else hat newValue in
  let n :=
    if looseEqUndefined (turtleName newValue) then displayed TurtleNameKey f
    else if (indexOf NAMES (turtleName newValue) =? -1)%Z then Null
    else turtleName newValue in
  let newValue := mkTurtle p h n in
  let f := mkField (value_ f) (displayValue_ f) (Some newValue)
                   (isValueInvalid_ f) (isDirty_ f) in
  if negb (truthy (pattern newValue)) || negb (truthy (hat newValue))
     || negb (truthy (turtleName newValue))
  then mkValidation None newValue f
  else mkValidation (Some newValue) newValue f.

(** The inherited method stores the value and marks the field dirty. *)
Definition doValueUpdate_ (newValue : TurtleValue) (f : Field) : Field :=
  mkField (Some newValue) (Some newValue) (cachedValidatedValue_ f) false true.

Definition doValueInvalid_ (invalidValue : TurtleValue) (f : Field) : Field :=
  mkField (value_ f) (Some invalidValue) (cachedValidatedValue_ f) true true.

(** Modelled from the spec: Blockly.Field.setValue belongs to the Blockly
    library, which the spec places out of scope and which is not among the
    sources.  The comments of field_turtle.js give its contract: it calls the
    class validator; when that returns null it calls doValueInvalid_ with the
    new value and the field is not updated; otherwise it calls doValueUpdate_
    with the validated value.  The field is taken to have no local validator,
    and every caller in this file passes an object it has just made. *)
Definition setValue (newValue : TurtleValue) (f : Field) : Field :=
  let v := doClassValidation_ newValue f in
  match returned v with
  | None => doValueInvalid_ (newValue' v) (field' v)
  | Some validated => doValueUpdate_ validated (field' v)
  end.

(** A saved field as fromXml reads it: the two attributes, present or not,
    and the text of the element. *)
Record FieldElement := mkFieldElement {
  patternAttribute : option string;
  hatAttribute : option string;
  elementText : string
}.

(** [fieldElement.getAttribute(name)]: null when there is no such
    attribute. *)
Definition getAttribute (attribute : option string) : jsval :=
  match attribute with
  | Some s => Str s
  | None => Null
  end.

(** FieldTurtle.fromXml *)
Definition fromXml (fieldElement : FieldElement) (f : Field) : Field :=
  setValue (mkTurtle (getAttribute (patternAttribute fieldElement))
                     (getAttribute (hatAttribute fieldElement))
                     (Str (elementText fieldElement))) f.

(** The function createArrowListener returns, called on the field.  [None]
    is the TypeError of reading a property of an undefined display value. *)
Definition createArrowListener (variable : Key) (array : list string)
    (direction : Z) (f : Field) : option Field :=
  match displayValue_ f with
  | None => None
  | Some d =>
      let currentIndex := indexOf array (getKey variable d) in
      let currentIndex := (currentIndex + direction)%Z in
      let currentIndex :=
        if (currentIndex <=? -1)%Z then (Z.of_nat (length array) - 1)%Z
        else if (currentIndex >=? Z.of_nat (length array))%Z then 0%Z
        else currentIndex in
      Some (setValue (singleton variable (at_ array currentIndex)) f)
  end.

(** The six arrow listeners dropdownCreate_ binds: for each row the
    property, its option list, and the directions of the left and the right
    arrow. *)
Definition optionsOf (variable : Key) : list string :=
  match variable with
  | PatternKey => PATTERNS
  | HatKey => HATS
  | TurtleNameKey => NAMES
  end.

Definition leftArrow (variable : Key) : Field -> option Field :=
  createArrowListener variable (optionsOf variable) (-1).

Definition rightArrow (variable : Key) : Field -> option Field :=
  createArrowListener variable (optionsOf variable) 1.

(** The resolution of one property as the specification words it: an
    undefined property takes the displayed value, a defined one that is not
    an option becomes null.  To be compared with what doClassValidation_
    computes. *)
Definition resolvedAsClaimed (variable : Key) (newValue : TurtleValue)
    (f : Field) : jsval :=
  match getKey variable newValue with
  | Undefined => displayed variable f
  | v => if bool_decide (v ∈ Str <$> optionsOf variable) then v else Null
  end.

(** A field that shows and holds the default turtle. *)
Definition defaultTurtle : TurtleValue :=
  mkTurtle (Str "Dots") (Str "Stovepipe") (Str "Yertle").

Definition defaultField : Field :=
  mkField (Some defaultTurtle) (Some defaultTurtle) (Some defaultTurtle)
          false false.

(** *** The constructor *)

(** [opt || array[0]] *)
Definition orFirst (opt : jsval) (array : list string) : jsval :=
  if truthy opt then opt else at_ array 0.

(** The object the constructor compiles from its parameters and hands to
    the constructor of Blockly.Field. *)
Definition constructorValue (opt_pattern opt_hat opt_turtleName : jsval)
  : TurtleValue :=
  mkTurtle (orFirst opt_pattern PATTERNS) (orFirst opt_hat HATS)
           (orFirst opt_turtleName NAMES).

(** *** Serialization *)

(** The string of a value, as [setAttribute] and [+] make it. *)
Definition toStr (v : jsval) : string :=
  match v with
  | Undefined => "undefined"
  | Null => "null"
  | Str s => s
  end.

(** The text a node holds after [node.textContent = v] or
    [node.nodeValue = v]: null and undefined give the empty text. *)
Definition textOf (v : jsval) : string :=
  match v with
  | Str s => s
  | _ => ""
  end.

(** FieldTurtle.toXml.  [None] is the TypeError of reading a property of a
    value that is null. *)
Definition toXml (fieldElement : FieldElement) (f : Field)
  : option FieldElement :=
  match value_ f with
  | None => None
  | Some v =>
      Some (mkFieldElement (Some (toStr (pattern v))) (Some (toStr (hat v)))
                           (textOf (turtleName v)))
  end.

(** *** What the field draws *)

(** The parts of the view that render_ writes: the [style.display] of the
    five hats, two transforms, the fill of the shell, the text, and the fill
    of the border rectangle.  An attribute that has not been set is
    [None]. *)
Record View := mkView {
  stovepipe_ : string;
  crown_ : string;
  mask_ : string;
  propeller_ : string;
  fedora_ : string;
  turtleGroupTransform : option string;
  textElementTransform : option string;
  shellPatternFill : option string;
  textContentValue : string;
  borderRectFill : option string;
  borderRectFillOpacity : option string
}.

(** The editor: the three texts and the [style.display] of the three warning
    icons. *)
Record Editor := mkEditor {
  patternText : string;
  hatText : string;
  turtleNameText : string;
  patternWarning : string;
  hatWarning : string;
  turtleNameWarning : string
}.

Record Widget := mkWidget {
  field : Field;
  view : View;
  editor_ : option Editor
}.

(** FieldTurtle.renderEditor_ on the editor [e].  [None] is the TypeError of
    reading a property of an undefined value. *)
Definition renderEditor_ (f : Field) (e : Editor) : option Editor :=
  match displayValue_ f, cachedValidatedValue_ f with
  | Some value, Some cached =>
      Some (mkEditor (textOf (pattern value)) (textOf (hat value))
                     (textOf (turtleName value))
                     (if truthy (pattern cached) then "none" else "")
                     (if truthy (hat cached) then "none" else "")
                     (if truthy (turtleName cached) then "none" else ""))
  | _, _ => None
  end.

(** The [switch (value.hat)] of render_, after all five hats have been
    hidden.  TEXT_OFFSET_X is 80. *)
Definition showHat (hatValue : jsval) (v : View) : View :=
  let hidden :=
    mkView "none" "none" "none" "none" "none" (turtleGroupTransform v)
           (textElementTransform v) (shellPatternFill v) (textContentValue v)
           (borderRectFill v) (borderRectFillOpacity v) in
  let shown (sp cr mk pr fe : string) (tg tx : string) :=
    mkView sp cr mk pr fe (Some tg) (Some tx) (shellPatternFill v)
           (textContentValue v) (borderRectFill v) (borderRectFillOpacity v) in
  if bool_decide (hatValue = Str "Stovepipe") then
    shown "" "none" "none" "none" "none" "translate(0,12)" "translate(80,20)"
  else if bool_decide (hatValue = Str "Crown") then
    shown "none" "" "none" "none" "none" "translate(0,9)" "translate(80,16)"
  else if bool_decide (hatValue = Str "Mask") then
    shown "none" "none" "" "none" "none" "translate(0,6)" "translate(80,12)"
  else if bool_decide (hatValue = Str "Propeller") then
    shown "none" "none" "none" "" "none" "translate(0,6)" "translate(80,12)"
  else if bool_decide (hatValue = Str "Fedora") then
    shown "none" "none" "none" "none" "" "translate(0,6)" "translate(80,12)"
  else hidden.

(** The [switch (value.pattern)] of render_. *)
Definition showPattern (patternValue : jsval) (v : View) : View :=
  let filled (fill : string) :=
    mkView (stovepipe_ v) (crown_ v) (mask_ v) (propeller_ v) (fedora_ v)
           (turtleGroupTransform v) (textElementTransform v) (Some fill)
           (textContentValue v) (borderRectFill v) (borderRectFillOpacity v) in
  if bool_decide (patternValue = Str "Dots") then filled "url(#polkadots)"
  else if bool_decide (patternValue = Str "Stripes") then filled "url(#stripes)"
  else if bool_decide (patternValue = Str "Hexagons") then filled "url(#hexagons)"
  else v.

(** FieldTurtle.render_, up to the call of updateSize_, which writes the
    size of the field and nothing that is modelled here. *)
Definition render_ (w : Widget) : option Widget :=
  match displayValue_ (field w) with
  | None => None
  | Some value =>
      let editor :=
        match editor_ w with
        | Some e => option_map Some (renderEditor_ (field w) e)
        | None => Some None
        end in
      match editor with
      | None => None
      | Some editor =>
          let v := showHat (hat value) (view w) in
          let v := showPattern (pattern value) v in
          let v :=
            mkView (stovepipe_ v) (crown_ v) (mask_ v) (propeller_ v)
                   (fedora_ v) (turtleGroupTransform v)
                   (textElementTransform v) (shellPatternFill v)
                   (textOf (turtleName value))
                   (Some (if isValueInvalid_ (field w) then "#f99" else "#fff"))
                   (Some (if isValueInvalid_ (field w) then "1" else "0.6")) in
          Some (mkWidget (field w) v editor)
      end
  end.

(** The [style.display] of the graphic of a hat. *)
Definition hatDisplay (hatName : string) (v : View) : option string :=
  if bool_decide (hatName = "Stovepipe") then Some (stovepipe_ v)
  else if bool_decide (hatName = "Crown") then Some (crown_ v)
  else if bool_decide (hatName = "Mask") then Some (mask_ v)
  else if bool_decide (hatName = "Propeller") then Some (propeller_ v)
  else if bool_decide (hatName = "Fedora") then Some (fedora_ v)
  else None.

(** The warning icon and the text of a row of the editor. *)
Definition warningOf (variable : Key) (e : Editor) : string :=
  match variable with
  | PatternKey => patternWarning e
  | HatKey => hatWarning e
  | TurtleNameKey => turtleNameWarning e
  end.

Definition rowText (variable : Key) (e : Editor) : string :=
  match variable with
  | PatternKey => patternText e
  | HatKey => hatText e
  | TurtleNameKey => turtleNameText e
  end.

(** *** The listeners of the editor *)

(** FieldTurtle.dropdownDispose_: the loop
    [for (let i = this.editorListeners_.length, listener;
          listener = this.editorListeners_[i]; i--)],
    with the binding data it has handed to [unbind] so far. *)
Fixpoint disposeLoop (fuel : nat) (i : Z) (editorListeners_ unbound : list nat)
  : list nat * list nat :=
  match fuel with
  | O => (editorListeners_, unbound)
  | S fuel' =>
      match (if (i <? 0)%Z then None else editorListeners_ !! Z.to_nat i) with
      | None => (editorListeners_, unbound)
      | Some listener =>
          disposeLoop fuel' (i - 1)%Z (removelast editorListeners_)
                      (unbound ++ [listener])
      end
  end.

(** Every round pops a listener, so one round more than there are listeners
    is enough. *)
Definition dropdownDispose_ (editorListeners_ : list nat)
  : list nat * list nat :=
  disposeLoop (S (length editorListeners_))
              (Z.of_nat (length editorListeners_)) editorListeners_ [].

(** The seven calls [this.editorListeners_.push(Blockly.browserEvents.bind(...))]
    of dropdownCreate_; [next] numbers the binding data. *)
Definition pushEditorListeners (next : nat) (editorListeners_ : list nat)
  : list nat :=
  editorListeners_ ++ seq next 7.

(** *** The life of a field *)

(** What sets the value of a field: a call of setValue, the loading of a
    saved field, or an arrow of the editor. *)
Inductive FieldOp :=
  | SetValue (newValue : TurtleValue)
  | FromXml (fieldElement : FieldElement)
  | LeftArrow (variable : Key)
  | RightArrow (variable : Key).

(** A listener that throws leaves the field as it is. *)
Definition runField (o : FieldOp) (f : Field) : Field :=
  match o with
  | SetValue newValue => setValue newValue f
  | FromXml fieldElement => fromXml fieldElement f
  | LeftArrow variable => default f (leftArrow variable f)
  | RightArrow variable => default f (rightArrow variable f)
  end.

Definition runFieldAll (ops : list FieldOp) (f : Field) : Field :=
  foldl (λ f o, runField o f) f ops.

(** Every property of [v] is one of the options of its list. *)
Definition validTurtle (v : TurtleValue) : Prop :=
  ∀ variable, ∃ s, getKey variable v = Str s ∧ s ∈ optionsOf variable.

(** What a field can have on display: for every property an option of its
    list, or null or undefined where a value was invalid or missing. *)
Definition displayable (f : Field) : Prop :=
  ∀ variable,
    truthy (displayed variable f) = true →
    ∃ s, displayed variable f = Str s ∧ s ∈ optionsOf variable.

Definition fieldOk (f : Field) : Prop :=
  (∀ v, value_ f = Some v → validTurtle v) ∧ displayable f.

(** A field that holds nothing yet. *)
Definition emptyField : Field := mkField None None None false false.

End FieldTurtle.

(** ** Properties of the dialog manager *)

Module DialogProofs.
Import BlocklyDialogs.

(** *** Logs *)

Lemma presentational_noCall e : presentational e → noCall e.
Proof. by destruct e. Qed.

Lemma noCall_calls l : Forall noCall l → calls l = [].
Proof.
  induction 1 as [|e l He _ IH]; [done|].
  destruct e; try done; exact IH.
Qed.

Lemma calls_app l1 l2 : calls (l1 ++ l2) = calls l1 ++ calls l2.
Proof. apply omap_app. Qed.
Lemma timeouts_app l1 l2 : timeouts (l1 ++ l2) = timeouts l1 ++ timeouts l2.
Proof. apply omap_app. Qed.

Lemma presentational_calls l : Forall presentational l → calls l = [].
Proof.
  induction 1 as [|e l He _ IH]; [done|].
  destruct e; try done; exact IH.
Qed.
Lemma presentational_timeouts l : Forall presentational l → timeouts l = [].
Proof.
  induction 1 as [|e l He _ IH]; [done|].
  destruct e; try done; exact IH.
Qed.

Lemma moving_presentational e : moving e → presentational e.
Proof. by destruct e. Qed.

Lemma wiring_presentational e : wiring e → presentational e.
Proof. by destruct e. Qed.

(** ** Statements that can throw *)

Lemma tryThen_ok (a b : Fallible) s s' : a s = Ok s' → (a >>> b) s = b s'.
Proof. unfold tryThen. by intros ->. Qed.

Lemma tryThen_throw (a b : Fallible) s e s' :
  a s = Throw e s' → (a >>> b) s = Throw e s'.
Proof. unfold tryThen. by intros ->. Qed.

Lemma tryThen_lift (a : Action) (b : Fallible) s : (lift a >>> b) s = b (a s).
Proof. reflexivity. Qed.

(** A sequence leaves the state its first part leaves, or the state its
    second part leaves when it is run in that state. *)
Lemma settle_tryThen (a b : Fallible) s :
  (∃ e, a s = Throw e (settle a s) ∧ settle (a >>> b) s = settle a s)
  ∨ (a s = Ok (settle a s) ∧ settle (a >>> b) s = settle b (settle a s)).
Proof.
  unfold settle, tryThen. destruct (a s) as [s'|e s']; [by right|].
  left. by exists e.
Qed.

Lemma appendChild_cases p c s :
  (refuses s p c = false ∧ appendChild p c s = Ok (attach p c s))
  ∨ (refuses s p c = true ∧ appendChild p c s = Throw HierarchyRequestError s).
Proof. unfold appendChild. destruct (refuses s p c); [by right|by left]. Qed.

Lemma appendChild_ok p c s s' :
  appendChild p c s = Ok s' → refuses s p c = false ∧ s' = attach p c s.
Proof. unfold appendChild. destruct (refuses s p c); [done|]. by intros [= <-]. Qed.

Lemma appendChild_throw p c s e s' :
  appendChild p c s = Throw e s' →
  e = HierarchyRequestError ∧ s' = s ∧ refuses s p c = true.
Proof.
  unfold appendChild. destruct (refuses s p c) eqn:E; [|done].
  by intros [= <- <-].
Qed.

(** An element that has just been created has no descendants: it can be
    appended to any other element. *)
Lemma descendants_childless fuel ch n :
  default [] (ch !! n) = [] → descendants fuel ch n = [].
Proof. intros H. destruct fuel; [done|]. simpl. by rewrite H. Qed.

Lemma childless_accepted s p n :
  n ≠ Document → p ≠ n → default [] (children (doc s) !! n) = [] →
  refuses s p n = false.
Proof.
  intros Hd Hp Hk. unfold refuses, contains, allDescendants.
  rewrite bool_decide_eq_false_2 by done. cbn [orb].
  apply bool_decide_eq_false_2. intros [?|Hin]; [done|].
  rewrite descendants_childless in Hin; [by apply elem_of_nil in Hin|done].
Qed.

Lemma appendChild_accept p c s :
  refuses s p c = false → appendChild p c s = Ok (attach p c s).
Proof. unfold appendChild. by intros ->. Qed.

Lemma tryThen_assoc (a b c : Fallible) s :
  ((a >>> b) >>> c) s = (a >>> b >>> c) s.
Proof. unfold tryThen. by destruct (a s). Qed.

(** ** Single steps on the tree *)

Lemma kids_detach c ch n :
  default [] (detach c ch !! n) = filter (λ x, x ≠ c) (default [] (ch !! n)).
Proof. unfold detach. rewrite lookup_fmap. by destruct (ch !! n). Qed.

Lemma kids_attach p c s n :
  kids (attach p c s) n =
    if decide (n = p) then filter (λ x, x ≠ c) (kids s p) ++ [c]
    else filter (λ x, x ≠ c) (kids s n).
Proof.
  unfold kids, attach. cbn [doc children emit with_doc set_children].
  case_decide as Hn.
  - subst n. rewrite lookup_insert_eq. simpl. by rewrite kids_detach.
  - rewrite lookup_insert_ne by done. apply kids_detach.
Qed.

Lemma classList_classListAdd n c s x :
  classList (classListAdd n c s) x =
    if decide (x = n ∧ c ∉ classList s n) then classList s n ++ [c]
    else classList s x.
Proof.
  unfold classListAdd, classList at 1.
  cbn [doc classes emit with_doc set_classes].
  destruct (bool_decide (c ∈ classList s n)) eqn:E.
  - apply bool_decide_eq_true in E. rewrite decide_False by tauto. done.
  - apply bool_decide_eq_false in E.
    case_decide as Hx.
    + destruct Hx as [-> _]. by rewrite lookup_insert_eq.
    + rewrite lookup_insert_ne; [done|]. intros ->. tauto.
Qed.

Lemma classListAdd_has n c s : c ∈ classList (classListAdd n c s) n.
Proof.
  rewrite classList_classListAdd. case_decide as H.
  - apply elem_of_app. right. by apply list_elem_of_singleton.
  - destruct (decide (c ∈ classList s n)); [done|]. tauto.
Qed.

Lemma classListAdd_mono n c s x c' :
  c' ∈ classList s x → c' ∈ classList (classListAdd n c s) x.
Proof.
  rewrite classList_classListAdd. case_decide as H; [|done].
  destruct H as [-> _]. intros. apply elem_of_app. by left.
Qed.

(** ** The loop of hideDialog *)

Lemma moveChildren_spec n s :
  length (kids s dialog) ≤ n →
  ∃ ch' cl' evs,
    after (moveChildren n s) =
      mkState (mkDoc ch' cl' (tags (doc s)) (styles (doc s))
                     (listeners (doc s)) (nextKey (doc s)))
              (vars s) (host s) (timers s) (log s ++ evs)
    ∧ Forall moving evs
    ∧ (∀ x c, c ∈ classList s x → c ∈ default [] (cl' !! x))
    ∧ (∀ p x, x ∈ default [] (ch' !! p) → ∃ q, x ∈ kids s q)
    ∧ match moveChildren n s with
      | Ok _ =>
          default [] (ch' !! dialog) = []
          ∧ (∀ x, x ∈ kids s dialog →
               x ∈ default [] (ch' !! Body)
               ∧ hiddenContent ∈ default [] (cl' !! x))
          ∧ (∀ x, x ∈ kids s Body → x ∈ default [] (ch' !! Body))
      | Throw e s' =>
          e = HierarchyRequestError
          ∧ ∃ x, firstChild s' dialog = Some x ∧ refuses s' Body x = true
      end.
Proof.
  revert s. induction n as [|n IH]; intros s Hlen.
  - destruct s as [[ch cl tg st ls nk] v ap tm lg].
    exists ch, cl, []. simpl. rewrite app_nil_r.
    assert (Hnil : default [] (ch !! dialog) = []).
    { destruct (default [] (ch !! dialog)) eqn:E; [done|].
      unfold kids in Hlen. simpl in Hlen. rewrite E in Hlen. simpl in Hlen. lia. }
    split; [done|]. split; [constructor|].
    unfold kids, classList. simpl. rewrite Hnil.
    split; [done|]. split; [eauto|]. split; [done|].
    split; [intros x Hx; by apply elem_of_nil in Hx|done].
  - simpl. unfold firstChild.
    destruct (kids s dialog) as [|c rest] eqn:Hk.
    + destruct s as [[ch cl tg st ls nk] v ap tm lg].
      exists ch, cl, []. simpl. rewrite app_nil_r.
      unfold kids, classList in *. simpl in *. rewrite Hk.
      split; [done|]. split; [constructor|].
      split; [done|]. split; [eauto|]. split; [done|].
      split; [intros x Hx; by apply elem_of_nil in Hx|done].
    + cbn [head]. rewrite tryThen_lift.
      set (s0 := classListAdd c "dialogHiddenContent" s).
      destruct (appendChild_cases Body c s0) as [[Hacc Happ]|[Href Happ]].
      2:{ rewrite (tryThen_throw _ _ _ _ _ Happ). cbn [after].
          destruct s as [[ch cl tg st ls nk] v ap tm lg].
          eexists ch, _, [EClassAdd c "dialogHiddenContent"].
          split; [reflexivity|]. split; [by repeat constructor|].
          split.
          { intros x c' Hc.
            change (c' ∈ classList s0 x). by apply classListAdd_mono. }
          split; [eauto|]. split; [done|].
          exists c. split; [|exact Href].
          unfold firstChild.
          change (kids s0 dialog) with
            (kids (mkState (mkDoc ch cl tg st ls nk) v ap tm lg) dialog).
          by rewrite Hk. }
      rewrite (tryThen_ok _ _ _ _ Happ).
      set (s1 := attach Body c s0).
      assert (Hd1 : kids s1 dialog = filter (λ x, x ≠ c) rest).
      { unfold s1. rewrite kids_attach. rewrite decide_False by done.
        change (kids s0 ?x) with (kids s x).
        rewrite Hk, filter_cons_False by tauto. done. }
      assert (Hb1 : kids s1 Body = filter (λ x, x ≠ c) (kids s Body) ++ [c]).
      { unfold s1. rewrite kids_attach. by rewrite decide_True. }
      destruct (IH s1) as (ch' & cl' & evs & Heq & Hev & Hcls & Hsrc & Hres).
      { rewrite Hd1. simpl in Hlen.
        pose proof (length_filter (λ x, x ≠ c) rest). lia. }
      exists ch', cl', (EClassAdd c "dialogHiddenContent" :: EAppend Body c :: evs).
      split.
      { rewrite Heq. unfold s1, s0. cbn. by rewrite <- !app_assoc. }
      split; [by repeat constructor|].
      assert (Hcls' : ∀ x c', c' ∈ classList s x → c' ∈ default [] (cl' !! x)).
      { intros x c' Hc. apply Hcls. unfold s1.
        change (classList (attach ?p ?q ?t) ?x) with (classList t x).
        by apply classListAdd_mono. }
      split; [exact Hcls'|].
      split.
      { intros p x Hx. destruct (Hsrc p x Hx) as [q Hq].
        unfold s1 in Hq. rewrite kids_attach in Hq.
        change (kids s0 ?x) with (kids s x) in Hq.
        case_decide.
        - apply elem_of_app in Hq as [Hq|Hq].
          + apply list_elem_of_filter in Hq as [_ Hq]. eauto.
          + apply list_elem_of_singleton in Hq as ->. exists dialog.
            rewrite Hk. left.
        - apply list_elem_of_filter in Hq as [_ Hq]. eauto. }
      destruct (moveChildren n s1) as [s2|e s2]; [|exact Hres].
      destruct Hres as (Hdlg & Hmoved & Hbody).
      split; [done|]. split.
      * intros x Hx. destruct (decide (x = c)) as [->|Hne].
        -- split.
           ++ apply Hbody. rewrite Hb1. apply elem_of_app. right.
              by apply list_elem_of_singleton.
           ++ apply Hcls. unfold s1.
              change (classList (attach ?p ?q ?t) ?x) with (classList t x).
              apply classListAdd_has.
        -- apply Hmoved. rewrite Hd1. apply list_elem_of_filter. split; [done|].
           apply elem_of_cons in Hx as [->|Hx]; done.
      * intros x Hx. apply Hbody. rewrite Hb1.
        destruct (decide (x = c)) as [->|Hne].
        -- apply elem_of_app. right. by apply list_elem_of_singleton.
        -- apply elem_of_app. left. by apply list_elem_of_filter.
Qed.

(** ** The loop of showDialog *)

Lemma classList_classListRemove n c s x :
  classList (classListRemove n c s) x =
    if decide (x = n) then filter (λ y, y ≠ c) (classList s n)
    else classList s x.
Proof.
  unfold classListRemove, classList at 1.
  cbn [doc classes emit with_doc set_classes].
  case_decide as Hx.
  - subst. by rewrite lookup_insert_eq.
  - by rewrite lookup_insert_ne.
Qed.

Lemma wireButtons_step button c s :
  let s1 := classListRemove button "addHideHandler"
              (addEventListener button "touchend" HideDialogH true
                 (addEventListener button "click" HideDialogH true s)) in
  getElementsByClassName s1 c "addHideHandler" =
    filter (λ x, x ≠ button) (getElementsByClassName s c "addHideHandler").
Proof.
  intros s1. unfold getElementsByClassName.
  change (allDescendants s1 c) with (allDescendants s c).
  rewrite list_filter_filter. apply list_filter_iff. intros x.
  unfold hasClass. rewrite !bool_decide_eq_true. unfold s1.
  rewrite classList_classListRemove.
  change (classList (addEventListener ?a ?b ?h ?k ?t) ?y) with (classList t y).
  case_decide as Hx.
  - subst x. rewrite list_elem_of_filter. tauto.
  - tauto.
Qed.

Lemma wireButtons_spec n c s :
  ∃ cl' ls' evs,
    wireButtons n c s =
      mkState (mkDoc (children (doc s)) cl' (tags (doc s)) (styles (doc s))
                     ls' (nextKey (doc s)))
              (vars s) (host s) (timers s) (log s ++ evs)
    ∧ Forall wiring evs
    ∧ (∀ l, l ∈ ls' →
         l ∈ listeners (doc s) ∨ (l_handler l = HideDialogH ∧ l_key l = None
            ∧ (l_type l = "click" ∨ l_type l = "touchend")))
    ∧ (length (getElementsByClassName s c "addHideHandler") ≤ n →
       getElementsByClassName (wireButtons n c s) c "addHideHandler" = []).
Proof.
  revert s. induction n as [|n IH]; intros s.
  - destruct s as [[ch cl tg st ls nk] v ap tm lg].
    exists cl, ls, []. simpl. rewrite app_nil_r.
    split; [done|]. split; [constructor|]. split; [auto|].
    intros Hlen. by apply nil_length_inv, Nat.le_0_r.
  - simpl. destruct (getElementsByClassName s c "addHideHandler")
      as [|button rest] eqn:Hbs.
    + destruct s as [[ch cl tg st ls nk] v ap tm lg].
      exists cl, ls, []. simpl. rewrite app_nil_r.
      split; [done|]. split; [constructor|]. split; [auto|]. done.
    + pose proof (wireButtons_step button c s) as Hstep. cbv zeta in Hstep.
      unfold andThen.
      set (s1 := classListRemove button "addHideHandler" _) in *.
      destruct (IH s1) as (cl' & ls' & evs & Heq & Hev & Hls & Hdone).
      exists cl', ls', (EClassRemove button "addHideHandler" :: evs).
      split; [|split; [|split]].
      * rewrite Heq. unfold s1. cbn. by rewrite <- app_assoc.
      * by repeat constructor.
      * intros l Hl. destruct (Hls l Hl) as [Hin|?]; [|by right].
        unfold s1 in Hin. revert Hin.
        cbn [classListRemove addEventListener emit with_doc set_classes
             set_listeners doc listeners].
        repeat case_bool_decide; rewrite ?elem_of_app, ?list_elem_of_singleton;
          intros; destruct_or?; subst; auto; right; cbn; auto.
      * intros Hlen. apply Hdone. rewrite Hstep, Hbs.
        rewrite filter_cons_False by tauto. simpl in Hlen.
        pose proof (length_filter (λ x, x ≠ button) rest). lia.
Qed.

(** ** Symbolic execution *)

(** A statement applied to an explicit state is replaced by the state it
    computes.  [andThen] is not unfolded, so a sequence is executed one statement
    at a time, and execution stops at a statement whose effect is given by a
    lemma or depends on a case distinction. *)
Ltac eval_stmt t :=
  eval cbv beta iota zeta delta
    [hideEndResult change skip
     setVisible setDispose stopDialogKeyDown startDialogKeyDown
     setStyle setClassName setTimeout classListAdd classListRemove
     attach removeFromParent createElement addEventListener
     removeEventListener bind unbind
     emit with_doc with_vars
     set_children set_classes set_tags set_styles set_listeners set_nextKey
     set_isDialogVisible_ set_dialogOrigin_ set_dialogDispose_
     set_dialogMouseDownWrapper_ set_dialogMouseUpWrapper_
     set_dialogMouseMoveWrapper_ set_dialogStart_
     doc vars host timers log children classes tags styles listeners nextKey
     isDialogVisible_ dialogOrigin_ dialogDispose_ dialogMouseDownWrapper_
     dialogMouseUpWrapper_ dialogMouseMoveWrapper_ dialogStartX_
     dialogStartY_ layout mainWorkspace workspaceDragging levelComplete
     classList negb fst snd] in t.

Lemma andThen_eval (f g : Action) s s' : f s = s' → (f >> g) s = g s'.
Proof. by intros <-. Qed.

Ltac step :=
  cbv beta iota;
  lazymatch goal with
  | |- context [andThen ?f ?g (mkState ?a ?b ?c ?d ?e)] =>
      let t' := eval_stmt (f (mkState a b c d e)) in
      rewrite (andThen_eval f g (mkState a b c d e) t' eq_refl);
      cbv beta
  | |- context [andThen ?f ?g (?h (mkState ?a ?b ?c ?d ?e))] =>
      let t' := eval_stmt (h (mkState a b c d e)) in
      progress change (h (mkState a b c d e)) with t'
  end.

(** The last statement of a sequence. *)
Ltac last_step :=
  match goal with
  | |- context [?h (mkState ?a ?b ?c ?d ?e)] =>
      let t' := eval_stmt (h (mkState a b c d e)) in
      progress change (h (mkState a b c d e)) with t'
  end.

Ltac dlg_cbn :=
  cbv beta iota zeta delta
    [hideEndResult change skip andThen matchBorder_ getBBox call
     dialogUnbindDragEvents_ dialogMouseDown_ dialogMouseMove_
     setVisible setDispose stopDialogKeyDown startDialogKeyDown
     setStyle setClassName setTimeout classListAdd classListRemove
     attach removeFromParent createElement addEventListener
     removeEventListener bind unbind
     emit with_doc with_vars
     set_children set_classes set_tags set_styles set_listeners set_nextKey
     set_isDialogVisible_ set_dialogOrigin_ set_dialogDispose_
     set_dialogMouseDownWrapper_ set_dialogMouseUpWrapper_
     set_dialogMouseMoveWrapper_ set_dialogStart_
     doc vars host timers log children classes tags styles listeners nextKey
     isDialogVisible_ dialogOrigin_ dialogDispose_ dialogMouseDownWrapper_
     dialogMouseUpWrapper_ dialogMouseMoveWrapper_ dialogStartX_
     dialogStartY_ layout mainWorkspace workspaceDragging levelComplete
     classList negb fst snd].

(** ** Straight-line blocks as state equations *)

Lemma dialogUnbindDragEvents_eq s :
  ∃ ls',
    dialogUnbindDragEvents_ s =
      mkState (mkDoc (children (doc s)) (classes (doc s)) (tags (doc s))
                     (styles (doc s)) ls' (nextKey (doc s)))
              (mkVars (isDialogVisible_ (vars s)) (dialogOrigin_ (vars s))
                      (dialogDispose_ (vars s))
                      (dialogMouseDownWrapper_ (vars s)) None None
                      (dialogStartX_ (vars s)) (dialogStartY_ (vars s)))
              (host s) (timers s) (log s)
    ∧ ls' = filter (λ l, ¬ (is_Some (l_key l) ∧
                            (l_key l = dialogMouseUpWrapper_ (vars s)
                             ∨ l_key l = dialogMouseMoveWrapper_ (vars s))))
                   (listeners (doc s)).
Proof.
  destruct s as [[ch cl tg st ls nk] [vis og dp wd wu wm sx sy] ap tm lg].
  destruct wu as [u|], wm as [m|]; dlg_cbn; eexists; (split; [reflexivity|]).
  - rewrite list_filter_filter. apply list_filter_iff. intros l.
    destruct (l_key l); unfold is_Some; firstorder congruence.
  - apply list_filter_iff. intros l.
    destruct (l_key l); unfold is_Some; firstorder congruence.
  - apply list_filter_iff. intros l.
    destruct (l_key l); unfold is_Some; firstorder congruence.
  - induction ls as [|l ls IH]; [done|]. rewrite filter_cons_True, <- IH; [done|].
    intros [[k Hk] [H|H]]; congruence.
Qed.

Lemma call_eq f s :
  ∃ ls',
    call f s =
      mkState (mkDoc (children (doc s)) (classes (doc s)) (tags (doc s))
                     (styles (doc s)) ls' (nextKey (doc s)))
              (vars s) (host s) (timers s) (log s ++ [ECall f])
    ∧ ∀ l, l ∈ ls' → l ∈ listeners (doc s).
Proof.
  destruct s as [[ch cl tg st ls nk] v ap tm lg].
  destruct f; dlg_cbn; eexists; (split; [reflexivity|]); try done.
  all: by intros l [_ ?]%list_elem_of_filter.
Qed.

Lemma matchBorder_eq element animate opacity s :
  ∃ cl' st' tm' evs,
    matchBorder_ element animate opacity s =
      mkState (mkDoc (children (doc s)) cl' (tags (doc s)) st'
                     (listeners (doc s)) (nextKey (doc s)))
              (vars s) (host s) tm' (log s ++ evs)
    ∧ Forall noCall evs.
Proof.
  destruct s as [[ch cl tg st ls nk] v ap tm lg].
  destruct element as [el|], animate; dlg_cbn; do 4 eexists.
  1,2: split; [rewrite <- ?app_assoc; reflexivity|by repeat constructor].
  all: split; [by rewrite app_nil_r|constructor].
Qed.

Lemma hasParent_false s n :
  hasParent s n = false → ∀ q, n ∉ kids s q.
Proof.
  unfold hasParent, kids. intros H%bool_decide_eq_false q Hin.
  apply H. destruct (children (doc s) !! q) as [l|] eqn:E.
  - exists q, l. done.
  - simpl in Hin. by apply elem_of_nil in Hin.
Qed.



Ltac projs :=
  cbn [doc vars host timers log children classes tags styles listeners nextKey
       isDialogVisible_ dialogOrigin_ dialogDispose_ dialogMouseDownWrapper_
       dialogMouseUpWrapper_ dialogMouseMoveWrapper_ dialogStartX_
       dialogStartY_].

Ltac projs_in H :=
  cbn [doc vars host timers log children classes tags styles listeners nextKey
       isDialogVisible_ dialogOrigin_ dialogDispose_ dialogMouseDownWrapper_
       dialogMouseUpWrapper_ dialogMouseMoveWrapper_ dialogStartX_
       dialogStartY_] in H.

Ltac use_unbind :=
  match goal with |- context [dialogUnbindDragEvents_ ?E] =>
    let ls := fresh "ls" in let Heq := fresh "Heq" in let Hls := fresh "Hls" in
    destruct (dialogUnbindDragEvents_eq E) as (ls & Heq & Hls);
    rewrite Heq; clear Heq; projs_in Hls; projs
  end.

Ltac use_call :=
  match goal with |- context [call ?f ?E] =>
    let ls := fresh "ls" in let Heq := fresh "Heq" in let Hls := fresh "Hls" in
    destruct (call_eq f E) as (ls & Heq & Hls);
    rewrite Heq; clear Heq; projs_in Hls; projs
  end.

Ltac use_matchBorder :=
  match goal with |- context [matchBorder_ ?el ?an ?op (mkState ?a ?b ?c ?d ?e)] =>
    let cl := fresh "cl" in let st := fresh "st" in let tm := fresh "tm" in
    let evs := fresh "evs" in let Heq := fresh "Heq" in let Hev := fresh "Hev" in
    destruct (matchBorder_eq el an op (mkState a b c d e))
      as (cl & st & tm & evs & Heq & Hev);
    rewrite Heq; clear Heq; projs
  end.

(** Closing tactics for the facts about a log given as an explicit list. *)
Ltac find_elem :=
  first [ apply elem_of_cons; left; reflexivity
        | apply elem_of_cons; right; find_elem
        | apply elem_of_app; right; find_elem ].

Ltac all_events :=
  repeat first
    [ apply Forall_nil_2
    | apply Forall_cons; split; [exact I|]
    | apply Forall_app; split
    | assumption
    | match goal with H : Forall _ ?l |- Forall _ ?l =>
        eapply Forall_impl; [exact H|by intros []] end ].

Ltac norm_log :=
  repeat (progress (rewrite <- ?app_assoc; cbn [app])).

Ltac norm_log_in H :=
  repeat (progress (rewrite <- ?app_assoc in H; cbn [app] in H)).

Ltac listener_chain H :=
  repeat first
    [ exact H
    | match goal with Hls : ∀ l, l ∈ _ → l ∈ _ |- _ => apply Hls in H; clear Hls end
    | apply list_elem_of_filter in H as [_ H]
    | match goal with Heq : ?ls = filter _ _ |- _ => subst ls end ].

Lemma filter_ne_absent {A} `{EqDecision A} (x : A) (l : list A) :
  x ∉ l → filter (λ y, y ≠ x) l = l.
Proof.
  induction l as [|y l IH]; [done|]. intros Hx.
  rewrite filter_cons_True.
  - rewrite IH; [done|]. intros ?. apply Hx. by right.
  - intros ->. apply Hx. by left.
Qed.

(** The statements of hideDialog before the loop. *)
Lemma closeDialog_eq a s :
  ∃ ch' cl' st' ls' tm' rest,
    closeDialog a s =
      mkState (mkDoc ch' cl' (tags (doc s)) st' ls' (nextKey (doc s)))
        (mkVars false (dialogOrigin_ (vars s)) None None None None
                (dialogStartX_ (vars s)) (dialogStartY_ (vars s)))
        (host s) tm'
        (log s ++ ESetVisible false
               :: (ECall <$> option_list (dialogDispose_ (vars s)))
               ++ ESetDispose None :: rest)
    ∧ Forall noCall rest
    ∧ EStyle dialog "visibility" (Lit "hidden") ∈ rest
    ∧ (a = false →
       ∃ p, rest = hiddenAtOnce ++ p ∧ Forall moving p ∧ tm' = timers s)
    ∧ (∀ n, default [] (ch' !! n) = filter (λ x, x ≠ header) (kids s n))
    ∧ (∀ l, l ∈ ls' → l ∈ listeners (doc s)).
Proof.
  unfold closeDialog.
  destruct s as [[ch cl tg st ls nk] [vis og dp wd wu wm sx sy] ap tm lg].
  projs. step. use_unbind. step.
  destruct wd as [w|]; repeat step.
  all: destruct dp as [f|]; cbv beta iota; [use_call|]; step; step.
  all: destruct a, og as [o|]; projs; step.
  all: try (step; use_matchBorder; step; use_matchBorder; step).
  all: repeat step.
  all: cbv beta; unfold getElementById;
    match goal with |- context [hasParent ?E ?h] =>
      destruct (hasParent E h) eqn:Hhp end; try last_step.
  all: unfold kids; projs.
  all: eexists _, _, _, _, _, _.
  all: split; [cbn [fmap list_fmap option_list]; norm_log; reflexivity|].
  all: split; [all_events|].
  all: split; [find_elem|].
  all: split;
    [intros Ha; first
       [ discriminate Ha
       | eexists; split; [unfold hiddenAtOnce; cbn [app]; reflexivity|];
         split; [by repeat constructor|reflexivity] ]|].
  all: split.
  all: lazymatch goal with
    | |- ∀ n, _ = _ =>
        intros n; first
          [ apply kids_detach
          | symmetry; apply filter_ne_absent;
            exact (hasParent_false _ _ Hhp n) ]
    | |- ∀ l, l ∈ _ → l ∈ _ => intros l Hl; listener_chain Hl
    end.
Qed.

Lemma hideDialog_visible a s :
  isDialogVisible_ (vars s) = true →
  ∃ ch' cl' st' ls' tm' rest,
    after (hideDialog a s) =
      mkState (mkDoc ch' cl' (tags (doc s)) st' ls' (nextKey (doc s)))
        (mkVars false (dialogOrigin_ (vars s)) None None None None
                (dialogStartX_ (vars s)) (dialogStartY_ (vars s)))
        (host s) tm'
        (log s ++ ESetVisible false
               :: (ECall <$> option_list (dialogDispose_ (vars s)))
               ++ ESetDispose None :: rest)
    ∧ Forall noCall rest
    ∧ EStyle dialog "visibility" (Lit "hidden") ∈ rest
    ∧ (a = false →
       ∃ p, rest = hiddenAtOnce ++ p ∧ Forall moving p ∧ tm' = timers s)
    ∧ (∀ p, header ∉ default [] (ch' !! p))
    ∧ (∀ l, l ∈ ls' → l ∈ listeners (doc s))
    ∧ match hideDialog a s with
      | Ok _ =>
          default [] (ch' !! dialog) = []
          ∧ (∀ x, x ∈ kids s dialog → x ≠ header →
               x ∈ default [] (ch' !! Body)
               ∧ hiddenContent ∈ default [] (cl' !! x))
      | Throw e s' =>
          e = HierarchyRequestError
          ∧ ∃ x, firstChild s' dialog = Some x ∧ refuses s' Body x = true
      end.
Proof.
  intros Hvis.
  unfold hideDialog. rewrite Hvis. cbn [negb]. rewrite tryThen_lift.
  destruct (closeDialog_eq a s)
    as (ch0 & cl0 & st0 & ls0 & tm0 & rest0 & Heq0 & Hnc0 & Hin0 & Ha0
        & Hch0 & Hls0).
  rewrite Heq0.
  match goal with |- context [moveChildren (length (kids ?E dialog)) ?E] =>
    destruct (moveChildren_spec (length (kids E dialog)) E (le_n _))
      as (ch' & cl' & evs' & Heq & Hev' & Hcls & Hsrc & Hres);
    rewrite Heq;
    unfold kids, classList in Hcls, Hsrc; projs_in Hcls; projs_in Hsrc;
    destruct (moveChildren (length (kids E dialog)) E) as [s1|e s1];
    cbn [after] in Heq
  end.
  all: unfold kids in Hres; projs_in Hres.
  all: exists ch', cl', st0, ls0, tm0, (rest0 ++ evs').
  all: split; [projs; norm_log; reflexivity|].
  all: split;
    [apply Forall_app; split; [exact Hnc0|];
     eapply Forall_impl; [exact Hev'|];
     intros ev Hm; by apply presentational_noCall, moving_presentational|].
  all: split; [apply elem_of_app; by left|].
  all: split;
    [intros Ha; destruct (Ha0 Ha) as (p & -> & Hp & Htm);
     exists (p ++ evs'); split; [by rewrite <- app_assoc|];
     split; [by apply Forall_app|exact Htm]|].
  all: split;
    [intros p Hin; destruct (Hsrc p _ Hin) as [q Hq];
     rewrite Hch0 in Hq; apply list_elem_of_filter in Hq as [Hq _];
     by apply Hq|].
  all: split; [exact Hls0|].
  - destruct Hres as (Hdlg & Hmoved & _). split; [exact Hdlg|].
    intros x Hx Hne. apply Hmoved. rewrite Hch0.
    apply list_elem_of_filter. by split.
  - exact Hres.
Qed.

Lemma uncalled_calls l : Forall uncalled l → calls l = [].
Proof.
  induction 1 as [|e l He _ IH]; [done|].
  destruct e; try done; exact IH.
Qed.

Lemma quiet_calls l : Forall quiet l → calls l = [].
Proof. intros H. apply uncalled_calls. eapply Forall_impl; [exact H|by intros []]. Qed.

Lemma quiet_timeouts l : Forall quiet l → timeouts l = [].
Proof.
  induction 1 as [|e l He _ IH]; [done|].
  destruct e; try done; exact IH.
Qed.

Lemma applyStyles_eq (style : list (string * cssval)) s :
  ∃ st',
    copyStyles dialog style s =
      mkState (mkDoc (children (doc s)) (classes (doc s)) (tags (doc s)) st'
                     (listeners (doc s)) (nextKey (doc s)))
              (vars s) (host s) (timers s)
              (log s ++ ((λ '(name, v), EStyle dialog name v) <$> style)).
Proof.
  unfold copyStyles.
  revert s. induction style as [|[name v] style IH]; intros s.
  - destruct s as [[ch cl tg st ls nk] vs ap tm lg].
    exists st. simpl. by rewrite app_nil_r.
  - simpl. destruct (IH (setStyle dialog name v s)) as (st' & Heq).
    exists st'. rewrite Heq. cbn. by rewrite <- app_assoc.
Qed.

Lemma showEndResult_eq content s :
  ∃ st' evs,
    showEndResult content s =
      mkState (mkDoc (children (doc s)) (classes (doc s)) (tags (doc s)) st'
                     (listeners (doc s)) (nextKey (doc s)))
              (vars s) (host s) (timers s) (log s ++ evs)
    ∧ Forall presentational evs
    ∧ (isDialogVisible_ (vars s) = false → evs = []).
Proof.
  destruct s as [[ch cl tg st ls nk] [vis og dp wd wu wm sx sy] ap tm lg].
  unfold showEndResult. projs. destruct vis; cbn [negb].
  - repeat step. cbv beta zeta.
    match goal with |- context [match ?b with [] => _ | _ :: _ => _ end] =>
      destruct b end; eexists _, _; dlg_cbn;
      (split; [norm_log; reflexivity|]); (split; [all_events|done]).
  - exists st, []. rewrite app_nil_r. done.
Qed.

Ltac use_wire :=
  lazymatch goal with |- context [wireButtons ?n ?c ?E] =>
    let cl := fresh "cl" in let ls := fresh "ls" in
    let evs := fresh "wevs" in let Heq := fresh "Heq" in
    let Hev := fresh "Hwev" in let Hls := fresh "Hwls" in
    destruct (wireButtons_spec n c E) as (cl & ls & evs & Heq & Hev & Hls & _);
    rewrite Heq; clear Heq; projs_in Hls; projs
  end.

Ltac use_styles :=
  lazymatch goal with |- context [copyStyles dialog ?style (mkState ?a ?b ?c ?d ?e)] =>
    let st := fresh "st" in let Heq := fresh "Heq" in
    destruct (applyStyles_eq style (mkState a b c d e)) as (st & Heq);
    rewrite Heq; clear Heq; projs
  end.

Ltac use_showEnd :=
  lazymatch goal with |- context [showEndResult ?c ?E] =>
    let st := fresh "st" in let evs := fresh "eevs" in
    let Heq := fresh "Heq" in let Hev := fresh "Heev" in
    destruct (showEndResult_eq c E) as (st & evs & Heq & Hev & _);
    rewrite Heq; clear Heq; projs
  end.

Ltac eval_attach :=
  lazymatch goal with |- context [attach ?p ?x (mkState ?a ?b ?c ?d ?e)] =>
    let t' := eval_stmt (attach p x (mkState a b c d e)) in
    change (attach p x (mkState a b c d e)) with t'
  end.

Ltac eval_arg :=
  lazymatch goal with
  | |- context [tryThen ?f ?g (?h (mkState ?a ?b ?c ?d ?e))] =>
      let t' := eval_stmt (h (mkState a b c d e)) in
      change (h (mkState a b c d e)) with t'
  end.

Ltac try_ok H :=
  lazymatch goal with |- context [tryThen ?f ?g ?E] =>
    rewrite (tryThen_ok f g E _ H) end.

(** Membership in a list of children that is given by appends and
    filters. *)
Ltac in_kids :=
  repeat first
    [ rewrite elem_of_app | rewrite list_elem_of_filter
    | rewrite list_elem_of_singleton | rewrite elem_of_cons
    | rewrite elem_of_nil ];
  try discriminate;
  lazymatch goal with
  | |- context [header = ?c] =>
      destruct (decide (header = c)); try subst c; try tauto; try congruence
  | |- context [?c = header] =>
      destruct (decide (header = c)); try subst c; try tauto; try congruence
  | |- _ => first [tauto | congruence]
  end.

Ltac eval_bind :=
  cbv beta iota zeta delta
    [bind with_doc with_vars set_nextKey set_listeners
     set_dialogMouseDownWrapper_
     doc vars host timers log children classes tags styles listeners nextKey
     isDialogVisible_ dialogOrigin_ dialogDispose_ dialogMouseDownWrapper_
     dialogMouseUpWrapper_ dialogMouseMoveWrapper_ dialogStartX_
     dialogStartY_].

(** The header has just been created: the container accepts it. *)
Ltac accept_header :=
  lazymatch goal with
  | |- context [tryThen (appendChild dialog header) ?g ?E] =>
      let H := fresh "Hheader" in
      assert (H : appendChild dialog header E = Ok (attach dialog header E))
        by (apply appendChild_accept, childless_accepted;
            [done|done|projs; by rewrite lookup_delete_eq]);
      try_ok H; clear H; rewrite tryThen_lift; eval_attach; eval_bind
  end.

Ltac try_ok' H :=
  lazymatch goal with |- context [tryThen ?f ?g ?E] =>
    rewrite (tryThen_ok f g E _ H) end.

Ltac try_throw H :=
  lazymatch goal with |- context [tryThen ?f ?g ?E] =>
    rewrite (tryThen_throw f g E _ _ H) end.

(** What showDialog does after it has appended the content. *)
Lemma showTail_eq c o a s :
  ∃ cl' st' tm' post,
    (classListRemove c "dialogHiddenContent" >>
     match o with
     | Some o => emit (EBlur o)
     | None => skip
     end >>
     match a, o with
     | true, Some o =>
         matchBorder_ (Some o) false "0.2" >>
         matchBorder_ (Some dialog) true "0.8" >>
         setTimeout (ShowEndResult c) 175
     | _, _ => showEndResult c
     end) s =
      mkState (mkDoc (children (doc s)) cl' (tags (doc s)) st'
                     (listeners (doc s)) (nextKey (doc s)))
              (vars s) (host s) tm' (log s ++ post)
    ∧ Forall uncalled post.
Proof.
  destruct s as [[ch cl tg st ls nk] v ap tm lg]. projs.
  step. destruct o as [o'|], a; cbv beta iota; step.
  all: first [ step; use_matchBorder; step; use_matchBorder; last_step
             | use_showEnd ].
  all: eexists _, _, _, _; split; [norm_log; reflexivity|all_events].
Qed.

Ltac use_tail c o a :=
  lazymatch goal with |- context [andThen (classListRemove c _) _ ?E] =>
    let cl := fresh "clT" in let st := fresh "stT" in
    let tm := fresh "tmT" in let post := fresh "post" in
    let Heq := fresh "Heq" in let Hpost := fresh "Hpost" in
    destruct (showTail_eq c o a E) as (cl & st & tm & post & Heq & Hpost);
    rewrite Heq; clear Heq; projs
  end.

(** showDialog, once the content is known not to be null.  The log of the
    call reads: the wiring of the buttons ([p1]); if a dialog was visible,
    its forced hide, which ends with the removal of the header and the move
    of the children of the container ([p2]); the opening of the new dialog;
    the append of the content; the rest.  The call throws when an append is
    refused: that of the content, or one of the forced hide. *)
Lemma showContent_spec c o a m style d s :
  ∃ p1 p2,
    Forall wiring p1 ∧ Forall moving p2
    ∧ let before :=
        log s ++ p1 ++
          if isDialogVisible_ (vars s) then
            ESetVisible false
              :: (ECall <$> option_list (dialogDispose_ (vars s)))
              ++ ESetDispose None :: hiddenAtOnce ++ p2
          else [] in
      let opening := openingLog (mainWorkspace (host s)) m style d in
      match showContent c o a m style d s with
      | Ok s' =>
          ∃ post,
            log s' = before ++ opening ++ EAppend dialog c :: post
            ∧ Forall uncalled post
            ∧ isDialogVisible_ (vars s') = true
            ∧ dialogOrigin_ (vars s') = o
            ∧ dialogDispose_ (vars s') = d
            ∧ host s' = host s
            ∧ c ∈ kids s' dialog
            ∧ (m = true → header ∈ kids s' dialog)
            ∧ (isDialogVisible_ (vars s) = true →
               ∀ x, x ∈ kids s' dialog → x = c ∨ (m = true ∧ x = header))
      | Throw e s' =>
          e = HierarchyRequestError
          ∧ host s' = host s
          ∧ ((refuses s' dialog c = true
              ∧ log s' = before ++ opening
              ∧ isDialogVisible_ (vars s') = true
              ∧ dialogDispose_ (vars s') = d)
             ∨ (isDialogVisible_ (vars s) = true
                ∧ (∃ x, firstChild s' dialog = Some x
                        ∧ refuses s' Body x = true)
                ∧ log s' = before
                ∧ isDialogVisible_ (vars s') = false
                ∧ dialogDispose_ (vars s') = None))
      end.
Proof.
  destruct s as [[ch cl tg st ls nk] [vis og dp wd wu wm sx sy]
                 [L mw wdrag lc] tm lg].
  unfold showContent. projs. cbv zeta.
  rewrite tryThen_lift. cbv beta. use_wire.
  exists wevs.
  destruct vis.
  - lazymatch goal with |- context [tryThen ?f ?g ?E] =>
      destruct (hideDialog_visible false E eq_refl)
        as (chH & clH & stH & lsH & tmH & hrest & Heq & Hhnc & Hhin & Hhpres
            & Hhhdr & Hhls & Hres);
      destruct (Hhpres eq_refl) as (p2 & -> & Hp2 & ->); clear Hhpres;
      projs_in Heq;
      destruct (hideDialog false E) as [sH|eH sH] eqn:Hh;
      cbn [after] in Heq; subst sH
    end.
    2:{ try_throw Hh. exists p2. split; [assumption|]. split; [assumption|].
        destruct Hres as [-> Hx]. split; [reflexivity|].
        split; [reflexivity|]. right. projs.
        split; [reflexivity|]. split; [exact Hx|].
        split; [norm_log; reflexivity|]. split; reflexivity. }
    try_ok Hh. exists p2. split; [assumption|]. split; [assumption|].
    destruct Hres as [Hhdlg _].
    rewrite tryThen_lift.
    destruct mw; repeat step.
    all: cbv beta iota; use_styles.
    all: destruct m; [rewrite tryThen_assoc|]; rewrite tryThen_lift;
      repeat step; [eval_arg; rewrite tryThen_assoc|change (skip ?E) with E].
    all: try accept_header.
    all: lazymatch goal with |- context [tryThen (appendChild dialog ?x) ?g ?E] =>
           destruct (appendChild_cases dialog x E) as [[Hacc Happ]|[Href Happ]];
           [try_ok Happ|try_throw Happ]
         end.
    all: try (unfold lift; cbv beta iota; eval_attach; use_tail c o a;
              eexists; split; [unfold openingLog, hiddenAtOnce; norm_log; reflexivity|];
              split; [assumption|]; split; [reflexivity|]; split; [reflexivity|];
              split; [reflexivity|]; split; [reflexivity|];
              unfold kids; projs;
              repeat first
                [ rewrite lookup_insert_eq | rewrite kids_detach
                | rewrite lookup_delete_ne by done | rewrite Hhdlg
                | rewrite filter_nil | progress cbn [default from_option id app] ];
              split; [in_kids|]; split; [intros Hm; in_kids|];
              intros _ x; in_kids).
    all: split; [reflexivity|]; split; [reflexivity|]; left;
      split; [exact Href|];
      split; [projs; unfold openingLog, hiddenAtOnce; cbn [mainWorkspace];
              norm_log; rewrite ?app_nil_r; reflexivity|];
      split; reflexivity.
  - lazymatch goal with |- context [tryThen ?f ?g ?E] =>
      rewrite (tryThen_ok f g E E eq_refl) end.
    exists []. split; [assumption|]. split; [constructor|].
    rewrite tryThen_lift.
    destruct mw; repeat step.
    all: cbv beta iota; use_styles.
    all: destruct m; [rewrite tryThen_assoc|]; rewrite tryThen_lift;
      repeat step; [eval_arg; rewrite tryThen_assoc|change (skip ?E) with E].
    all: try accept_header.
    all: lazymatch goal with |- context [tryThen (appendChild dialog ?x) ?g ?E] =>
           destruct (appendChild_cases dialog x E) as [[Hacc Happ]|[Href Happ]];
           [try_ok Happ|try_throw Happ]
         end.
    all: try (unfold lift; cbv beta iota; eval_attach; use_tail c o a;
              eexists; split; [unfold openingLog; norm_log; reflexivity|];
              split; [assumption|]; split; [reflexivity|]; split; [reflexivity|];
              split; [reflexivity|]; split; [reflexivity|];
              unfold kids; projs;
              repeat first
                [ rewrite lookup_insert_eq | rewrite kids_detach
                | rewrite lookup_delete_ne by done
                | progress cbn [default from_option id app] ];
              split; [in_kids|]; split; [intros Hm; in_kids|];
              intros [=]).
    all: split; [reflexivity|]; split; [reflexivity|]; left;
      split; [exact Href|];
      split; [projs; unfold openingLog; cbn [mainWorkspace]; norm_log;
              rewrite ?app_nil_r; reflexivity|];
      split; reflexivity.
Qed.

(** A show that returns leaves its dialog visible, with the content in the
    container. *)
Lemma showContent_shown c o a m style d s s' :
  showContent c o a m style d s = Ok s' →
  isDialogVisible_ (vars s') = true
  ∧ dialogOrigin_ (vars s') = o
  ∧ dialogDispose_ (vars s') = d
  ∧ c ∈ kids s' dialog.
Proof.
  intros Hs'.
  destruct (showContent_spec c o a m style d s) as (p1 & p2 & _ & _ & H).
  cbv zeta in H. rewrite Hs' in H.
  destruct H as (post & _ & _ & Hv & Ho & Hd & _ & Hc & _). done.
Qed.

(** A show throws only when an append is refused: the content is the
    container or contains it, or a child of the container that the forced
    hide moves contains the body. *)
Lemma showContent_throws c o a m style d s e s' :
  showContent c o a m style d s = Throw e s' →
  e = HierarchyRequestError
  ∧ (refuses s' dialog c = true
     ∨ ∃ x, firstChild s' dialog = Some x ∧ refuses s' Body x = true).
Proof.
  intros Hs'.
  destruct (showContent_spec c o a m style d s) as (p1 & p2 & _ & _ & H).
  cbv zeta in H. rewrite Hs' in H.
  destruct H as (-> & _ & [(Href & _)|(_ & Hx & _)]); auto.
Qed.

(** *** Dragging *)

Lemma foldl_foreign e F s :
  Forall foreign F →
  foldl (λ s l, if bool_decide (l ∈ listeners (doc s))
                then after (runHandler (l_handler l) e s) else s) s F = s.
Proof.
  intros HF. revert s. induction HF as [|l F Hl _ IH]; intros s; [done|].
  simpl.
  assert (Hskip : (if bool_decide (l ∈ listeners (doc s))
                   then after (runHandler (l_handler l) e s) else s) = s).
  { unfold foreign in Hl. destruct (l_handler l); try done.
    by case_bool_decide. }
  rewrite Hskip. apply IH.
Qed.

Lemma dispatch_dragging X Y e s :
  dragging X Y s → dispatch Document "mousemove" e s = dialogMouseMove_ e s.
Proof.
  intros (_ & _ & k & F & Hf & HF). unfold dispatch. rewrite Hf, foldl_app.
  rewrite (foldl_foreign e F s) by done. cbn [foldl].
  rewrite bool_decide_eq_true_2; [reflexivity|].
  assert (H : moveListener k ∈ F ++ [moveListener k])
    by (apply elem_of_app; right; by apply list_elem_of_singleton).
  rewrite <- Hf in H. by apply list_elem_of_filter in H as [_ H].
Qed.

Lemma dialogMouseMove_dragging X Y e s :
  dragging X Y s → dragging X Y (dialogMouseMove_ e s).
Proof. intros H. exact H. Qed.

Lemma dragStep_dragging X Y st s :
  dragging X Y s → dragging X Y (dragStep st s).
Proof.
  intros H. destruct st as [e|L]; simpl.
  - rewrite (dispatch_dragging X Y) by done. by apply dialogMouseMove_dragging.
  - exact H.
Qed.

Lemma dialogMouseMove_style e s :
  let L := layout (host s) in
  let s' := dialogMouseMove_ e s in
  style s' dialog "left" =
    Some (Px (clamp (dialogStartX_ (vars s) + clientX e) 0
                    (innerWidth L - offsetWidth L dialog)))
  ∧ style s' dialog "top" =
    Some (Px (clamp (dialogStartY_ (vars s) + clientY e) 0
                    (innerHeight L - offsetHeight L dialog))).
Proof.
  unfold dialogMouseMove_, style, clamp. cbn.
  split.
  - rewrite lookup_insert_ne by done. by rewrite lookup_insert_eq.
  - by rewrite lookup_insert_eq.
Qed.

Lemma unbind_leaves_foreign s :
  dragTracked s →
  let s' := dialogUnbindDragEvents_ s in
  dialogMouseUpWrapper_ (vars s') = None
  ∧ dialogMouseMoveWrapper_ (vars s') = None
  ∧ (∀ l, l ∈ listeners (doc s') →
       l_type l = "mousemove" ∨ l_type l = "mouseup" → foreign l)
  ∧ (∀ l, l ∈ listeners (doc s') → l ∈ listeners (doc s))
  ∧ doc s' = set_listeners (listeners (doc s')) (doc s)
  ∧ host s' = host s ∧ timers s' = timers s ∧ log s' = log s
  ∧ dialogStartX_ (vars s') = dialogStartX_ (vars s)
  ∧ dialogStartY_ (vars s') = dialogStartY_ (vars s)
  ∧ isDialogVisible_ (vars s') = isDialogVisible_ (vars s).
Proof.
  intros Htr s'. subst s'.
  destruct (dialogUnbindDragEvents_eq s) as (ls' & -> & Hls). projs.
  repeat split; try done.
  - intros l Hl Hty. subst ls'. apply list_elem_of_filter in Hl as [Hkey Hl].
    unfold dragTracked in Htr. rewrite Forall_forall in Htr.
    destruct (Htr l Hl) as [Hmove Hup].
    destruct Hty as [Hty|Hty].
    + destruct (Hmove Hty) as [?|(k & Hk & ->)]; [done|].
      exfalso. apply Hkey. split; [by eexists|]. right. by rewrite Hk.
    + destruct (Hup Hty) as [?|(k & Hk & ->)]; [done|].
      exfalso. apply Hkey. split; [by eexists|]. left. by rewrite Hk.
  - intros l Hl. subst ls'. by apply list_elem_of_filter in Hl as [_ Hl].
Qed.

Lemma dialogMouseDown_right e s :
  rightButton e = true → dialogMouseDown_ e s = dialogUnbindDragEvents_ s.
Proof. intros H. unfold dialogMouseDown_, andThen. by rewrite H. Qed.

Lemma dialogMouseDown_left e s :
  dragTracked s → rightButton e = false →
  let L := layout (host s) in
  dragging (offsetLeft L dialog - clientX e) (offsetTop L dialog - clientY e)
           (dialogMouseDown_ e s)
  ∧ host (dialogMouseDown_ e s) = host s.
Proof.
  intros Htr Hbtn L.
  destruct (unbind_leaves_foreign s Htr)
    as (_ & _ & Hfor & _ & Hdoc & Hhost & _ & _ & _ & _ & _).
  unfold dialogMouseDown_, andThen. rewrite Hbtn. subst L. rewrite <- Hhost.
  destruct (dialogUnbindDragEvents_ s)
    as [[ch cl tg st ls nk] [vis og dp wd wu wm sx sy] [L mw wdrag lc] tm lg].
  projs_in Hfor. clear Hhost Hdoc. unfold dragging. dlg_cbn.
  split; [|done]. split; [done|]. split; [done|].
  exists (S nk),
    (filter (λ l, l_target l = Document ∧ l_type l = "mousemove") ls).
  split.
  - rewrite !filter_app. rewrite filter_cons_False, filter_nil, app_nil_r.
    + by rewrite filter_cons_True, filter_nil.
    + cbn. intros [_ [=]].
  - apply Forall_forall. intros l [[_ Hty] Hl]%list_elem_of_filter.
    apply Hfor; auto.
Qed.

Lemma dragTracked_initial : dragTracked initialState.
Proof. constructor. Qed.

Lemma dialogMouseDown_tracked e s :
  dragTracked s → dragTracked (dialogMouseDown_ e s).
Proof.
  intros Htr.
  destruct (unbind_leaves_foreign s Htr)
    as (Hup & Hmove & Hfor & _ & _ & _ & _ & _ & _ & _ & _).
  unfold dialogMouseDown_, andThen.
  destruct (dialogUnbindDragEvents_ s)
    as [[ch cl tg st ls nk] [vis og dp wd wu wm sx sy] [L mw wdrag lc] tm lg].
  projs_in Hup. projs_in Hmove. projs_in Hfor. subst wu wm.
  assert (Hls : ∀ v, Forall (tracked v) ls).
  { intros v. apply Forall_forall. intros l Hl.
    split; intros Hty; left; apply Hfor; auto. }
  destruct (rightButton e); unfold dragTracked; dlg_cbn; [apply Hls|].
  rewrite !Forall_app. split; [split; [apply Hls|]|].
  - apply Forall_singleton. split; [intros [=]|]. intros _. right. by exists nk.
  - apply Forall_singleton. split; [|intros [=]]. intros _. right. by exists (S nk).
Qed.

Lemma dialogMouseMove_tracked e s :
  dragTracked s → dragTracked (dialogMouseMove_ e s).
Proof. intros H. exact H. Qed.

Lemma foldl_dragStep_dragging X Y steps s :
  dragging X Y s → dragging X Y (foldl (λ s st, dragStep st s) s steps).
Proof.
  revert s. induction steps as [|st steps IH]; intros s H; [done|].
  simpl. apply IH. by apply dragStep_dragging.
Qed.

(** C5: a drag starts with a press of a button other than the right one at
    client position [(clientX e0, clientY e0)], the dialog being at offset
    [(sx, sy)].  After any number of mouse moves and changes of the layout,
    a mouse move to [(clientX e, clientY e)] sets the left of the dialog to
    [sx - clientX e0 + clientX e], raised to 0 if it is less and then lowered
    to the width of the window less the width of the dialog if it is more;
    and its top likewise, with the heights.  The widths and heights are
    those of the layout at the time of the move. *)
Theorem drag_follows_pointer s e0 steps e :
  dragTracked s → rightButton e0 = false →
  let sx := offsetLeft (layout (host s)) dialog in
  let sy := offsetTop (layout (host s)) dialog in
  let s2 := foldl (λ s st, dragStep st s) (dialogMouseDown_ e0 s) steps in
  let L := layout (host s2) in
  let s3 := dispatch Document "mousemove" e s2 in
  style s3 dialog "left" =
    Some (Px (clamp (sx - clientX e0 + clientX e) 0
                    (innerWidth L - offsetWidth L dialog)))
  ∧ style s3 dialog "top" =
    Some (Px (clamp (sy - clientY e0 + clientY e) 0
                    (innerHeight L - offsetHeight L dialog))).
Proof.
  intros Htr Hbtn sx sy s2 L s3.
  destruct (dialogMouseDown_left e0 s Htr Hbtn) as [Hdrag _].
  cbv zeta in Hdrag. fold sx sy in Hdrag.
  apply (foldl_dragStep_dragging _ _ steps) in Hdrag. fold s2 in Hdrag.
  unfold s3. rewrite (dispatch_dragging _ _ e s2 Hdrag).
  destruct Hdrag as (HX & HY & _).
  pose proof (dialogMouseMove_style e s2) as Hst. cbv zeta in Hst.
  rewrite HX, HY in Hst. exact Hst.
Qed.

Lemma dispatch_foreign target type e s :
  (∀ l, l ∈ listeners (doc s) → l_type l = type → foreign l) →
  dispatch target type e s = s.
Proof.
  intros H. unfold dispatch. apply foldl_foreign.
  apply Forall_forall. intros l [[_ Hty] Hl]%list_elem_of_filter. auto.
Qed.

(** C6: a press of the right button on the header starts no drag.  After
    it the two drag variables are null and the only listeners for mouse
    moves and button releases that are left are those of other modules, a
    drag that was in progress having been unbound; and any sequence of mouse
    moves on the document leaves the state, and with it the position of the
    dialog, as it was. *)
Theorem right_button_starts_no_drag s e moves :
  dragTracked s → rightButton e = true →
  let s' := dialogMouseDown_ e s in
  let s'' := foldl (λ s e', dispatch Document "mousemove" e' s) s' moves in
  dialogMouseUpWrapper_ (vars s') = None
  ∧ dialogMouseMoveWrapper_ (vars s') = None
  ∧ (∀ l, l ∈ listeners (doc s') →
       l_type l = "mousemove" ∨ l_type l = "mouseup" → foreign l)
  ∧ s'' = s'
  ∧ style s'' dialog "left" = style s dialog "left"
  ∧ style s'' dialog "top" = style s dialog "top".
Proof.
  intros Htr Hbtn s' s''.
  destruct (unbind_leaves_foreign s Htr)
    as (Hup & Hmove & Hfor & _ & Hdoc & _).
  assert (Hs' : s' = dialogUnbindDragEvents_ s)
    by (by apply dialogMouseDown_right).
  rewrite <- Hs' in *.
  assert (Hfix : s'' = s').
  { unfold s''. clear s''. induction moves as [|e' moves IH]; [done|].
    simpl. rewrite dispatch_foreign; [exact IH|]. intros l Hl Hty.
    apply Hfor; auto. }
  repeat split; try done.
  all: rewrite Hfix; unfold style; by rewrite Hdoc.
Qed.

(** *** showDialog *)

Lemma showDialog_content c o a m style d s :
  showDialog (Some c) o a m style d s = showContent c o a m style d s.
Proof. reflexivity. Qed.

(** C2: showDialog throws a TypeError whenever its content is null, and it
    throws before it has done anything: the state it leaves is the state it
    was called in, with no listener wired, no style set and no element
    created or moved. *)
Theorem showDialog_null_content o a m style d s :
  showDialog None o a m style d s =
    Throw (TypeError "Content not found: null") s.
Proof. reflexivity. Qed.

(** The first testable property of the specification: after a show that
    returns the manager reports a visible dialog and the content is in the
    container. *)
Lemma showDialog_shows c o a m style d s s' :
  showDialog (Some c) o a m style d s = Ok s' →
  isDialogVisible_ (vars s') = true
  ∧ dialogOrigin_ (vars s') = o
  ∧ dialogDispose_ (vars s') = d
  ∧ c ∈ kids s' dialog.
Proof. apply showContent_shown. Qed.

(** A show with a content throws only a HierarchyRequestError, and only when
    an append is refused: that of the content, which is the container or
    contains it, or, in the forced hide, that of a child of the container
    which contains the body. *)
Lemma showDialog_throws c o a m style d s e s' :
  showDialog (Some c) o a m style d s = Throw e s' →
  e = HierarchyRequestError
  ∧ (refuses s' dialog c = true
     ∨ ∃ x, firstChild s' dialog = Some x ∧ refuses s' Body x = true).
Proof. apply showContent_throws. Qed.

(** The state a show that throws leaves: at the append of the content the
    new dialog is flagged visible with its dispose function; in the forced
    hide no dialog is visible and the dispose function is cleared. *)
Lemma showDialog_thrown c o a m style d s e s' :
  showDialog (Some c) o a m style d s = Throw e s' →
  e = HierarchyRequestError
  ∧ ((refuses s' dialog c = true
      ∧ isDialogVisible_ (vars s') = true
      ∧ dialogDispose_ (vars s') = d)
     ∨ ((∃ x, firstChild s' dialog = Some x ∧ refuses s' Body x = true)
        ∧ isDialogVisible_ (vars s') = false
        ∧ dialogDispose_ (vars s') = None)).
Proof.
  rewrite showDialog_content. intros Hs'.
  destruct (showContent_spec c o a m style d s) as (p1 & p2 & _ & _ & H).
  cbv zeta in H. rewrite Hs' in H.
  destruct H as (-> & _ & [(Href & _ & Hv & Hd)|(_ & Hx & _ & Hv & Hd)]);
    (split; [reflexivity|]); [left|right]; by repeat split.
Qed.

Lemma openingLog_quiet chaff m style d :
  Forall quiet (openingLog chaff m style d).
Proof.
  unfold openingLog. repeat apply Forall_app_2.
  - by destruct chaff; repeat constructor.
  - by repeat constructor.
  - apply Forall_fmap, Forall_true. by intros [name v].
  - by destruct m; repeat constructor.
Qed.

Lemma hiddenAtOnce_quiet : Forall quiet hiddenAtOnce.
Proof. by repeat constructor. Qed.

Lemma moving_quiet l : Forall moving l → Forall quiet l.
Proof. intros H. eapply Forall_impl; [exact H|]. by intros []. Qed.

Lemma wiring_quiet l : Forall wiring l → Forall quiet l.
Proof. intros H. eapply Forall_impl; [exact H|]. by intros []. Qed.

(** C1: when showDialog is called with a content that is not null while a
    dialog is visible, the log of the call reads: the wiring of the buttons
    ([p1]); then the forced hide, which clears the visibility flag, calls the
    previous dialog's dispose function if there is one, clears it, hides the
    backdrop, the border and the container at once and moves the container's
    children to the body ([p2]); then the opening of the new dialog; only
    then the append of the new content.  The forced hide calls the previous
    dispose function once and defers nothing, and no callback is called
    anywhere else.  Afterwards the container holds the new content and, for
    a modal dialog, the header, and nothing else.  The call throws when an
    append is refused; then too the previous dialog has been hidden and its
    dispose function called once. *)
Theorem showDialog_replaces_visible_dialog s c o a m style d :
  isDialogVisible_ (vars s) = true →
  ∃ p1 p2,
    Forall wiring p1 ∧ Forall moving p2
    ∧ let hide :=
        ESetVisible false
          :: (ECall <$> option_list (dialogDispose_ (vars s)))
          ++ ESetDispose None :: hiddenAtOnce ++ p2 in
      let opening := openingLog (mainWorkspace (host s)) m style d in
      calls hide = option_list (dialogDispose_ (vars s))
      ∧ timeouts hide = []
      ∧ match showDialog (Some c) o a m style d s with
        | Ok s' =>
            ∃ post,
              log s' = log s ++ p1 ++ hide ++ opening ++ EAppend dialog c :: post
              ∧ calls post = []
              ∧ calls (drop (length (log s)) (log s')) =
                  option_list (dialogDispose_ (vars s))
              ∧ isDialogVisible_ (vars s') = true
              ∧ dialogDispose_ (vars s') = d
              ∧ c ∈ kids s' dialog
              ∧ (∀ x, x ∈ kids s' dialog → x = c ∨ (m = true ∧ x = header))
        | Throw e s' =>
            e = HierarchyRequestError
            ∧ calls (drop (length (log s)) (log s')) =
                option_list (dialogDispose_ (vars s))
            ∧ ((refuses s' dialog c = true
                ∧ log s' = log s ++ p1 ++ hide ++ opening)
               ∨ ((∃ x, firstChild s' dialog = Some x
                        ∧ refuses s' Body x = true)
                  ∧ log s' = log s ++ p1 ++ hide))
        end.
Proof.
  intros Hvis.
  destruct (showContent_spec c o a m style d s) as (p1 & p2 & Hp1 & Hp2 & H).
  rewrite Hvis in H. cbv zeta in H.
  exists p1, p2. split; [exact Hp1|]. split; [exact Hp2|]. cbv zeta.
  rewrite showDialog_content.
  pose proof (quiet_calls _ (wiring_quiet _ Hp1)) as Hc1.
  pose proof (quiet_calls _ (moving_quiet _ Hp2)) as Hc2.
  pose proof (quiet_calls _ (openingLog_quiet (mainWorkspace (host s)) m style d))
    as Hc3.
  assert (Hhide : calls (ESetVisible false
            :: (ECall <$> option_list (dialogDispose_ (vars s)))
            ++ ESetDispose None :: hiddenAtOnce ++ p2)
          = option_list (dialogDispose_ (vars s))).
  { change (calls (ESetVisible false :: ?l)) with (calls l).
    rewrite calls_app.
    change (calls (ESetDispose None :: ?l)) with (calls l).
    rewrite calls_app, Hc2, (quiet_calls _ hiddenAtOnce_quiet).
    by destruct (dialogDispose_ (vars s)). }
  split; [exact Hhide|].
  split.
  { change (timeouts (ESetVisible false :: ?l)) with (timeouts l).
    rewrite timeouts_app.
    change (timeouts (ESetDispose None :: ?l)) with (timeouts l).
    rewrite timeouts_app, (quiet_timeouts _ (moving_quiet _ Hp2)),
      (quiet_timeouts _ hiddenAtOnce_quiet).
    by destruct (dialogDispose_ (vars s)). }
  destruct (showContent c o a m style d s) as [s'|e s'].
  - destruct H as (post & Hlog & Hpost & Hv & _ & Hd & _ & Hc & _ & Honly).
    pose proof (uncalled_calls _ Hpost) as Hc4.
    exists post. rewrite <- !app_assoc in Hlog.
    split; [exact Hlog|]. split; [exact Hc4|].
    split.
    { rewrite Hlog, drop_app_length, !calls_app, Hc1, Hhide, Hc3.
      change (calls (EAppend dialog c :: ?l)) with (calls l).
      by rewrite Hc4, !app_nil_r. }
    split; [exact Hv|]. split; [exact Hd|]. split; [exact Hc|].
    by apply Honly.
  - destruct H as (-> & _ & [(Href & Hlog & _)|(_ & Hx & Hlog & _)]).
    + rewrite <- !app_assoc in Hlog. split; [done|]. split.
      { rewrite Hlog, drop_app_length, !calls_app, Hc1, Hhide, Hc3.
        by rewrite !app_nil_r. }
      left. by split.
    + split; [done|]. split.
      { rewrite Hlog, drop_app_length, !calls_app, Hc1, Hhide. done. }
      right. by split.
Qed.

(** *** hideDialog *)

Lemma hideDialog_hidden a s :
  isDialogVisible_ (vars s) = false → hideDialog a s = Ok s.
Proof. intros H. unfold hideDialog. by rewrite H. Qed.

(** C3: hideDialog on a state without a visible dialog returns and leaves
    that state unchanged.  So after any showDialog with a content, whether it
    returned or threw, of two hideDialog calls in a row the first leaves no
    dialog visible and no dispose function, and the second returns and
    changes nothing.  When the show left a dialog visible (it returned, or
    it threw at the append of the content), the first hide clears the
    visibility flag, calls the dispose function that was passed (once, if
    there is one), clears it, and only later sets the container's visibility
    to hidden; it calls no other callback.  A show throws only when an
    append is refused, and when that was in its forced hide no dialog is
    visible and the first hide changes nothing either. *)
Theorem hideDialog_twice :
  (∀ a s, isDialogVisible_ (vars s) = false → hideDialog a s = Ok s)
  ∧ ∀ s c o an m style d a1 a2,
      let r := showDialog (Some c) o an m style d s in
      let s1 := after r in
      let s2 := after (hideDialog a1 s1) in
      (dialogDispose_ (vars s2) = None
       ∧ isDialogVisible_ (vars s2) = false
       ∧ hideDialog a2 s2 = Ok s2)
      ∧ (isDialogVisible_ (vars s1) = true →
         ∃ rest,
           log s2 =
             log s1 ++ ESetVisible false
               :: (ECall <$> option_list d) ++ ESetDispose None :: rest
           ∧ calls rest = []
           ∧ EStyle dialog "visibility" (Lit "hidden") ∈ rest
           ∧ calls (drop (length (log s1)) (log (after (hideDialog a2 s2))))
               = option_list d)
      ∧ match r with
        | Ok _ => isDialogVisible_ (vars s1) = true
        | Throw e _ =>
            e = HierarchyRequestError
            ∧ ((refuses s1 dialog c = true
                ∧ isDialogVisible_ (vars s1) = true)
               ∨ ((∃ x, firstChild s1 dialog = Some x
                        ∧ refuses s1 Body x = true)
                  ∧ isDialogVisible_ (vars s1) = false
                  ∧ hideDialog a1 s1 = Ok s1))
        end.
Proof.
  split; [exact hideDialog_hidden|].
  intros s c o an m style d a1 a2 r s1 s2.
  assert (Hstate :
    (isDialogVisible_ (vars s1) = true ∧ dialogDispose_ (vars s1) = d)
    ∨ (isDialogVisible_ (vars s1) = false ∧ dialogDispose_ (vars s1) = None)).
  { subst s1 r. destruct (showDialog (Some c) o an m style d s) as [t|e t] eqn:Hshow.
    - left. destruct (showDialog_shows c o an m style d s t Hshow)
        as (Hvis & _ & Hd & _). by split.
    - destruct (showDialog_thrown c o an m style d s e t Hshow)
        as (_ & [(_ & Hvis & Hd)|(_ & Hvis & Hd)]); [left|right]; by split. }
  assert (Hkind :
    match r with
    | Ok _ => isDialogVisible_ (vars s1) = true
    | Throw e _ =>
        e = HierarchyRequestError
        ∧ ((refuses s1 dialog c = true ∧ isDialogVisible_ (vars s1) = true)
           ∨ ((∃ x, firstChild s1 dialog = Some x ∧ refuses s1 Body x = true)
              ∧ isDialogVisible_ (vars s1) = false
              ∧ hideDialog a1 s1 = Ok s1))
    end).
  { subst s2 s1 r. destruct (showDialog (Some c) o an m style d s) as [t|e t] eqn:Hshow.
    - by destruct (showDialog_shows c o an m style d s t Hshow) as (Hvis & _).
    - destruct (showDialog_thrown c o an m style d s e t Hshow)
        as (-> & [(Href & Hvis & _)|(Hx & Hvis & _)]);
        (split; [reflexivity|]); [left|right]; cbn [after].
      + by split.
      + split; [exact Hx|]. split; [exact Hvis|]. by apply hideDialog_hidden. }
  destruct Hstate as [[Hvis Hd]|[Hvis Hd]].
  - destruct (hideDialog_visible a1 s1 Hvis)
      as (ch' & cl' & st' & ls' & tm' & rest & Heq & Hnc & Hin & _).
    fold s2 in Heq.
    assert (Hidem : hideDialog a2 s2 = Ok s2)
      by (apply hideDialog_hidden; by rewrite Heq).
    split; [by rewrite Heq|]. split; [|exact Hkind].
    intros _. exists rest.
    rewrite Hidem. cbn [after]. rewrite Heq, Hd. projs.
    pose proof (noCall_calls _ Hnc) as Hc.
    repeat split; try done.
    rewrite drop_app_length.
    change (calls (ESetVisible false :: ?l)) with (calls l).
    rewrite calls_app.
    change (calls (ESetDispose None :: ?l)) with (calls l).
    rewrite Hc. destruct d; reflexivity.
  - assert (Hs2 : s2 = s1)
      by (subst s2; by rewrite (hideDialog_hidden a1 s1 Hvis)).
    rewrite Hs2.
    split; [split; [exact Hd|]; split; [exact Hvis|by apply hideDialog_hidden]|].
    split; [intros Hv; congruence|exact Hkind].
Qed.


(** ** Deferred completions *)

(** The completion of a show looks at the visibility flag: once the dialog
    has been closed it does nothing. *)
Lemma showEndResult_closed c s :
  isDialogVisible_ (vars s) = false → showEndResult c s = s.
Proof. intros H. unfold showEndResult. by rewrite H. Qed.

(** The completion of a hide does not: in every state it hides the backdrop
    and the border. *)
Lemma hideEndResult_unguarded s :
  let s' := hideEndResult s in
  style s' shadow "visibility" = Some (Lit "hidden")
  ∧ style s' shadow "zIndex" = Some (Lit "-1")
  ∧ style s' border "visibility" = Some (Lit "hidden")
  ∧ vars s' = vars s
  ∧ log s' = log s ++ [EStyle shadow "zIndex" (Lit "-1");
                       EStyle shadow "visibility" (Lit "hidden");
                       EStyle border "visibility" (Lit "hidden")].
Proof.
  destruct s as [[ch cl tg st ls nk] v ap tm lg].
  cbv beta iota zeta delta [hideEndResult andThen setStyle emit with_doc
    set_styles doc vars host timers log children classes tags styles
    listeners nextKey style].
  rewrite <- !app_assoc. cbn [app].
  repeat split.
  - rewrite lookup_insert_ne by done. rewrite lookup_insert_eq. done.
  - rewrite lookup_insert_ne by done. rewrite lookup_insert_ne by done.
    rewrite lookup_insert_eq. done.
  - rewrite lookup_insert_eq. done.
Qed.

(** C4: the completion of an animated hide is run 175 ms later whatever has
    happened since.  When the help dialog is closed with the animation and
    another modal dialog is shown before the completion is due
    ([doneShown]), the completion still runs: the dialog stays visible and
    the backdrop behind it is hidden and sent to the back.  The completion of
    a show tests only the flag, not whose completion it is: expiring while a
    later dialog is opening ([doneOpening]), it makes the container visible
    before that dialog's animation has ended and focuses the button of the
    content that was replaced. *)
Theorem stale_hide_completion_hides_backdrop :
  (timers doneShown = [(HideEndResult, 175)]
   ∧ isDialogVisible_ (vars doneShown) = true
   ∧ kids doneShown dialog = [header; doneContent]
   ∧ style doneShown shadow "visibility" = Some (Lit "visible")
   ∧ style doneShown shadow "zIndex" = Some (Lit "9")
   ∧ isDialogVisible_ (vars doneAfterStaleCompletion) = true
   ∧ style doneAfterStaleCompletion dialog "visibility" = Some (Lit "visible")
   ∧ style doneAfterStaleCompletion shadow "visibility" = Some (Lit "hidden")
   ∧ style doneAfterStaleCompletion shadow "zIndex" = Some (Lit "-1")
   ∧ drop (length (log doneShown)) (log doneAfterStaleCompletion) =
       [EStyle shadow "zIndex" (Lit "-1");
        EStyle shadow "visibility" (Lit "hidden");
        EStyle border "visibility" (Lit "hidden")])
  ∧ (timers doneOpening !! 0 = Some (ShowEndResult helpContent, 175)
     ∧ kids doneOpening dialog = [header; doneContent]
     ∧ style doneOpening dialog "visibility" = Some (Lit "hidden")
     ∧ timers doneAfterStaleShow !! 1 = Some (ShowEndResult doneContent, 175)
     ∧ style doneAfterStaleShow dialog "visibility" = Some (Lit "visible")
     ∧ drop (length (log doneOpening)) (log doneAfterStaleShow) =
         [EStyle dialog "visibility" (Lit "visible");
          EStyle dialog "zIndex" (Lit "10");
          EStyle border "visibility" (Lit "hidden");
          EFocus (Named "helpOk")]).
Proof.
  split.
  - repeat split; vm_compute; reflexivity.
  - repeat split; vm_compute; reflexivity.
Qed.

(** ** The round trip of a modal dialog *)


(** ** abortOffer *)

(** C8: when the level is solved abortOffer returns at once and changes
    nothing.  When it is not, and a dialog is visible or the workspace is
    being dragged, abortOffer shows nothing: it hands itself to setTimeout
    with a delay of 15 * 1000 ms and leaves the document, the variables and the
    pending timers as they were. *)
Theorem abortOffer_blocked s :
  (levelComplete (host s) = true → abortOffer s = Ok s)
  ∧ (levelComplete (host s) = false →
     isDialogVisible_ (vars s) = true ∨ workspaceDragging (host s) = true →
     ∃ s',
       abortOffer s = Ok s'
       ∧ doc s' = doc s ∧ vars s' = vars s ∧ host s' = host s
       ∧ timers s' = timers s ++ [(AbortOfferTask, 15 * 1000)]
       ∧ log s' = log s ++ [ETimeout AbortOfferTask (15 * 1000)]
       ∧ ∀ t, runTask AbortOfferTask t = after (abortOffer t)).
Proof.
  split.
  - intros H. unfold abortOffer. by rewrite H.
  - intros Hlc Hblocked. unfold abortOffer. rewrite Hlc.
    assert (Hor : isDialogVisible_ (vars s) || workspaceDragging (host s) = true).
    { destruct Hblocked as [-> | ->]; [done|]. apply orb_true_r. }
    rewrite Hor. eexists. split; [reflexivity|].
    repeat split.
Qed.

(** ** The theorems on the demonstration page *)

Lemma showDialog_replaces_visible_dialog_witness :
  isDialogVisible_ (vars helpShown) = true
  ∧ ∃ s',
      showDialog (Some doneContent) None false false [] None helpShown = Ok s'
      ∧ calls (drop (length (log helpShown)) (log s')) = [ExternalCb 7]
      ∧ doneContent ∈ kids s' dialog.
Proof.
  assert (Hvis : isDialogVisible_ (vars helpShown) = true)
    by (vm_compute; reflexivity).
  split; [exact Hvis|].
  set (s' := after (showDialog (Some doneContent) None false false [] None
                               helpShown)).
  assert (Hs' : showDialog (Some doneContent) None false false [] None
                           helpShown = Ok s') by (vm_compute; reflexivity).
  destruct (showDialog_replaces_visible_dialog helpShown doneContent None
              false false [] None Hvis)
    as (p1 & p2 & _ & _ & _ & _ & H).
  rewrite Hs' in H.
  destruct H as (post & _ & _ & Hcalls & _ & _ & Hin & _).
  exists s'. split; [exact Hs'|]. split; [|exact Hin].
  rewrite Hcalls. vm_compute. reflexivity.
Defined.

Lemma hideDialog_twice_witness :
  isDialogVisible_ (vars demoPage) = false
  ∧ hideDialog true demoPage = Ok demoPage
  ∧ showDialog (Some helpContent) (Some helpButton) true true
               [("width", Lit "50%")] (Some (ExternalCb 7)) demoPage
      = Ok helpShown
  ∧ isDialogVisible_ (vars helpShown) = true
  ∧ calls (drop (length (log helpShown))
                (log (after (hideDialog true
                               (after (hideDialog true helpShown))))))
      = option_list (Some (ExternalCb 7))
  ∧ hideDialog true (after (hideDialog true helpShown))
      = Ok (after (hideDialog true helpShown)).
Proof.
  split; [reflexivity|].
  split; [apply (proj1 hideDialog_twice true demoPage); reflexivity|].
  assert (Hshow : showDialog (Some helpContent) (Some helpButton) true true
                    [("width", Lit "50%")] (Some (ExternalCb 7)) demoPage
                  = Ok helpShown) by (vm_compute; reflexivity).
  split; [exact Hshow|].
  pose proof (proj2 hideDialog_twice demoPage helpContent
                (Some helpButton) true true [("width", Lit "50%")]
                (Some (ExternalCb 7)) true true) as H.
  cbv zeta in H. rewrite Hshow in H. cbn [after] in H.
  destruct H as ((_ & _ & Hfix) & Hlog & Hvis).
  destruct (Hlog Hvis) as (rest & _ & _ & _ & Hcalls).
  split; [exact Hvis|]. split; [exact Hcalls|exact Hfix].
Defined.

Lemma drag_follows_pointer_witness :
  dragTracked demoPage ∧ rightButton leftPress = false
  ∧ let s3 :=
      dispatch Document "mousemove" moveTo80
        (foldl (λ s st, dragStep st s) (dialogMouseDown_ leftPress demoPage)
               [MouseMoved (mkEvent 900 (-20) 0 false); Relayout demoLayout]) in
    style s3 dialog "left" = Some (Px 130)
    ∧ style s3 dialog "top" = Some (Px 130).
Proof.
  split; [constructor|]. split; [reflexivity|].
  apply (drag_follows_pointer demoPage leftPress
           [MouseMoved (mkEvent 900 (-20) 0 false); Relayout demoLayout]
           moveTo80); [constructor|reflexivity].
Defined.

Lemma right_button_starts_no_drag_witness :
  dragTracked (dialogMouseDown_ leftPress demoPage)
  ∧ rightButton rightPress = true
  ∧ let s' := dialogMouseDown_ rightPress (dialogMouseDown_ leftPress demoPage) in
    dialogMouseMoveWrapper_ (vars s') = None
    ∧ foldl (λ s e', dispatch Document "mousemove" e' s) s' [moveTo80] = s'.
Proof.
  assert (Htr : dragTracked (dialogMouseDown_ leftPress demoPage)).
  { apply dialogMouseDown_tracked. constructor. }
  split; [exact Htr|]. split; [reflexivity|].
  destruct (right_button_starts_no_drag (dialogMouseDown_ leftPress demoPage)
              rightPress [moveTo80] Htr eq_refl)
    as (_ & Hmove & _ & Hfix & _).
  split; [exact Hmove|exact Hfix].
Defined.


Lemma abortOffer_blocked_witness :
  levelComplete (host solvedPage) = true
  ∧ abortOffer solvedPage = Ok solvedPage
  ∧ levelComplete (host helpShown) = false
  ∧ isDialogVisible_ (vars helpShown) = true
  ∧ ∃ s', abortOffer helpShown = Ok s'
          ∧ timers s' = timers helpShown ++ [(AbortOfferTask, 15 * 1000)].
Proof.
  split; [reflexivity|].
  split; [apply (proj1 (abortOffer_blocked solvedPage)); reflexivity|].
  split; [reflexivity|]. split; [vm_compute; reflexivity|].
  destruct (proj2 (abortOffer_blocked helpShown))
    as (s' & Hs' & _ & _ & _ & Htm & _);
    [reflexivity|left; vm_compute; reflexivity|].
  exists s'. split; [exact Hs'|exact Htm].
Defined.

(** *** The drag listeners stay tracked *)

Lemma tracked_vars v v' l :
  dialogMouseUpWrapper_ v' = dialogMouseUpWrapper_ v →
  dialogMouseMoveWrapper_ v' = dialogMouseMoveWrapper_ v →
  tracked v l → tracked v' l.
Proof. unfold tracked. by intros -> ->. Qed.

Lemma leavesDrag_keeps a : leavesDrag a → keepsTracked a.
Proof.
  intros Ha s Hs. destruct (Ha s) as (Hls & Hup & Hmove).
  unfold dragTracked. rewrite Hls.
  eapply Forall_impl; [exact Hs|]. intros l. by apply tracked_vars.
Qed.

Lemma keepsTracked_andThen a b :
  keepsTracked a → keepsTracked b → keepsTracked (a >> b).
Proof. intros Ha Hb s Hs. apply Hb, Ha, Hs. Qed.

Lemma keepsTracked_skip : keepsTracked skip.
Proof. by intros s. Qed.

Lemma keepsTracked_if (c : bool) a b :
  keepsTracked a → keepsTracked b → keepsTracked (if c then a else b).
Proof. by destruct c. Qed.

Lemma keepsTracked_apply a s : keepsTracked a → dragTracked s → dragTracked (a s).
Proof. intros Ha. apply Ha. Qed.

Ltac leaves := apply leavesDrag_keeps; intros [[? ? ? ? ? ?] [? ? ? ? ? ? ? ?] ? ? ?]; done.

Lemma emit_tracked e : keepsTracked (emit e).
Proof. leaves. Qed.
Lemma setStyle_tracked n p v : keepsTracked (setStyle n p v).
Proof. leaves. Qed.
Lemma setClassName_tracked n l : keepsTracked (setClassName n l).
Proof. leaves. Qed.
Lemma classListAdd_tracked n c : keepsTracked (classListAdd n c).
Proof. leaves. Qed.
Lemma classListRemove_tracked n c : keepsTracked (classListRemove n c).
Proof. leaves. Qed.
Lemma attach_tracked p c : keepsTracked (attach p c).
Proof. leaves. Qed.
Lemma removeFromParent_tracked c : keepsTracked (removeFromParent c).
Proof. leaves. Qed.
Lemma createElement_tracked t n : keepsTracked (createElement t n).
Proof. leaves. Qed.
Lemma setTimeout_tracked t ms : keepsTracked (setTimeout t ms).
Proof. leaves. Qed.
Lemma setVisible_tracked b : keepsTracked (setVisible b).
Proof. leaves. Qed.
Lemma setDispose_tracked d : keepsTracked (setDispose d).
Proof. leaves. Qed.
Lemma setOrigin_tracked o : keepsTracked (with_vars (set_dialogOrigin_ o)).
Proof. leaves. Qed.
Lemma setMouseDownWrapper_tracked w :
  keepsTracked (with_vars (set_dialogMouseDownWrapper_ w)).
Proof. leaves. Qed.

(** A statement that can throw keeps the drag listeners tracked when the
    state it leaves has them tracked, however it ends. *)
Lemma keepsTracked_tryThen (a b : Fallible) :
  keepsTracked (settle a) → keepsTracked (settle b) →
  keepsTracked (settle (a >>> b)).
Proof.
  intros Ha Hb s Hs.
  destruct (settle_tryThen a b s) as [(e & _ & ->)|[_ ->]]; [by apply Ha|].
  by apply Hb, Ha.
Qed.

Lemma keepsTracked_lift (a : Action) :
  keepsTracked a → keepsTracked (settle (lift a)).
Proof. intros Ha s Hs. by apply Ha. Qed.

Lemma appendChild_tracked p c : keepsTracked (settle (appendChild p c)).
Proof.
  intros s Hs. unfold settle.
  destruct (appendChild_cases p c s) as [[_ ->]|[_ ->]]; [|exact Hs].
  by apply attach_tracked.
Qed.

(** Listeners that are taken away leave the others tracked. *)
Lemma filter_tracked (P : Listener → Prop) `{∀ l, Decision (P l)} s :
  dragTracked s →
  dragTracked (with_doc (λ d, set_listeners (filter P (listeners d)) d) s).
Proof.
  intros Hs. unfold dragTracked in *. destruct s as [[? ? ? ? ls ?] ? ? ? ?].
  cbn in *. rewrite Forall_forall in Hs. apply Forall_forall.
  intros l [_ Hl]%list_elem_of_filter. by apply Hs.
Qed.

Lemma unbind_tracked k : keepsTracked (unbind k).
Proof. intros s Hs. by apply filter_tracked. Qed.

Lemma removeEventListener_tracked target type h capture :
  keepsTracked (removeEventListener target type h capture).
Proof. intros s Hs. by apply filter_tracked. Qed.

(** A listener that is added for another type of event, or for another
    module, is tracked. *)
Lemma addEventListener_tracked target type h capture :
  (type ≠ "mousemove" ∧ type ≠ "mouseup") ∨ (∃ n, h = ExternalH n) →
  keepsTracked (addEventListener target type h capture).
Proof.
  intros Hnew s Hs. unfold dragTracked in *.
  destruct s as [[? ? ? ? ls ?] ? ? ? ?]. cbn in *.
  case_bool_decide; [exact Hs|].
  apply Forall_app. split; [exact Hs|]. apply Forall_singleton.
  destruct Hnew as [[Hm Hu]|[n ->]].
  - split; intros Hty; cbn in Hty; by subst type.
  - split; intros _; by left.
Qed.

Lemma bindHeader_tracked :
  keepsTracked
    (λ s, let '(w, s) := bind header "mousedown" DialogMouseDownH s in
          with_vars (set_dialogMouseDownWrapper_ (Some w)) s).
Proof.
  intros s Hs. unfold dragTracked in *.
  destruct s as [[? ? ? ? ls ?] [? ? ? ? ? ? ? ?] ? ? ?]. cbn in *.
  apply Forall_app. split; [exact Hs|]. apply Forall_singleton.
  split; intros [=].
Qed.

Lemma dialogUnbindDragEvents_tracked : keepsTracked dialogUnbindDragEvents_.
Proof.
  intros s Hs.
  destruct (unbind_leaves_foreign s Hs) as (_ & _ & Hfor & _).
  apply Forall_forall. intros l Hl. split; intros Hty; left; apply Hfor; auto.
Qed.

(** Runs through a body that is a chain of statements, some of which look at
    the state. *)
Ltac tracked_step :=
  lazymatch goal with
  | |- keepsTracked (andThen _ _) => apply keepsTracked_andThen
  | |- keepsTracked skip => exact keepsTracked_skip
  | |- keepsTracked (emit _) => apply emit_tracked
  | |- keepsTracked (setStyle _ _ _) => apply setStyle_tracked
  | |- keepsTracked (setClassName _ _) => apply setClassName_tracked
  | |- keepsTracked (classListAdd _ _) => apply classListAdd_tracked
  | |- keepsTracked (classListRemove _ _) => apply classListRemove_tracked
  | |- keepsTracked (attach _ _) => apply attach_tracked
  | |- keepsTracked (settle (tryThen _ _)) => apply keepsTracked_tryThen
  | |- keepsTracked (settle (lift _)) => apply keepsTracked_lift
  | |- keepsTracked (settle (appendChild _ _)) => apply appendChild_tracked
  | |- keepsTracked (settle (if ?c then _ else _)) => destruct c
  | |- keepsTracked (removeFromParent _) => apply removeFromParent_tracked
  | |- keepsTracked (createElement _ _) => apply createElement_tracked
  | |- keepsTracked (setTimeout _ _) => apply setTimeout_tracked
  | |- keepsTracked (setVisible _) => apply setVisible_tracked
  | |- keepsTracked (setDispose _) => apply setDispose_tracked
  | |- keepsTracked (with_vars (set_dialogOrigin_ _)) => apply setOrigin_tracked
  | |- keepsTracked (with_vars (set_dialogMouseDownWrapper_ _)) =>
      apply setMouseDownWrapper_tracked
  | |- keepsTracked (unbind _) => apply unbind_tracked
  | |- keepsTracked (removeEventListener _ _ _ _) =>
      apply removeEventListener_tracked
  | |- keepsTracked dialogUnbindDragEvents_ =>
      exact dialogUnbindDragEvents_tracked
  | |- keepsTracked (if _ then _ else _) => apply keepsTracked_if
  | |- keepsTracked (match ?x with _ => _ end) => destruct x
  | |- keepsTracked (λ s, _) =>
      first [ exact bindHeader_tracked
            | let s := fresh "s" in let H := fresh "Hs" in
              intros s H; cbv beta zeta ]
  | |- dragTracked (match ?x with _ => _ end) => destruct x
  | |- dragTracked (?a ?s) =>
      first [ assumption | apply (keepsTracked_apply a s) ]
  | |- dragTracked _ => assumption
  | |- keepsTracked _ =>
      match goal with H : context [keepsTracked] |- _ => apply H end
  end.

Ltac tracked_chain := repeat tracked_step.

Lemma stopDialogKeyDown_tracked : keepsTracked stopDialogKeyDown.
Proof. apply removeEventListener_tracked. Qed.

Lemma startDialogKeyDown_tracked : keepsTracked startDialogKeyDown.
Proof. apply addEventListener_tracked. left. by split. Qed.

Lemma call_tracked cb : keepsTracked (call cb).
Proof.
  unfold call. apply keepsTracked_andThen; [apply emit_tracked|].
  destruct cb;
    [apply stopDialogKeyDown_tracked|apply removeEventListener_tracked
    |apply keepsTracked_skip].
Qed.

Lemma change_tracked bBox opacity : keepsTracked (change bBox opacity).
Proof. unfold change. tracked_chain. Qed.

Lemma matchBorder_tracked element animate opacity :
  keepsTracked (matchBorder_ element animate opacity).
Proof.
  intros s Hs. unfold matchBorder_. destruct element as [element|]; [|done].
  cbv zeta. pose proof change_tracked.
  destruct animate; (apply keepsTracked_apply; [|exact Hs]); tracked_chain.
Qed.

Lemma hideEndResult_tracked : keepsTracked hideEndResult.
Proof. unfold hideEndResult. tracked_chain. Qed.

Lemma moveChildren_tracked fuel : keepsTracked (settle (moveChildren fuel)).
Proof.
  induction fuel as [|fuel IH]; intros s Hs; [done|].
  unfold settle. simpl. destruct (firstChild s dialog) as [content|];
    [|exact Hs].
  lazymatch goal with |- dragTracked (after (?f s)) =>
    change (dragTracked (settle f s)) end.
  apply keepsTracked_apply; [|exact Hs]. tracked_chain.
Qed.

Lemma moveAll_tracked :
  keepsTracked (settle (λ s, moveChildren (length (kids s dialog)) s)).
Proof. intros s Hs. by apply moveChildren_tracked. Qed.

Lemma closeDialog_tracked a : keepsTracked (closeDialog a).
Proof.
  unfold closeDialog.
  pose proof call_tracked. pose proof matchBorder_tracked.
  pose proof hideEndResult_tracked.
  tracked_chain.
Qed.

Lemma wireButtons_tracked fuel content : keepsTracked (wireButtons fuel content).
Proof.
  induction fuel as [|fuel IH]; intros s Hs; [done|].
  simpl. destruct (getElementsByClassName s content "addHideHandler");
    [done|].
  apply keepsTracked_apply; [|exact Hs].
  apply keepsTracked_andThen; [apply addEventListener_tracked; left; by split|].
  apply keepsTracked_andThen; [apply addEventListener_tracked; left; by split|].
  apply keepsTracked_andThen; [apply classListRemove_tracked|apply IH].
Qed.

Lemma copyStyles_tracked element style : keepsTracked (copyStyles element style).
Proof.
  unfold copyStyles. intros s. revert s.
  induction style as [|[name v] style IH]; intros s Hs; [done|].
  simpl. apply IH. by apply setStyle_tracked.
Qed.

Lemma showEndResult_tracked content : keepsTracked (showEndResult content).
Proof.
  intros s Hs. unfold showEndResult. destruct (negb _); [exact Hs|].
  apply keepsTracked_apply; [|exact Hs]. tracked_chain.
Qed.

Lemma hideDialog_tracked a : keepsTracked (settle (hideDialog a)).
Proof.
  intros s Hs. unfold settle, hideDialog. destruct (negb _); [exact Hs|].
  lazymatch goal with |- dragTracked (after (?f s)) =>
    change (dragTracked (settle f s)) end.
  apply keepsTracked_apply; [|exact Hs].
  pose proof closeDialog_tracked. pose proof moveAll_tracked.
  tracked_chain.
Qed.

Lemma forcedHide_tracked :
  keepsTracked
    (settle (λ s, if isDialogVisible_ (vars s) then hideDialog false s
                  else Ok s)).
Proof.
  intros s Hs. unfold settle. destruct (isDialogVisible_ (vars s)); [|exact Hs].
  by apply hideDialog_tracked.
Qed.

Lemma showContent_tracked c o a m style d :
  keepsTracked (settle (showContent c o a m style d)).
Proof.
  unfold showContent.
  pose proof wireButtons_tracked. pose proof forcedHide_tracked.
  pose proof copyStyles_tracked. pose proof matchBorder_tracked.
  pose proof showEndResult_tracked.
  tracked_chain.
Qed.

Lemma showDialog_tracked c o a m style d :
  keepsTracked (λ s, after (showDialog c o a m style d s)).
Proof.
  intros s Hs. destruct c as [c|]; [|done]. by apply showContent_tracked.
Qed.

Lemma dialogKeyDown_tracked e : keepsTracked (settle (dialogKeyDown e)).
Proof.
  intros s Hs. unfold settle, dialogKeyDown.
  destruct (isDialogVisible_ (vars s)); [|exact Hs].
  destruct (isKey e _); [|exact Hs].
  lazymatch goal with |- dragTracked (after (?f s)) =>
    change (dragTracked (settle f s)) end.
  apply keepsTracked_apply; [|exact Hs].
  pose proof hideDialog_tracked. tracked_chain.
Qed.

Lemma abortKeyDown_tracked e : keepsTracked (settle (abortKeyDown_ e)).
Proof.
  unfold abortKeyDown_. pose proof dialogKeyDown_tracked. tracked_chain.
Qed.

Lemma abortOffer_tracked : keepsTracked (λ s, after (abortOffer s)).
Proof.
  intros s Hs. unfold abortOffer.
  destruct (levelComplete (host s)); [done|].
  destruct (_ || _); [by apply setTimeout_tracked|].
  cbv zeta. destruct (getElementById s "abortOk") as [ok|]; [|done].
  assert (Hnew : ∀ target type h,
            type ≠ "mousemove" ∧ type ≠ "mouseup" →
            keepsTracked (addEventListener target type h true)).
  { intros. apply addEventListener_tracked. by left. }
  match goal with |- context [showDialog ?cnt _ _ _ _ _ ?s'] =>
    assert (Hs' : dragTracked s') by (apply Hnew; [done|]; by apply Hnew);
    destruct cnt as [content|]; [|exact Hs'];
    cbn [showDialog];
    pose proof (showContent_tracked content None false true
                  [("width", Lit "40%"); ("left", Lit "30%");
                   ("top", Lit "3em")] (Some AbortDisposeCb) s' Hs') as Hsh;
    unfold settle in Hsh;
    destruct (showContent _ _ _ _ _ _ s') as [s2|err s2]; cbn [after] in *;
      [by apply Hnew|exact Hsh]
  end.
Qed.

Lemma runHandler_tracked h e : keepsTracked (settle (runHandler h e)).
Proof.
  destruct h; simpl.
  - apply hideDialog_tracked.
  - intros s. apply dialogMouseDown_tracked.
  - intros s. apply dialogMouseMove_tracked.
  - apply keepsTracked_lift, dialogUnbindDragEvents_tracked.
  - apply dialogKeyDown_tracked.
  - apply abortKeyDown_tracked.
  - apply keepsTracked_lift, emit_tracked.
  - apply keepsTracked_lift, keepsTracked_skip.
Qed.

Lemma dispatch_tracked target type e : keepsTracked (dispatch target type e).
Proof.
  intros s Hs. unfold dispatch.
  generalize (filter (λ l, l_target l = target ∧ l_type l = type)
                     (listeners (doc s))).
  intros ls. revert s Hs. induction ls as [|l ls IH]; intros s Hs; [done|].
  simpl. apply IH. case_bool_decide; [|done]. by apply runHandler_tracked.
Qed.

Lemma runTask_tracked t : keepsTracked (runTask t).
Proof.
  destruct t; simpl.
  - apply showEndResult_tracked.
  - apply hideEndResult_tracked.
  - apply change_tracked.
  - apply abortOffer_tracked.
Qed.

Lemma fireTimer_tracked i : keepsTracked (fireTimer i).
Proof.
  intros s Hs. unfold fireTimer. destruct (timers s !! i) as [[t ms]|]; [|done].
  apply runTask_tracked. exact Hs.
Qed.

Lemma run_tracked o : keepsTracked (run o).
Proof.
  destruct o; simpl.
  - apply showDialog_tracked.
  - apply hideDialog_tracked.
  - apply abortOffer_tracked.
  - apply startDialogKeyDown_tracked.
  - apply stopDialogKeyDown_tracked.
  - apply dispatch_tracked.
  - apply fireTimer_tracked.
  - apply addEventListener_tracked. right. by eexists.
  - intros s Hs. exact Hs.
Qed.

(** Whatever happens on a page whose drag listeners are tracked, they stay
    tracked; on a page that has just loaded they are. *)
Lemma runAll_tracked ops : keepsTracked (runAll ops).
Proof.
  unfold runAll. intros s. revert s.
  induction ops as [|o ops IH]; intros s Hs; [done|].
  simpl. apply IH. by apply run_tracked.
Qed.

(** X1: whatever happens on a page (calls of the manager's functions, events,
    timers, listeners of other modules, changes of the host), the listeners
    for mouse moves and button releases stay the ones the drag variables
    record, or foreign ones. *)
Theorem drag_listeners_stay_tracked ops s :
  dragTracked s → dragTracked (runAll ops s).
Proof. apply runAll_tracked. Qed.

Lemma drag_listeners_stay_tracked_witness :
  dragTracked demoPage
  ∧ dragTracked
      (runAll [ShowDialog (Some helpContent) (Some helpButton) true true []
                          None;
               Deliver header "mousedown" leftPress;
               Deliver Document "mousemove" moveTo80;
               ForeignListener Document "mousemove" 3 false;
               Deliver (Named "helpOk") "click" leftPress;
               Expire 0] demoPage).
Proof.
  split; [constructor|].
  apply drag_listeners_stay_tracked. constructor.
Defined.

(** *** The mouse listeners are owned *)

Lemma hoare_andThen P Q R a b :
  hoare P a Q → hoare Q b R → hoare P (a >> b) R.
Proof. intros Ha Hb s Hs. apply Hb, Ha, Hs. Qed.

Lemma hoare_apply P a Q s : hoare P a Q → P s → Q (a s).
Proof. intros Ha. apply Ha. Qed.

(** A sequence that can throw ends in the state its first part leaves, or
    in the state its second part leaves: what holds after the first part
    has to hold at the end as well. *)
Lemma hoare_tryThen P Q R (a b : Fallible) :
  hoare P (settle a) Q → (∀ s, Q s → R s) → hoare Q (settle b) R →
  hoare P (settle (a >>> b)) R.
Proof.
  intros Ha HQR Hb s Hs.
  destruct (settle_tryThen a b s) as [(e & _ & ->)|[_ ->]].
  - by apply HQR, Ha.
  - by apply Hb, Ha.
Qed.

Lemma hoare_lift P Q (a : Action) : hoare P a Q → hoare P (settle (lift a)) Q.
Proof. intros Ha s Hs. by apply Ha. Qed.

Lemma owned_vars v v' l :
  dialogMouseDownWrapper_ v' = dialogMouseDownWrapper_ v →
  dialogMouseUpWrapper_ v' = dialogMouseUpWrapper_ v →
  dialogMouseMoveWrapper_ v' = dialogMouseMoveWrapper_ v →
  owned v l → owned v' l.
Proof. unfold owned. by intros -> -> ->. Qed.

Lemma owned_other v l : ¬ mouseHandler (l_handler l) → owned v l.
Proof.
  unfold owned, mouseHandler. intros Hh.
  destruct (l_handler l); try done; exfalso; apply Hh; auto.
Qed.

Lemma benign_ownedAll a : benign a → hoare ownedAll a ownedAll.
Proof.
  intros Ha s Hs. destruct (Ha s) as (Hd & Hu & Hm & _ & Hls & _).
  apply Forall_forall. intros l Hl. destruct (Hls l Hl) as [Hold|Hnew].
  - apply (owned_vars (vars s)); try done.
    unfold ownedAll in Hs. rewrite Forall_forall in Hs. by apply Hs.
  - by apply owned_other.
Qed.

Lemma benign_unbound a s : benign a → unbound s → unbound (a s).
Proof.
  intros Ha (Hd & Hu & Hm). destruct (Ha s) as (Hd' & Hu' & Hm' & _).
  unfold unbound. by rewrite Hd', Hu', Hm'.
Qed.

Lemma benign_idle a : benign a → hoare idle a idle.
Proof.
  intros Ha s [Hown Hun]. split; [by apply benign_ownedAll|].
  by apply benign_unbound.
Qed.

Lemma benign_mouseOwned a : benign a → hoare mouseOwned a mouseOwned.
Proof.
  intros Ha s [Hown Hun]. split; [by apply benign_ownedAll|].
  destruct (Ha s) as (_ & _ & _ & Hvis & _). rewrite Hvis.
  intros Hv. by apply benign_unbound, Hun.
Qed.

Lemma idle_mouseOwned s : idle s → mouseOwned s.
Proof. intros [Hown Hun]. by split. Qed.

Lemma benign_andThen a b : benign a → benign b → benign (a >> b).
Proof.
  intros Ha Hb s. unfold andThen.
  destruct (Ha s) as (Hd & Hu & Hm & Hv & Hls & Hkeep).
  destruct (Hb (a s)) as (Hd' & Hu' & Hm' & Hv' & Hls' & Hkeep').
  rewrite Hd', Hu', Hm', Hv'. repeat split; try done.
  - intros l Hl. destruct (Hls' l Hl) as [Hin|?]; [|by right]. by apply Hls.
  - intros l Hl Hp. apply Hkeep'; [by apply Hkeep|done].
Qed.

Lemma benign_skip : benign skip.
Proof. intros s. repeat split; [intros l Hl; by left|done]. Qed.

Lemma benign_tryThen (a b : Fallible) :
  benign (settle a) → benign (settle b) → benign (settle (a >>> b)).
Proof.
  intros Ha Hb s.
  destruct (settle_tryThen a b s) as [(e & _ & ->)|[_ ->]]; [apply Ha|].
  apply (benign_andThen (settle a) (settle b) Ha Hb s).
Qed.

Lemma benign_lift (a : Action) : benign a → benign (settle (lift a)).
Proof. intros Ha s. apply Ha. Qed.

Lemma benign_if (c : bool) a b : benign a → benign b → benign (if c then a else b).
Proof. by destruct c. Qed.

Ltac benign_leaves :=
  intros [[? ? ? ? ? ?] [? ? ? ? ? ? ? ?] ? ? ?]; repeat split;
  [intros ? ?; by left|by intros ? ? ?].

Lemma emit_benign e : benign (emit e).
Proof. benign_leaves. Qed.
Lemma setStyle_benign n p v : benign (setStyle n p v).
Proof. benign_leaves. Qed.
Lemma setClassName_benign n l : benign (setClassName n l).
Proof. benign_leaves. Qed.
Lemma classListAdd_benign n c : benign (classListAdd n c).
Proof. benign_leaves. Qed.
Lemma classListRemove_benign n c : benign (classListRemove n c).
Proof. benign_leaves. Qed.
Lemma attach_benign p c : benign (attach p c).
Proof. benign_leaves. Qed.
Lemma appendChild_benign p c : benign (settle (appendChild p c)).
Proof.
  intros s. unfold settle.
  destruct (appendChild_cases p c s) as [[_ ->]|[_ ->]].
  - apply attach_benign.
  - apply benign_skip.
Qed.
Lemma removeFromParent_benign c : benign (removeFromParent c).
Proof. benign_leaves. Qed.
Lemma createElement_benign t n : benign (createElement t n).
Proof. benign_leaves. Qed.
Lemma setTimeout_benign t ms : benign (setTimeout t ms).
Proof. benign_leaves. Qed.
Lemma setDispose_benign d : benign (setDispose d).
Proof. benign_leaves. Qed.
Lemma setOrigin_benign o : benign (with_vars (set_dialogOrigin_ o)).
Proof. benign_leaves. Qed.

Lemma unbind_benign k : benign (unbind k).
Proof.
  intros [[? ? ? ? ? ?] [? ? ? ? ? ? ? ?] ? ? ?]. repeat split.
  - intros l [_ Hl]%list_elem_of_filter. by left.
  - intros l Hl [Hkey _]. apply list_elem_of_filter. split; [|exact Hl].
    by rewrite Hkey.
Qed.

Lemma removeEventListener_benign target h capture :
  benign (removeEventListener target "keydown" h capture).
Proof.
  intros [[? ? ? ? ? ?] [? ? ? ? ? ? ? ?] ? ? ?]. repeat split.
  - intros l [_ Hl]%list_elem_of_filter. by left.
  - intros l Hl [_ Hty]. apply list_elem_of_filter. split; [|exact Hl].
    by intros (_ & ? & _).
Qed.

Lemma addEventListener_benign target type h capture :
  ¬ mouseHandler h → benign (addEventListener target type h capture).
Proof.
  intros Hh [[? ? ? ? ls ?] [? ? ? ? ? ? ? ?] ? ? ?]. repeat split.
  - cbn. case_bool_decide; [by left|].
    intros l [Hl| ->%list_elem_of_singleton]%elem_of_app; [by left|by right].
  - cbn. intros l Hl _. case_bool_decide; [done|]. apply elem_of_app. by left.
Qed.

Lemma hideHandler_other : ¬ mouseHandler HideDialogH.
Proof. by intros [|[|]]. Qed.
Lemma keyHandler_other : ¬ mouseHandler DialogKeyDownH.
Proof. by intros [|[|]]. Qed.
Lemma abortHandler_other : ¬ mouseHandler AbortKeyDownH.
Proof. by intros [|[|]]. Qed.
Lemma indexHandler_other : ¬ mouseHandler IndexPageH.
Proof. by intros [|[|]]. Qed.
Lemma externalHandler_other n : ¬ mouseHandler (ExternalH n).
Proof. by intros [|[|]]. Qed.

(** The statements of the manager that look at the state before they act. *)
Lemma headerRemoval_benign :
  benign (λ s, match getElementById s "dialogHeader" with
               | Some h => removeFromParent h s
               | None => s
               end).
Proof.
  intros s. destruct (getElementById s "dialogHeader") as [h|].
  - apply removeFromParent_benign.
  - apply benign_skip.
Qed.

Lemma hideChaff_benign :
  benign (λ s, if mainWorkspace (host s) then emit EHideChaff s else s).
Proof.
  intros s. destruct (mainWorkspace (host s)).
  - apply emit_benign.
  - apply benign_skip.
Qed.

Ltac benign_step :=
  lazymatch goal with
  | |- benign (andThen _ _) => apply benign_andThen
  | |- benign skip => exact benign_skip
  | |- benign (emit _) => apply emit_benign
  | |- benign (setStyle _ _ _) => apply setStyle_benign
  | |- benign (setClassName _ _) => apply setClassName_benign
  | |- benign (classListAdd _ _) => apply classListAdd_benign
  | |- benign (classListRemove _ _) => apply classListRemove_benign
  | |- benign (attach _ _) => apply attach_benign
  | |- benign (settle (tryThen _ _)) => apply benign_tryThen
  | |- benign (settle (lift _)) => apply benign_lift
  | |- benign (settle (appendChild _ _)) => apply appendChild_benign
  | |- benign (removeFromParent _) => apply removeFromParent_benign
  | |- benign (createElement _ _) => apply createElement_benign
  | |- benign (setTimeout _ _) => apply setTimeout_benign
  | |- benign (setDispose _) => apply setDispose_benign
  | |- benign (with_vars (set_dialogOrigin_ _)) => apply setOrigin_benign
  | |- benign (unbind _) => apply unbind_benign
  | |- benign (removeEventListener _ "keydown" _ _) =>
      apply removeEventListener_benign
  | |- benign (if _ then _ else _) => apply benign_if
  | |- benign (match ?x with _ => _ end) => destruct x
  | |- benign (λ s, _) =>
      first [ exact headerRemoval_benign | exact hideChaff_benign
            | match goal with H : context [benign] |- _ => apply H end ]
  | |- benign _ =>
      match goal with H : context [benign] |- _ => apply H end
  end.

Ltac benign_chain := repeat benign_step.

Lemma stopDialogKeyDown_benign : benign stopDialogKeyDown.
Proof. apply removeEventListener_benign. Qed.

Lemma startDialogKeyDown_benign : benign startDialogKeyDown.
Proof. apply addEventListener_benign, keyHandler_other. Qed.

Lemma call_benign cb : benign (call cb).
Proof.
  unfold call. apply benign_andThen; [apply emit_benign|].
  destruct cb;
    [apply stopDialogKeyDown_benign|apply removeEventListener_benign
    |apply benign_skip].
Qed.

Lemma change_benign bBox opacity : benign (change bBox opacity).
Proof. unfold change. benign_chain. Qed.

Lemma matchBorder_benign element animate opacity :
  benign (matchBorder_ element animate opacity).
Proof.
  intros s. unfold matchBorder_. destruct element as [element|];
    [|apply benign_skip].
  cbv zeta. pose proof change_benign as Hc.
  assert (H : benign
    ((if animate
      then setClassName border ["dialogAnimate"] >>
           setTimeout (BorderChange (getBBox s element) opacity) 1
      else setClassName border [] >> change (getBBox s element) opacity) >>
     setStyle border "visibility" (Lit "visible"))) by benign_chain.
  apply H.
Qed.

Lemma hideEndResult_benign : benign hideEndResult.
Proof. unfold hideEndResult. benign_chain. Qed.

Lemma moveChildren_benign fuel : benign (settle (moveChildren fuel)).
Proof.
  induction fuel as [|fuel IH]; intros s; [apply benign_skip|].
  unfold settle. simpl.
  destruct (firstChild s dialog) as [content|]; [|apply benign_skip].
  assert (H : benign (settle
                (lift (classListAdd content "dialogHiddenContent") >>>
                 appendChild Body content >>> moveChildren fuel)))
    by benign_chain.
  apply H.
Qed.

Lemma moveAll_benign :
  benign (settle (λ s, moveChildren (length (kids s dialog)) s)).
Proof. intros s. apply moveChildren_benign. Qed.

Lemma wireButtons_benign fuel content : benign (wireButtons fuel content).
Proof.
  induction fuel as [|fuel IH]; intros s; [apply benign_skip|].
  simpl. destruct (getElementsByClassName s content "addHideHandler")
    as [|button rest]; [apply benign_skip|].
  assert (H : benign (addEventListener button "click" HideDialogH true >>
                      addEventListener button "touchend" HideDialogH true >>
                      classListRemove button "addHideHandler" >>
                      wireButtons fuel content)).
  { apply benign_andThen;
      [apply addEventListener_benign, hideHandler_other|].
    apply benign_andThen;
      [apply addEventListener_benign, hideHandler_other|].
    apply benign_andThen; [apply classListRemove_benign|apply IH]. }
  apply H.
Qed.

Lemma wireAll_benign content :
  benign (λ s, wireButtons
                 (length (getElementsByClassName s content "addHideHandler"))
                 content s).
Proof. intros s. apply wireButtons_benign. Qed.

Lemma copyStyles_benign element style : benign (copyStyles element style).
Proof.
  unfold copyStyles. induction style as [|[name v] style IH]; intros s.
  - apply benign_skip.
  - simpl.
    assert (H : benign (setStyle element name v >>
                (λ s, foldl (λ s '(name, v), setStyle element name v s) s style)))
      by (apply benign_andThen; [apply setStyle_benign|exact IH]).
    apply H.
Qed.

Lemma showEndResult_benign content : benign (showEndResult content).
Proof.
  intros s. unfold showEndResult. destruct (negb _); [apply benign_skip|].
  assert (Hfocus : benign (λ s,
    let buttons := getElementsByClassName s content "primary" in
    let buttons :=
      match buttons with
      | [] =>
          match getElementsByClassName s content "secondary" with
          | [] => getElementsByTagName s content "button"
          | bs => bs
          end
      | bs => bs
      end in
    match buttons with
    | b :: _ => emit (EFocus b) s
    | [] => s
    end)).
  { intros s0. cbv zeta.
    destruct (match getElementsByClassName s0 content "primary" with
              | [] => _ | _ => _ end);
      [apply benign_skip|apply emit_benign]. }
  lazymatch goal with |- context [andThen ?a ?b s] =>
    assert (H : benign (andThen a b))
      by (repeat (apply benign_andThen; [apply setStyle_benign|]);
          exact Hfocus);
    apply H
  end.
Qed.

Lemma dialogMouseMove_benign e : benign (dialogMouseMove_ e).
Proof.
  intros s. unfold dialogMouseMove_. cbv zeta.
  match goal with |- context [(?a >> ?b) s] =>
    assert (H : benign (a >> b)) by benign_chain; apply H end.
Qed.

(** The unbinding of the drag listeners, and of the listener on the
    header. *)
Lemma dialogUnbindDragEvents_owned s :
  ownedAll s →
  let s' := dialogUnbindDragEvents_ s in
  ownedAll s'
  ∧ dialogMouseUpWrapper_ (vars s') = None
  ∧ dialogMouseMoveWrapper_ (vars s') = None
  ∧ dialogMouseDownWrapper_ (vars s') = dialogMouseDownWrapper_ (vars s)
  ∧ isDialogVisible_ (vars s') = isDialogVisible_ (vars s).
Proof.
  intros Hown s'. subst s'.
  destruct (dialogUnbindDragEvents_eq s) as (ls' & -> & Hls). projs.
  repeat split. unfold ownedAll in *. projs. rewrite Forall_forall in Hown.
  apply Forall_forall. intros l Hl. subst ls'.
  apply list_elem_of_filter in Hl as [Hkey Hl].
  specialize (Hown l Hl). unfold owned in *.
  destruct (l_handler l); try done.
  - destruct Hown as (k & Hk & ->). exfalso. apply Hkey.
    split; [by eexists|]. right. by rewrite Hk.
  - destruct Hown as (k & Hk & ->). exfalso. apply Hkey.
    split; [by eexists|]. left. by rewrite Hk.
Qed.

Lemma unbindHeader_idle :
  hoare (λ s, ownedAll s ∧ dialogMouseUpWrapper_ (vars s) = None
              ∧ dialogMouseMoveWrapper_ (vars s) = None)
        (λ s, match dialogMouseDownWrapper_ (vars s) with
              | Some w =>
                  (unbind w >> with_vars (set_dialogMouseDownWrapper_ None)) s
              | None => s
              end)
        idle.
Proof.
  intros [[ch cl tg st ls nk] [vis og dp wd wu wm sx sy] ap tm lg]
    (Hown & Hu & Hm).
  unfold ownedAll, idle, unbound in *. cbn in Hown, Hu, Hm. subst wu wm.
  destruct wd as [w|]; [|by repeat split].
  cbn. repeat split. unfold ownedAll. cbn.
  rewrite Forall_forall in Hown. apply Forall_forall.
  intros l [Hkey Hl]%list_elem_of_filter. specialize (Hown l Hl).
  unfold owned in *. cbn in *.
  destruct (l_handler l); try done.
  destruct Hown as (k & [= ->] & ->). by exfalso.
Qed.

Lemma setVisible_idle b : hoare idle (setVisible b) idle.
Proof.
  intros [[ch cl tg st ls nk] [vis og dp wd wu wm sx sy] ap tm lg] H.
  exact H.
Qed.

Lemma closeDialog_idle a : hoare ownedAll (closeDialog a) idle.
Proof.
  unfold closeDialog.
  apply (hoare_andThen _
           (λ s, ownedAll s ∧ dialogMouseUpWrapper_ (vars s) = None
                 ∧ dialogMouseMoveWrapper_ (vars s) = None)).
  { intros s0 Hs0.
    destruct (dialogUnbindDragEvents_owned s0 Hs0) as (H1 & H2 & H3 & _).
    exact (conj H1 (conj H2 H3)). }
  apply (hoare_andThen _ idle); [exact unbindHeader_idle|].
  apply (hoare_andThen _ idle); [apply setVisible_idle|].
  apply (hoare_andThen _ idle).
  { intros s0 Hs0. destruct (dialogDispose_ (vars s0)) as [f|]; [|exact Hs0].
    by apply (benign_idle _ (call_benign f)). }
  apply (hoare_andThen _ idle); [apply benign_idle, setDispose_benign|].
  intros s0 Hs0. cbv zeta.
  pose proof matchBorder_benign as Hmb.
  pose proof hideEndResult_benign as Hhe.
  lazymatch goal with |- idle (?c s0) =>
    apply (hoare_apply idle c idle s0); [|exact Hs0] end.
  apply benign_idle.
  destruct (if a then dialogOrigin_ (vars s0) else None); benign_chain.
Qed.

Lemma hideDialog_idle a : hoare mouseOwned (settle (hideDialog a)) idle.
Proof.
  intros s [Hown Hun]. unfold settle, hideDialog.
  destruct (isDialogVisible_ (vars s)) eqn:Hvis; cbn [negb];
    [|by split; [|apply Hun]].
  lazymatch goal with |- idle (after (?f s)) =>
    change (idle (settle f s));
    apply (hoare_apply ownedAll (settle f) idle s); [|exact Hown] end.
  apply (hoare_tryThen _ idle); [apply hoare_lift, closeDialog_idle|done|].
  apply benign_idle, moveAll_benign.
Qed.

Lemma bindHeader_owned :
  hoare idle
    (λ s, let '(w, s) := bind header "mousedown" DialogMouseDownH s in
          with_vars (set_dialogMouseDownWrapper_ (Some w)) s)
    (λ s, ownedAll s ∧ dialogMouseUpWrapper_ (vars s) = None
          ∧ dialogMouseMoveWrapper_ (vars s) = None).
Proof.
  intros [[ch cl tg st ls nk] [vis og dp wd wu wm sx sy] ap tm lg]
    (Hown & Hd & Hu & Hm).
  unfold ownedAll in *. cbn in *. subst wd wu wm. repeat split.
  apply Forall_app. split.
  - eapply Forall_impl; [exact Hown|]. intros l. unfold owned. cbn.
    destruct (l_handler l); try done. by intros (k & [=] & _).
  - apply Forall_singleton. unfold owned. cbn. by exists nk.
Qed.

(** A dialog is being opened: no drag is recorded and the flag is set. *)
Lemma showContent_owned c o a m style d :
  hoare mouseOwned (settle (showContent c o a m style d)) mouseOwned.
Proof.
  pose (opening := λ s, idle s ∧ isDialogVisible_ (vars s) = true).
  pose (shown := λ s, ownedAll s ∧ isDialogVisible_ (vars s) = true).
  assert (Hopening : ∀ s, opening s → mouseOwned s).
  { intros s [Hi _]. by apply idle_mouseOwned. }
  assert (Hshown : ∀ s, shown s → mouseOwned s).
  { intros s [Hown Hv]. split; [exact Hown|]. intros Hf. congruence. }
  assert (Hb_opening : ∀ a, benign a → hoare opening a opening).
  { intros a0 Ha s [Hi Hv]. split; [by apply benign_idle|].
    destruct (Ha s) as (_ & _ & _ & -> & _). exact Hv. }
  assert (Hb_shown : ∀ a, benign a → hoare shown a shown).
  { intros a0 Ha s [Hi Hv]. split; [by apply benign_ownedAll|].
    destruct (Ha s) as (_ & _ & _ & -> & _). exact Hv. }
  pose proof matchBorder_benign as Hmb.
  pose proof showEndResult_benign as Hse.
  pose proof copyStyles_benign as Hcs.
  unfold showContent.
  apply (hoare_tryThen _ mouseOwned);
    [apply hoare_lift, benign_mouseOwned, wireAll_benign|done|].
  apply (hoare_tryThen _ idle).
  { intros s Hs. unfold settle. destruct (isDialogVisible_ (vars s)) eqn:Hvis.
    - by apply hideDialog_idle.
    - destruct Hs as [Hown Hun]. split; [done|by apply Hun]. }
  { exact idle_mouseOwned. }
  apply (hoare_tryThen _ opening).
  { apply hoare_lift.
    apply (hoare_andThen _ idle); [apply benign_idle, hideChaff_benign|].
    apply (hoare_andThen _ opening).
    { intros [[? ? ? ? ? ?] [? ? ? ? ? ? ? ?] ? ? ?] H. by split. }
    apply Hb_opening. benign_chain. }
  { exact Hopening. }
  apply (hoare_tryThen _ shown).
  { destruct m.
    - apply (hoare_tryThen _ opening);
        [apply hoare_lift, Hb_opening; benign_chain|
         intros s [[Hown _] Hv]; by split|].
      apply (hoare_tryThen _ opening);
        [apply Hb_opening, appendChild_benign|
         intros s [[Hown _] Hv]; by split|].
      apply hoare_lift. intros s [Hi Hv].
      destruct (bindHeader_owned s Hi) as (Hown & _).
      split; [exact Hown|].
      destruct s as [[? ? ? ? ? ?] [? ? ? ? ? ? ? ?] ? ? ?]. exact Hv.
    - apply hoare_lift. intros s [[Hown _] Hv]. by split. }
  { exact Hshown. }
  apply (hoare_tryThen _ shown); [apply Hb_shown, appendChild_benign|exact Hshown|].
  apply hoare_lift. intros s Hs. apply Hshown. revert s Hs.
  apply Hb_shown.
  apply benign_andThen; [apply classListRemove_benign|].
  apply benign_andThen; [destruct o; benign_chain|].
  destruct a, o; benign_chain.
Qed.

Lemma dialogUnbindDragEvents_mouseOwned :
  hoare mouseOwned dialogUnbindDragEvents_ mouseOwned.
Proof.
  intros s [Hown Hun].
  destruct (dialogUnbindDragEvents_owned s Hown) as (H1 & H2 & H3 & H4 & H5).
  split; [exact H1|]. rewrite H5. intros Hv.
  destruct (Hun Hv) as (Hd & _). unfold unbound. by rewrite H4.
Qed.

Lemma dialogMouseDown_owned e s :
  mouseOwned s → isDialogVisible_ (vars s) = true →
  mouseOwned (dialogMouseDown_ e s).
Proof.
  intros [Hown _] Hvis.
  destruct (dialogUnbindDragEvents_owned s Hown) as (H1 & H2 & H3 & H4 & H5).
  unfold dialogMouseDown_, andThen. rewrite Hvis in H5.
  destruct (dialogUnbindDragEvents_ s)
    as [[ch cl tg st ls nk] [vis og dp wd wu wm sx sy] [L mw wdrag lc] tm lg].
  unfold ownedAll in H1. cbn in H1, H2, H3, H5. subst wu wm vis.
  destruct (rightButton e); (split; [|by intros [=]]); [exact H1|].
  unfold ownedAll. cbn. rewrite !Forall_app. split; [split|].
  - eapply Forall_impl; [exact H1|]. intros l. unfold owned. cbn.
    destruct (l_handler l); try done; by intros (k & [=] & _).
  - apply Forall_singleton. unfold owned. cbn. by exists nk.
  - apply Forall_singleton. unfold owned. cbn. by exists (S nk).
Qed.

Lemma dialogKeyDown_owned e :
  hoare mouseOwned (settle (dialogKeyDown e)) mouseOwned.
Proof.
  intros s Hs. unfold settle, dialogKeyDown.
  destruct (isDialogVisible_ (vars s)); [|exact Hs].
  destruct (isKey e _); [|exact Hs].
  lazymatch goal with |- mouseOwned (after (?f s)) =>
    change (mouseOwned (settle f s)); revert s Hs;
    change (hoare mouseOwned (settle f) mouseOwned) end.
  apply (hoare_tryThen _ mouseOwned); [|done|].
  - intros s Hs. by apply idle_mouseOwned, hideDialog_idle.
  - apply hoare_lift, benign_mouseOwned. benign_chain.
Qed.

Lemma abortKeyDown_owned e :
  hoare mouseOwned (settle (abortKeyDown_ e)) mouseOwned.
Proof.
  unfold abortKeyDown_.
  apply (hoare_tryThen _ mouseOwned); [apply dialogKeyDown_owned|done|].
  apply hoare_lift, benign_mouseOwned. destruct (isKey e _);
    [apply emit_benign|apply benign_skip].
Qed.

Lemma abortOffer_owned :
  hoare mouseOwned (λ s, after (abortOffer s)) mouseOwned.
Proof.
  intros s Hs. unfold abortOffer.
  destruct (levelComplete (host s)); [exact Hs|].
  destruct (_ || _); [by apply (benign_mouseOwned _ (setTimeout_benign _ _))|].
  cbv zeta. destruct (getElementById s "abortOk") as [ok|]; [|exact Hs].
  pose proof (λ target type, benign_mouseOwned _
    (addEventListener_benign target type IndexPageH true indexHandler_other))
    as Hidx.
  match goal with |- context [showDialog ?cnt _ _ _ _ _ ?s'] =>
    assert (Hs' : mouseOwned s') by (apply Hidx; by apply Hidx);
    destruct cnt as [content|]; [|exact Hs'];
    cbn [showDialog];
    pose proof (showContent_owned content None false true
                  [("width", Lit "40%"); ("left", Lit "30%");
                   ("top", Lit "3em")] (Some AbortDisposeCb) s' Hs') as Hsh;
    unfold settle in Hsh;
    destruct (showContent _ _ _ _ _ _ s') as [s2|err s2]; cbn [after] in *;
      [|exact Hsh]
  end.
  by apply (benign_mouseOwned _
              (addEventListener_benign Body "keydown" AbortKeyDownH true
                 abortHandler_other)).
Qed.

(** A handler of the manager is run for a listener that is registered; a
    listener on the header is registered only while a dialog is visible. *)
Lemma runHandler_owned l e s :
  mouseOwned s → l ∈ listeners (doc s) →
  mouseOwned (after (runHandler (l_handler l) e s)).
Proof.
  intros Hs Hl.
  destruct (l_handler l) eqn:Hh; simpl.
  - by apply idle_mouseOwned, hideDialog_idle.
  - apply dialogMouseDown_owned; [exact Hs|].
    destruct Hs as [Hown Hun]. unfold ownedAll in Hown.
    rewrite Forall_forall in Hown. specialize (Hown l Hl).
    unfold owned in Hown. rewrite Hh in Hown. destruct Hown as (k & Hk & _).
    destruct (isDialogVisible_ (vars s)); [done|].
    destruct (Hun eq_refl) as (Hd & _). congruence.
  - by apply (benign_mouseOwned _ (dialogMouseMove_benign e)).
  - by apply dialogUnbindDragEvents_mouseOwned.
  - by apply dialogKeyDown_owned.
  - by apply abortKeyDown_owned.
  - by apply (benign_mouseOwned _ (emit_benign _)).
  - exact Hs.
Qed.

Lemma dispatch_owned target type e :
  hoare mouseOwned (dispatch target type e) mouseOwned.
Proof.
  intros s Hs. unfold dispatch.
  generalize (filter (λ l, l_target l = target ∧ l_type l = type)
                     (listeners (doc s))).
  intros ls. revert s Hs. induction ls as [|l ls IH]; intros s Hs; [done|].
  simpl. apply IH. case_bool_decide; [|done]. by apply runHandler_owned.
Qed.

Lemma runTask_owned t : hoare mouseOwned (runTask t) mouseOwned.
Proof.
  destruct t; simpl.
  - apply benign_mouseOwned, showEndResult_benign.
  - apply benign_mouseOwned, hideEndResult_benign.
  - apply benign_mouseOwned, change_benign.
  - apply abortOffer_owned.
Qed.

Lemma fireTimer_owned i : hoare mouseOwned (fireTimer i) mouseOwned.
Proof.
  intros s Hs. unfold fireTimer. destruct (timers s !! i) as [[t ms]|]; [|done].
  apply runTask_owned. exact Hs.
Qed.

Lemma run_owned o : hoare mouseOwned (run o) mouseOwned.
Proof.
  destruct o; simpl.
  - intros s Hs. destruct content as [c|]; [|exact Hs].
    by apply showContent_owned.
  - intros s Hs. by apply idle_mouseOwned, (hideDialog_idle opt_animate).
  - apply abortOffer_owned.
  - apply benign_mouseOwned, startDialogKeyDown_benign.
  - apply benign_mouseOwned, stopDialogKeyDown_benign.
  - apply dispatch_owned.
  - apply fireTimer_owned.
  - apply benign_mouseOwned, addEventListener_benign, externalHandler_other.
  - intros s Hs. exact Hs.
Qed.

Lemma mouseOwned_initial : mouseOwned initialState.
Proof. split; [constructor|done]. Qed.

Lemma runAll_owned ops : hoare mouseOwned (runAll ops) mouseOwned.
Proof.
  unfold runAll. intros s. revert s.
  induction ops as [|o ops IH]; intros s Hs; [done|].
  simpl. apply IH. by apply run_owned.
Qed.

(** X2: on a page where every registered listener with one of the manager's
    three mouse handlers is the one the corresponding variable records, and
    where the three variables are null while no dialog is visible (so on a
    page that has just loaded), this stays so whatever happens.  Then no
    such listener is registered while no dialog is visible.  (That a
    recorded listener is still registered is not part of the statement.) *)
Theorem mouse_listeners_stay_owned ops s :
  mouseOwned s → mouseOwned (runAll ops s).
Proof. apply runAll_owned. Qed.

Lemma mouse_listeners_stay_owned_witness :
  mouseOwned demoPage
  ∧ mouseOwned
      (runAll [ShowDialog (Some helpContent) (Some helpButton) true true []
                          None;
               Deliver header "mousedown" leftPress;
               Deliver (Named "helpOk") "click" leftPress;
               Deliver Document "mousemove" moveTo80] demoPage).
Proof.
  assert (H : mouseOwned demoPage) by (split; [constructor|done]).
  split; [exact H|]. apply mouse_listeners_stay_owned. exact H.
Defined.

(** *** Events while no dialog is visible *)

(** Two states that differ at most by navigations that were logged. *)
Lemma hidden_handler l e s :
  mouseOwned s → isDialogVisible_ (vars s) = false →
  l ∈ listeners (doc s) →
  ∃ evs, runHandler (l_handler l) e s =
           Ok (mkState (doc s) (vars s) (host s) (timers s) (log s ++ evs))
         ∧ Forall (λ ev, ev = EIndexPage) evs.
Proof.
  intros [Hown Hun] Hvis Hl.
  assert (Hself : ∃ evs, Ok s = Ok (mkState (doc s) (vars s) (host s)
                                            (timers s) (log s ++ evs))
                         ∧ Forall (λ ev, ev = EIndexPage) evs).
  { exists []. rewrite app_nil_r. by destruct s. }
  assert (Hnav : ∃ evs, Ok (emit EIndexPage s) =
                          Ok (mkState (doc s) (vars s) (host s) (timers s)
                                      (log s ++ evs))
                        ∧ Forall (λ ev, ev = EIndexPage) evs).
  { exists [EIndexPage]. split; [reflexivity|by repeat constructor]. }
  unfold ownedAll in Hown. rewrite Forall_forall in Hown.
  specialize (Hown l Hl). destruct (Hun Hvis) as (Hd & Hu & Hm).
  unfold owned in Hown.
  destruct (l_handler l); simpl.
  - unfold hideDialog. by rewrite Hvis.
  - destruct Hown as (k & Hk & _). congruence.
  - destruct Hown as (k & Hk & _). congruence.
  - destruct Hown as (k & Hk & _). congruence.
  - unfold dialogKeyDown. by rewrite Hvis.
  - unfold abortKeyDown_, tryThen, dialogKeyDown. rewrite Hvis.
    unfold lift. by destruct (isKey e _).
  - exact Hnav.
  - exact Hself.
Qed.

(** X3: while no dialog is visible the manager reacts to no event.  Whatever
    event is delivered to whatever element, the document, the variables of
    the manager and the pending timers stay as they are; all that can happen
    is a navigation to the index page, by a listener of the abort dialog
    that is still registered. *)
Theorem hidden_dialog_ignores_events target type e s :
  mouseOwned s → isDialogVisible_ (vars s) = false →
  ∃ evs,
    dispatch target type e s =
      mkState (doc s) (vars s) (host s) (timers s) (log s ++ evs)
    ∧ Forall (λ ev, ev = EIndexPage) evs.
Proof.
  intros Hs Hvis. unfold dispatch.
  generalize (filter (λ l, l_target l = target ∧ l_type l = type)
                     (listeners (doc s))).
  intros ls.
  assert (Hgen : ∀ s0 evs0,
    s0 = mkState (doc s) (vars s) (host s) (timers s) (log s ++ evs0) →
    Forall (λ ev, ev = EIndexPage) evs0 →
    ∃ evs,
      foldl (λ s l, if bool_decide (l ∈ listeners (doc s))
                    then after (runHandler (l_handler l) e s) else s) s0 ls =
        mkState (doc s) (vars s) (host s) (timers s) (log s ++ evs)
      ∧ Forall (λ ev, ev = EIndexPage) evs).
  { induction ls as [|l ls IH]; intros s0 evs0 Hs0 Hevs0; [by exists evs0|].
    simpl. case_bool_decide as Hl; [|by apply (IH s0 evs0)].
    assert (Hown0 : mouseOwned s0) by (subst s0; exact Hs).
    assert (Hvis0 : isDialogVisible_ (vars s0) = false) by (by subst s0).
    destruct (hidden_handler l e s0 Hown0 Hvis0 Hl) as (evs1 & Heq & Hevs1).
    apply (IH _ (evs0 ++ evs1)).
    - rewrite Heq. subst s0. cbn. by rewrite <- app_assoc.
    - by apply Forall_app. }
  apply (Hgen s []); [|constructor]. rewrite app_nil_r. by destruct s.
Qed.

Lemma hidden_dialog_ignores_events_witness :
  let s := runAll [ShowDialog (Some helpContent) None false true [] None;
                   HideDialog false] demoPage in
  mouseOwned s ∧ isDialogVisible_ (vars s) = false
  ∧ ∃ evs, dispatch (Named "helpOk") "click" leftPress s =
             mkState (doc s) (vars s) (host s) (timers s) (log s ++ evs).
Proof.
  intros s.
  assert (Hs : mouseOwned s).
  { apply runAll_owned. split; [constructor|done]. }
  assert (Hvis : isDialogVisible_ (vars s) = false) by (vm_compute; reflexivity).
  split; [exact Hs|]. split; [exact Hvis|].
  destruct (hidden_dialog_ignores_events (Named "helpOk") "click" leftPress s
              Hs Hvis) as (evs & Heq & _).
  by exists evs.
Defined.

(** *** Listeners that close the dialog *)

Lemma hideDialog_hides a s :
  isDialogVisible_ (vars (after (hideDialog a s))) = false.
Proof.
  destruct (isDialogVisible_ (vars s)) eqn:Hvis.
  - destruct (hideDialog_visible a s Hvis)
      as (ch' & cl' & st' & ls' & tm' & rest & -> & _). reflexivity.
  - unfold hideDialog. by rewrite Hvis.
Qed.

(** A sequence whose first part hides the dialog and whose second part only
    logs leaves it hidden, however it ends. *)
Lemma tryThen_visible (a : Fallible) (b : Action) s :
  (∀ t, isDialogVisible_ (vars (b t)) = isDialogVisible_ (vars t)) →
  isDialogVisible_ (vars (after ((a >>> lift b) s))) =
    isDialogVisible_ (vars (after (a s))).
Proof.
  intros Hb. unfold tryThen, lift. destruct (a s) as [s1|e1 s1]; [|done].
  apply Hb.
Qed.

Lemma dialogKeyDown_hides e s :
  isKey e [13; 27; 32]%Z = true →
  isDialogVisible_ (vars (after (dialogKeyDown e s))) = false.
Proof.
  intros Hkey. unfold dialogKeyDown. rewrite Hkey.
  destruct (isDialogVisible_ (vars s)) eqn:Hvis; [|exact Hvis].
  rewrite tryThen_visible; [apply hideDialog_hides|done].
Qed.

Lemma dialogKeyDown_keeps_hidden e s :
  isDialogVisible_ (vars s) = false → dialogKeyDown e s = Ok s.
Proof. intros Hvis. unfold dialogKeyDown. by rewrite Hvis. Qed.

Lemma abortKeyDown_visible e s :
  isDialogVisible_ (vars (after (abortKeyDown_ e s))) =
    isDialogVisible_ (vars (after (dialogKeyDown e s))).
Proof.
  unfold abortKeyDown_. apply tryThen_visible.
  intros t. by destruct (isKey e [13; 32]%Z).
Qed.

Lemma runHandler_closes e h s :
  closes e h → isDialogVisible_ (vars (after (runHandler h e s))) = false.
Proof.
  intros [->|[[->| ->] Hkey]]; simpl.
  - apply hideDialog_hides.
  - by apply dialogKeyDown_hides.
  - rewrite abortKeyDown_visible. by apply dialogKeyDown_hides.
Qed.

Lemma dialogMouseDown_visible e s :
  isDialogVisible_ (vars (dialogMouseDown_ e s)) = isDialogVisible_ (vars s).
Proof.
  unfold dialogMouseDown_, andThen.
  destruct (dialogUnbindDragEvents_eq s) as (ls' & -> & _). projs.
  by destruct (rightButton e).
Qed.

Lemma dialogUnbindDragEvents_visible s :
  isDialogVisible_ (vars (dialogUnbindDragEvents_ s)) = isDialogVisible_ (vars s).
Proof. by destruct (dialogUnbindDragEvents_eq s) as (ls' & -> & _). Qed.

Lemma runHandler_keeps_hidden h e s :
  isDialogVisible_ (vars s) = false →
  isDialogVisible_ (vars (after (runHandler h e s))) = false.
Proof.
  intros Hvis. destruct h; simpl; try done.
  - apply hideDialog_hides.
  - by rewrite dialogMouseDown_visible.
  - by rewrite dialogUnbindDragEvents_visible.
  - by rewrite dialogKeyDown_keeps_hidden.
  - rewrite abortKeyDown_visible. by rewrite dialogKeyDown_keeps_hidden.
Qed.

(** The drag handlers take away only listeners that were bound with a
    key. *)
Lemma dialogUnbindDragEvents_unkeyed s l :
  l ∈ listeners (doc s) → l_key l = None →
  l ∈ listeners (doc (dialogUnbindDragEvents_ s)).
Proof.
  intros Hl Hkey. destruct (dialogUnbindDragEvents_eq s) as (ls' & -> & ->).
  projs. apply list_elem_of_filter. split; [|exact Hl].
  rewrite Hkey. by intros [[k [=]] _].
Qed.

Lemma dialogMouseDown_unkeyed e s l :
  l ∈ listeners (doc s) → l_key l = None →
  l ∈ listeners (doc (dialogMouseDown_ e s)).
Proof.
  intros Hl Hkey. unfold dialogMouseDown_, andThen.
  pose proof (dialogUnbindDragEvents_unkeyed s l Hl Hkey) as Hl'.
  destruct (dialogUnbindDragEvents_ s)
    as [[ch cl tg st ls nk] [vis og dp wd wu wm sx sy] [L mw wdrag lc] tm lg].
  cbn in Hl'. destruct (rightButton e); cbn; [exact Hl'|].
  rewrite !elem_of_app. by left; left.
Qed.

Lemma runHandler_hidden_or_kept h e s l :
  l ∈ listeners (doc s) → l_key l = None →
  isDialogVisible_ (vars (after (runHandler h e s))) = false
  ∨ l ∈ listeners (doc (after (runHandler h e s))).
Proof.
  intros Hl Hkey. destruct h; simpl; try (by right).
  - left. apply hideDialog_hides.
  - right. by apply dialogMouseDown_unkeyed.
  - right. by apply dialogUnbindDragEvents_unkeyed.
  - unfold dialogKeyDown. destruct (isDialogVisible_ (vars s)) eqn:Hvis;
      [|by left].
    destruct (isKey e _); [|by right]. left.
    rewrite tryThen_visible; [apply hideDialog_hides|done].
  - rewrite abortKeyDown_visible.
    unfold abortKeyDown_, dialogKeyDown.
    destruct (isDialogVisible_ (vars s)) eqn:Hvis.
    + destruct (isKey e [13; 27; 32]%Z).
      * left. rewrite tryThen_visible; [apply hideDialog_hides|done].
      * right. unfold tryThen, lift. cbv beta. rewrite Hvis.
        destruct (isKey e [13; 32]%Z); exact Hl.
    + by left.
Qed.

Lemma closing_listener_closes_aux l e s :
  l ∈ listeners (doc s) → l_key l = None → closes e (l_handler l) →
  isDialogVisible_ (vars (dispatch (l_target l) (l_type l) e s)) = false.
Proof.
  intros Hl Hkey Hcl. unfold dispatch.
  assert (Hin : l ∈ filter (λ l', l_target l' = l_target l
                                 ∧ l_type l' = l_type l) (listeners (doc s)))
    by (by apply list_elem_of_filter).
  revert Hin. generalize (filter (λ l', l_target l' = l_target l
                                        ∧ l_type l' = l_type l)
                                 (listeners (doc s))).
  intros ls Hin.
  assert (Hgen : ∀ s0,
    isDialogVisible_ (vars s0) = false ∨ (l ∈ ls ∧ l ∈ listeners (doc s0)) →
    isDialogVisible_
      (vars (foldl (λ s l', if bool_decide (l' ∈ listeners (doc s))
                            then after (runHandler (l_handler l') e s) else s) s0 ls))
      = false).
  { clear Hin Hl. induction ls as [|l' ls IH]; intros s0 Hs0.
    - destruct Hs0 as [?|[Hnil _]]; [done|]. by apply elem_of_nil in Hnil.
    - simpl. apply IH. destruct Hs0 as [Hhid|[Hin Hl]].
      + left. case_bool_decide; [|done]. by apply runHandler_keeps_hidden.
      + apply elem_of_cons in Hin as [<-|Hin].
        * left. rewrite bool_decide_eq_true_2 by done.
          by apply runHandler_closes.
        * case_bool_decide; [|by right].
          destruct (runHandler_hidden_or_kept (l_handler l') e s0 l Hl Hkey);
            [by left|by right]. }
  apply Hgen. by right.
Qed.

(** X4: a registered listener that closes the dialog does close it.  When a
    listener for hideDialog, or for one of the two key handlers while the key
    is Enter, Escape or Space, is registered (with [addEventListener]) on an
    element for a type of event, then after the delivery of such an event
    to that element no dialog is visible, whatever other listeners are
    registered there and in whatever order they are called. *)
Theorem closing_listener_closes l e s :
  l ∈ listeners (doc s) → l_key l = None → closes e (l_handler l) →
  isDialogVisible_ (vars (dispatch (l_target l) (l_type l) e s)) = false.
Proof. apply closing_listener_closes_aux. Qed.

Lemma closing_listener_closes_witness :
  let s := after (showDialog (Some helpContent) None false true [] None
                             demoPage) in
  clickListener (Named "helpOk") ∈ listeners (doc s)
  ∧ isDialogVisible_ (vars s) = true
  ∧ isDialogVisible_ (vars (dispatch (Named "helpOk") "click" leftPress s))
      = false.
Proof.
  intros s.
  assert (Hl : clickListener (Named "helpOk") ∈ listeners (doc s)).
  { refine (bool_decide_unpack _ _). vm_compute. exact I. }
  split; [exact Hl|]. split; [vm_compute; reflexivity|].
  apply (closing_listener_closes (clickListener (Named "helpOk")) leftPress s
           Hl eq_refl). by left.
Defined.

(** *** Plain listeners are never removed *)

Lemma benign_retains a : benign a → retainsPlain a.
Proof. intros Ha s l Hl Hp. destruct (Ha s) as (_ & _ & _ & _ & _ & H). auto. Qed.

Lemma retainsPlain_andThen a b :
  retainsPlain a → retainsPlain b → retainsPlain (a >> b).
Proof. intros Ha Hb s l Hl Hp. apply Hb; [by apply Ha|done]. Qed.

Lemma retainsPlain_tryThen (a b : Fallible) :
  retainsPlain (settle a) → retainsPlain (settle b) →
  retainsPlain (settle (a >>> b)).
Proof.
  intros Ha Hb s l Hl Hp.
  destruct (settle_tryThen a b s) as [(e & _ & ->)|[_ ->]]; [by apply Ha|].
  apply Hb; [by apply Ha|done].
Qed.

Lemma retainsPlain_lift (a : Action) :
  retainsPlain a → retainsPlain (settle (lift a)).
Proof. intros Ha s l Hl Hp. by apply Ha. Qed.

Lemma dialogUnbindDragEvents_retains : retainsPlain dialogUnbindDragEvents_.
Proof. intros s l Hl [Hkey _]. by apply dialogUnbindDragEvents_unkeyed. Qed.

Lemma unbindHeader_retains :
  retainsPlain
    (λ s, match dialogMouseDownWrapper_ (vars s) with
          | Some w =>
              (unbind w >> with_vars (set_dialogMouseDownWrapper_ None)) s
          | None => s
          end).
Proof.
  intros [[ch cl tg st ls nk] [vis og dp wd wu wm sx sy] ap tm lg] l Hl
    [Hkey _].
  destruct wd as [w|]; [|exact Hl]. cbn in *.
  apply list_elem_of_filter. split; [by rewrite Hkey|exact Hl].
Qed.

Lemma setVisible_retains b : retainsPlain (setVisible b).
Proof. by intros [[? ? ? ? ? ?] [? ? ? ? ? ? ? ?] ? ? ?] l Hl _. Qed.

Lemma bindHeader_retains :
  retainsPlain
    (λ s, let '(w, s) := bind header "mousedown" DialogMouseDownH s in
          with_vars (set_dialogMouseDownWrapper_ (Some w)) s).
Proof.
  intros [[? ? ? ? ? ?] [? ? ? ? ? ? ? ?] ? ? ?] l Hl _. cbn in *.
  apply elem_of_app. by left.
Qed.

Lemma closeDialog_retains a : retainsPlain (closeDialog a).
Proof.
  unfold closeDialog.
  apply retainsPlain_andThen; [exact dialogUnbindDragEvents_retains|].
  apply retainsPlain_andThen; [exact unbindHeader_retains|].
  apply retainsPlain_andThen; [apply setVisible_retains|].
  apply retainsPlain_andThen.
  { intros s l Hl Hp. destruct (dialogDispose_ (vars s)) as [f|]; [|exact Hl].
    by apply (benign_retains _ (call_benign f)). }
  apply retainsPlain_andThen; [apply benign_retains, setDispose_benign|].
  intros s l Hl Hp. cbv zeta.
  pose proof matchBorder_benign as Hmb.
  pose proof hideEndResult_benign as Hhe.
  revert l Hl Hp.
  lazymatch goal with |- ∀ l, _ → _ → l ∈ listeners (doc (?c s)) =>
    assert (Hc : benign c)
      by (destruct (if a then dialogOrigin_ (vars s) else None); benign_chain);
    intros l Hl Hp; by apply (benign_retains c Hc)
  end.
Qed.

Lemma hideDialog_retains a : retainsPlain (settle (hideDialog a)).
Proof.
  intros s l Hl Hp. unfold settle, hideDialog.
  destruct (negb _); [exact Hl|].
  revert s l Hl Hp.
  lazymatch goal with |- ∀ s l, _ → _ → l ∈ listeners (doc (after (?f s))) =>
    change (retainsPlain (settle f)) end.
  apply retainsPlain_tryThen; [apply retainsPlain_lift, closeDialog_retains|].
  apply benign_retains, moveAll_benign.
Qed.

(** What showDialog does after the wiring of the buttons. *)
Ltac show_retains o a m :=
  pose proof matchBorder_benign as Hmb;
  pose proof showEndResult_benign as Hse;
  pose proof copyStyles_benign as Hcs;
  apply retainsPlain_tryThen;
    [intros s0 l Hl Hp; unfold settle;
     destruct (isDialogVisible_ (vars s0)); [|exact Hl];
     by apply hideDialog_retains|];
  apply retainsPlain_tryThen;
    [apply retainsPlain_lift;
     apply retainsPlain_andThen; [apply benign_retains, hideChaff_benign|];
     apply retainsPlain_andThen; [apply setVisible_retains|];
     apply benign_retains; benign_chain|];
  apply retainsPlain_tryThen;
    [destruct m;
     [apply retainsPlain_tryThen;
        [apply benign_retains; benign_chain|];
      apply retainsPlain_tryThen;
        [apply benign_retains, appendChild_benign|];
      apply retainsPlain_lift; exact bindHeader_retains
     |apply benign_retains; benign_chain]|];
  apply retainsPlain_tryThen; [apply benign_retains, appendChild_benign|];
  apply benign_retains, benign_lift;
  apply benign_andThen; [apply classListRemove_benign|];
  apply benign_andThen; [destruct o; benign_chain|];
  destruct a, o; benign_chain.


(** The loop of showDialog registers the two listeners on every button of
    the collection. *)
Lemma addEventListener_registers target type h capture s :
  mkListener target type h capture None
    ∈ listeners (doc (addEventListener target type h capture s)).
Proof.
  destruct s as [[ch cl tg st ls nk] v ap tm lg]. cbn.
  case_bool_decide as Hex.
  - apply Exists_exists in Hex as (l & Hl & Ht & Hty & Hh & Hc & Hk).
    destruct l. cbn in *. by subst.
  - apply elem_of_app. right. by apply list_elem_of_singleton.
Qed.

Lemma wireButtons_registers n c s b :
  b ∈ getElementsByClassName s c "addHideHandler" →
  length (getElementsByClassName s c "addHideHandler") ≤ n →
  clickListener b ∈ listeners (doc (wireButtons n c s))
  ∧ touchListener b ∈ listeners (doc (wireButtons n c s)).
Proof.
  revert s. induction n as [|n IH]; intros s Hb Hlen.
  - apply Nat.le_0_r, nil_length_inv in Hlen. rewrite Hlen in Hb.
    by apply elem_of_nil in Hb.
  - simpl. destruct (getElementsByClassName s c "addHideHandler")
      as [|button rest] eqn:Hbs; [by apply elem_of_nil in Hb|].
    pose proof (wireButtons_step button c s) as Hstep. cbv zeta in Hstep.
    unfold andThen.
    set (s1 := classListRemove button "addHideHandler" _) in *.
    rewrite Hbs in Hstep.
    destruct (decide (b = button)) as [->|Hne].
    + assert (Hc : clickListener button ∈ listeners (doc s1)).
      { unfold s1.
        apply (benign_retains _ (classListRemove_benign _ _));
          [|by split].
        apply (benign_retains _
                 (addEventListener_benign _ _ _ _ hideHandler_other));
          [|by split].
        apply addEventListener_registers. }
      assert (Ht : touchListener button ∈ listeners (doc s1)).
      { unfold s1.
        apply (benign_retains _ (classListRemove_benign _ _));
          [|by split].
        apply addEventListener_registers. }
      split; apply (benign_retains _ (wireButtons_benign n c)); try done;
        by split.
    + apply IH.
      * rewrite Hstep. apply list_elem_of_filter. split; [done|].
        apply elem_of_cons in Hb as [?|?]; [done|].
        by apply elem_of_cons; right.
      * rewrite Hstep. rewrite filter_cons_False by tauto. simpl in Hlen.
        pose proof (length_filter (λ x, x ≠ button) rest). lia.
Qed.

(** X5: a button marked [addHideHandler] closes the dialog.  For every
    button that is a descendant of the content with that class when
    showDialog is called, the two listeners are registered when the call
    ends, whether it returns or throws at an append, and a click or a touch
    on the button then leaves no dialog visible.  A call that returns leaves
    the dialog visible. *)
Theorem marked_button_closes c o a m style d s b e :
  b ∈ getElementsByClassName s c "addHideHandler" →
  let r := showDialog (Some c) o a m style d s in
  let s1 := after r in
  clickListener b ∈ listeners (doc s1)
  ∧ touchListener b ∈ listeners (doc s1)
  ∧ isDialogVisible_ (vars (dispatch b "click" e s1)) = false
  ∧ isDialogVisible_ (vars (dispatch b "touchend" e s1)) = false
  ∧ match r with
    | Ok _ => isDialogVisible_ (vars s1) = true
    | Throw err _ =>
        err = HierarchyRequestError
        ∧ (refuses s1 dialog c = true
           ∨ ∃ x, firstChild s1 dialog = Some x ∧ refuses s1 Body x = true)
    end.
Proof.
  intros Hb r s1.
  assert (Hreg : clickListener b ∈ listeners (doc s1)
               ∧ touchListener b ∈ listeners (doc s1)).
  { destruct (wireButtons_registers _ c s b Hb (le_n _)) as [Hc Ht].
    subst s1 r. rewrite showDialog_content. unfold showContent.
    rewrite tryThen_lift. cbv beta.
    lazymatch goal with |- _ ∈ listeners (doc (after (?rest ?s0))) ∧ _ =>
      assert (Hrest : retainsPlain (settle rest)) by show_retains o a m;
      change (clickListener b ∈ listeners (doc (settle rest s0))
              ∧ touchListener b ∈ listeners (doc (settle rest s0)))
    end.
    split; (apply Hrest; [done|by split]). }
  destruct Hreg as [Hc Ht].
  split; [exact Hc|]. split; [exact Ht|].
  split; [|split].
  - apply (closing_listener_closes_aux (clickListener b) e _ Hc eq_refl).
    by left.
  - apply (closing_listener_closes_aux (touchListener b) e _ Ht eq_refl).
    by left.
  - subst s1. destruct r as [s'|err s'] eqn:Hr; cbn [after].
    + by destruct (showDialog_shows c o a m style d s s' Hr).
    + by apply (showDialog_throws c o a m style d s).
Qed.

Lemma marked_button_closes_witness :
  Named "helpOk" ∈ getElementsByClassName demoPage helpContent "addHideHandler"
  ∧ let s1 := after (showDialog (Some helpContent) None false true [] None
                                demoPage) in
    clickListener (Named "helpOk") ∈ listeners (doc s1)
    ∧ isDialogVisible_ (vars (dispatch (Named "helpOk") "touchend" leftPress s1))
        = false.
Proof.
  assert (Hb : Named "helpOk"
               ∈ getElementsByClassName demoPage helpContent "addHideHandler").
  { refine (bool_decide_unpack _ _). vm_compute. exact I. }
  split; [exact Hb|].
  destruct (marked_button_closes helpContent None false true [] None demoPage
              (Named "helpOk") leftPress Hb)
    as (Hclick & _ & _ & Htouch & _).
  split; [exact Hclick|exact Htouch].
Defined.

(** *** What the manager logs *)

Lemma emits_andThen P a b : emits P a → emits P b → emits P (a >> b).
Proof.
  intros Ha Hb s. unfold andThen.
  destruct (Ha s) as (e1 & H1 & HP1). destruct (Hb (a s)) as (e2 & H2 & HP2).
  exists (e1 ++ e2). rewrite H2, H1, <- app_assoc. split; [done|].
  by apply Forall_app.
Qed.

Lemma emits_skip P : emits P skip.
Proof. intros s. exists []. by rewrite app_nil_r. Qed.

Lemma emits_tryThen P (a b : Fallible) :
  emits P (settle a) → emits P (settle b) → emits P (settle (a >>> b)).
Proof.
  intros Ha Hb s.
  destruct (settle_tryThen a b s) as [(e & _ & ->)|[_ ->]]; [apply Ha|].
  apply (emits_andThen P (settle a) (settle b) Ha Hb s).
Qed.

Lemma emits_lift P (a : Action) : emits P a → emits P (settle (lift a)).
Proof. intros Ha s. apply Ha. Qed.

Lemma appendChild_onPage p c : emits onPage (settle (appendChild p c)).
Proof.
  intros s. unfold settle.
  destruct (appendChild_cases p c s) as [[_ ->]|[_ ->]].
  - exists [EAppend p c]. split; [by destruct s|by repeat constructor].
  - apply emits_skip.
Qed.

Lemma emits_if P (c : bool) a b : emits P a → emits P b → emits P (if c then a else b).
Proof. by destruct c. Qed.

Lemma emit_emits (P : Effect → Prop) e : P e → emits P (emit e).
Proof. intros He s. exists [e]. split; [done|by constructor]. Qed.

(** An action that leaves the log as it is. *)
Lemma silent_emits P (a : Action) : (∀ s, log (a s) = log s) → emits P a.
Proof. intros Ha s. exists []. by rewrite app_nil_r, Ha. Qed.

Lemma logged_emits (P : Effect → Prop) (a : Action) e :
  (∀ s, log (a s) = log s ++ [e]) → P e → emits P a.
Proof. intros Ha He s. exists [e]. split; [apply Ha|by constructor]. Qed.

Ltac onPage_step :=
  lazymatch goal with
  | |- emits _ (andThen _ _) => apply emits_andThen
  | |- emits _ skip => apply emits_skip
  | |- emits _ (if _ then _ else _) => apply emits_if
  | |- emits _ (match ?x with _ => _ end) => destruct x
  | |- emits _ (emit _) => apply emit_emits; exact I
  | |- emits _ (setStyle ?n ?p ?v) =>
      apply (logged_emits _ _ (EStyle n p v)); [by intros []|exact I]
  | |- emits _ (setClassName ?n ?l) =>
      apply (logged_emits _ _ (EClassName n l)); [by intros []|exact I]
  | |- emits _ (classListAdd ?n ?c) =>
      apply (logged_emits _ _ (EClassAdd n c)); [by intros []|exact I]
  | |- emits _ (classListRemove ?n ?c) =>
      apply (logged_emits _ _ (EClassRemove n c)); [by intros []|exact I]
  | |- emits _ (attach ?p ?c) =>
      apply (logged_emits _ _ (EAppend p c)); [by intros []|exact I]
  | |- emits _ (settle (tryThen _ _)) => apply emits_tryThen
  | |- emits _ (settle (lift _)) => apply emits_lift
  | |- emits _ (settle (appendChild _ _)) => apply appendChild_onPage
  | |- emits _ (removeFromParent ?c) =>
      apply (logged_emits _ _ (ERemove c)); [by intros []|exact I]
  | |- emits _ (setTimeout ?t ?ms) =>
      apply (logged_emits _ _ (ETimeout t ms)); [by intros []|exact I]
  | |- emits _ (setVisible ?b) =>
      apply (logged_emits _ _ (ESetVisible b)); [by intros []|exact I]
  | |- emits _ (setDispose ?d) =>
      apply (logged_emits _ _ (ESetDispose d)); [by intros []|exact I]
  | |- emits _ (createElement _ _) => apply silent_emits; by intros []
  | |- emits _ (with_vars _) => apply silent_emits; by intros []
  | |- emits _ (unbind _) => apply silent_emits; by intros []
  | |- emits _ (removeEventListener _ _ _ _) => apply silent_emits; by intros []
  | |- emits _ (addEventListener _ _ _ _) => apply silent_emits; by intros []
  | |- emits _ _ =>
      match goal with H : context [emits] |- _ => apply H end
  end.

Ltac onPage_chain := repeat onPage_step.

Lemma call_onPage cb : emits onPage (call cb).
Proof. unfold call, stopDialogKeyDown. onPage_chain. Qed.

Lemma change_onPage bBox opacity : emits onPage (change bBox opacity).
Proof. unfold change. onPage_chain. Qed.

Lemma matchBorder_onPage element animate opacity :
  emits onPage (matchBorder_ element animate opacity).
Proof.
  intros s. unfold matchBorder_. destruct element as [element|];
    [|apply emits_skip].
  cbv zeta. pose proof change_onPage as Hc.
  lazymatch goal with |- context [andThen ?a ?b s] =>
    assert (H : emits onPage (andThen a b)) by (destruct animate; onPage_chain);
    apply H
  end.
Qed.

Lemma hideEndResult_onPage : emits onPage hideEndResult.
Proof. unfold hideEndResult. onPage_chain. Qed.

Lemma moveChildren_onPage fuel : emits onPage (settle (moveChildren fuel)).
Proof.
  induction fuel as [|fuel IH]; intros s; [apply emits_skip|].
  unfold settle. simpl.
  destruct (firstChild s dialog) as [content|]; [|apply emits_skip].
  lazymatch goal with |- context [after (?f s)] =>
    assert (H : emits onPage (settle f)) by onPage_chain; apply H
  end.
Qed.

Lemma dialogUnbindDragEvents_silent s :
  log (dialogUnbindDragEvents_ s) = log s.
Proof. by destruct (dialogUnbindDragEvents_eq s) as (ls' & -> & _). Qed.

Lemma closeDialog_onPage a : emits onPage (closeDialog a).
Proof.
  unfold closeDialog.
  pose proof call_onPage as Hcall.
  pose proof matchBorder_onPage as Hmb.
  pose proof hideEndResult_onPage as Hhe.
  apply emits_andThen;
    [apply silent_emits, dialogUnbindDragEvents_silent|].
  apply emits_andThen.
  { intros s0. destruct (dialogMouseDownWrapper_ (vars s0)) as [w|];
      [|apply emits_skip].
    lazymatch goal with |- context [andThen ?a ?b s0] =>
      assert (H : emits onPage (andThen a b)) by onPage_chain; apply H
    end. }
  apply emits_andThen; [onPage_step|].
  apply emits_andThen.
  { intros s0. destruct (dialogDispose_ (vars s0)) as [f|];
      [apply call_onPage|apply emits_skip]. }
  apply emits_andThen; [onPage_step|].
  intros s0. cbv zeta.
  lazymatch goal with |- context [andThen ?a ?b s0] =>
    assert (H : emits onPage (andThen a b)); [|apply H]
  end.
  apply emits_andThen; [onPage_step|].
  apply emits_andThen.
  { destruct (if a then dialogOrigin_ (vars s0) else None); onPage_chain. }
  apply emits_andThen; [onPage_step|].
  apply emits_andThen; [onPage_step|].
  intros s1. destruct (getElementById s1 "dialogHeader") as [h|];
    [|apply emits_skip].
  refine (logged_emits onPage (removeFromParent h) (ERemove h) _ I s1).
  by intros [].
Qed.

Lemma hideDialog_onPage a : emits onPage (settle (hideDialog a)).
Proof.
  intros s. unfold settle, hideDialog. destruct (negb _); [apply emits_skip|].
  lazymatch goal with |- context [after (?f s)] =>
    assert (H : emits onPage (settle f)); [|apply H]
  end.
  apply emits_tryThen; [apply emits_lift, closeDialog_onPage|].
  intros s1. apply moveChildren_onPage.
Qed.

Lemma dialogKeyDown_onPage e : emits onPage (settle (dialogKeyDown e)).
Proof.
  intros s. unfold settle, dialogKeyDown.
  destruct (isDialogVisible_ (vars s)); [|by apply (emits_skip onPage)].
  destruct (isKey e [13; 27; 32]%Z); [|by apply (emits_skip onPage)].
  pose proof (hideDialog_onPage true) as Hh.
  lazymatch goal with |- context [after (?f s)] =>
    assert (H : emits onPage (settle f)) by onPage_chain; apply H
  end.
Qed.

(** X6: dialogKeyDown.  While a dialog is visible, Enter, Escape and Space
    close it as hideDialog(true) does (the dispose function of the dialog is
    called once and cleared); when the hide returns, the event is stopped
    and its default prevented, and the container is empty; when the hide
    throws, the handler throws with it and does neither.  The handler
    navigates nowhere.  Any other key, and any key while no dialog is
    visible, leaves the state as it is. *)
Theorem dialogKeyDown_closes e s :
  (isDialogVisible_ (vars s) = false ∨ isKey e [13; 27; 32]%Z = false →
   dialogKeyDown e s = Ok s)
  ∧ (isDialogVisible_ (vars s) = true → isKey e [13; 27; 32]%Z = true →
     let s' := after (dialogKeyDown e s) in
     isDialogVisible_ (vars s') = false
     ∧ dialogDispose_ (vars s') = None
     ∧ calls (drop (length (log s)) (log s'))
         = option_list (dialogDispose_ (vars s))
     ∧ Forall onPage (drop (length (log s)) (log s'))
     ∧ match hideDialog true s with
       | Ok s1 =>
           dialogKeyDown e s = Ok s'
           ∧ log s' = log s1 ++ [EStopPropagation; EPreventDefault]
           ∧ kids s' dialog = []
       | Throw err s1 =>
           dialogKeyDown e s = Throw err s1
           ∧ err = HierarchyRequestError
           ∧ ∃ x, firstChild s1 dialog = Some x ∧ refuses s1 Body x = true
       end).
Proof.
  split.
  - intros [Hvis|Hkey]; unfold dialogKeyDown.
    + by rewrite Hvis.
    + rewrite Hkey. by destruct (isDialogVisible_ (vars s)).
  - intros Hvis Hkey. cbv zeta.
    destruct (dialogKeyDown_onPage e s) as (evs & Hlog & Hevs).
    unfold settle in Hlog.
    assert (Hdef : dialogKeyDown e s =
              (hideDialog true >>>
               lift (emit EStopPropagation >> emit EPreventDefault)) s).
    { unfold dialogKeyDown. by rewrite Hvis, Hkey. }
    rewrite Hdef in Hlog |- *. clear Hdef.
    destruct (hideDialog_visible true s Hvis)
      as (ch' & cl' & st' & ls' & tm' & rest & Heq & Hrest & _ & _ & _ & _
          & Hres).
    assert (Hcalls : ∀ tail, calls tail = [] →
              calls (ESetVisible false
                       :: (ECall <$> option_list (dialogDispose_ (vars s)))
                       ++ ESetDispose None :: rest ++ tail)
              = option_list (dialogDispose_ (vars s))).
    { intros tail Htail.
      change (calls (ESetVisible false :: ?l)) with (calls l).
      rewrite calls_app.
      change (calls (ESetDispose None :: ?l)) with (calls l).
      rewrite calls_app, (noCall_calls rest Hrest), Htail.
      by destruct (dialogDispose_ (vars s)). }
    unfold tryThen, lift in Hlog |- *.
    destruct (hideDialog true s) as [s1|err s1]; cbn [after] in Heq, Hlog |- *.
    + destruct Hres as [Hdlg _].
      rewrite Heq in Hlog |- *. unfold kids. cbn in Hlog |- *.
      norm_log. norm_log_in Hlog. apply app_inv_head in Hlog.
      split; [done|]. split; [done|].
      split; [rewrite drop_app_length; by apply Hcalls|].
      split; [by rewrite drop_app_length, Hlog|].
      split; [done|]. split; [done|exact Hdlg].
    + rewrite Heq in Hlog |- *. cbn in Hlog |- *.
      apply app_inv_head in Hlog.
      split; [done|]. split; [done|].
      split.
      { rewrite drop_app_length.
        rewrite <- (app_nil_r rest). by apply Hcalls. }
      split; [by rewrite drop_app_length, Hlog|].
      split; [done|]. rewrite <- Heq. exact Hres.
Qed.

(** X7: abortKeyDown_.  Enter and Space navigate to the index page, once,
    after everything else the handler does, unless the hide of the dialog
    throws; Escape and all other keys navigate nowhere.  This does not
    depend on a dialog being visible: while none is, the handler does not
    throw.  Enter, Escape and Space leave no dialog visible. *)
Theorem abortKeyDown_navigates e s :
  let r := abortKeyDown_ e s in
  let s' := after r in
  let new := drop (length (log s)) (log s') in
  (isKey e [13; 32]%Z = true →
   match r with
   | Ok _ => ∃ evs, new = evs ++ [EIndexPage] ∧ Forall onPage evs
   | Throw err _ => Forall onPage new
   end)
  ∧ (isKey e [13; 32]%Z = false → Forall onPage new)
  ∧ (isKey e [13; 27; 32]%Z = true → isDialogVisible_ (vars s') = false)
  ∧ (∀ err s1, r = Throw err s1 →
       isDialogVisible_ (vars s) = true
       ∧ isKey e [13; 27; 32]%Z = true
       ∧ hideDialog true s = Throw err s1).
Proof.
  intros r s' new.
  destruct (dialogKeyDown_onPage e s) as (evs & Hlog & Hevs).
  unfold settle in Hlog.
  subst new s' r. unfold abortKeyDown_, tryThen, lift.
  split; [|split; [|split]].
  - intros Hk. rewrite Hk.
    destruct (dialogKeyDown e s) as [s1|err s1]; cbn [after] in *.
    + exists evs. cbn. rewrite Hlog, <- app_assoc.
      by rewrite drop_app_length.
    + by rewrite Hlog, drop_app_length.
  - intros Hk. rewrite Hk.
    destruct (dialogKeyDown e s) as [s1|err s1]; cbn [after] in *;
      unfold skip; by rewrite Hlog, drop_app_length.
  - intros Hk.
    change (isDialogVisible_ (vars (after (abortKeyDown_ e s))) = false).
    rewrite abortKeyDown_visible. by apply dialogKeyDown_hides.
  - intros err s1. unfold dialogKeyDown.
    destruct (isDialogVisible_ (vars s)); [|done].
    destruct (isKey e [13; 27; 32]%Z); [|done].
    unfold tryThen, lift.
    destruct (hideDialog true s) as [s2|err2 s2]; [done|].
    intros [= -> ->]. done.
Qed.

(** *** Statements that leave the listeners alone *)


















(** *** The key handler's registration *)

Lemma sameRegistration_eq target type h capture l :
  sameRegistration target type h capture l ↔
  l = mkListener target type h capture None.
Proof.
  unfold sameRegistration. split.
  - intros (? & ? & ? & ? & ?). destruct l. cbn in *. by subst.
  - by intros ->.
Qed.

Lemma filter_absent (l0 : Listener) (ls : list Listener) :
  l0 ∉ ls → filter (λ l, l ≠ l0) ls = ls.
Proof.
  induction ls as [|l ls IH]; [done|]. intros Hn.
  apply not_elem_of_cons in Hn as [Hne Hn].
  rewrite filter_cons_True by done. by rewrite IH.
Qed.

Lemma removeEventListener_listeners target type h capture s :
  listeners (doc (removeEventListener target type h capture s)) =
    filter (λ l, l ≠ mkListener target type h capture None) (listeners (doc s)).
Proof.
  destruct s as [[? ? ? ? ls ?] ? ? ? ?]. cbn.
  apply list_filter_iff. intros l. by rewrite sameRegistration_eq.
Qed.

Lemma addEventListener_again target type h capture s :
  mkListener target type h capture None ∈ listeners (doc s) →
  addEventListener target type h capture s = s.
Proof.
  intros Hl. destruct s as [[? ? ? ? ls ?] ? ? ? ?].
  unfold addEventListener, with_doc, set_listeners. cbn in *.
  rewrite bool_decide_eq_true_2; [done|].
  apply Exists_exists. eexists. split; [exact Hl|].
  by apply sameRegistration_eq.
Qed.

(** X9: startDialogKeyDown and stopDialogKeyDown.  Starting registers the
    key handler on the body, once however often it is called; stopping
    removes it; stopping after starting gives back the state there was
    before, when the handler was not registered then.  While the handler is
    registered, Enter, Escape and Space close the dialog. *)
Theorem keydown_registration s :
  keyListener ∈ listeners (doc (startDialogKeyDown s))
  ∧ startDialogKeyDown (startDialogKeyDown s) = startDialogKeyDown s
  ∧ (keyListener ∉ listeners (doc (stopDialogKeyDown s)))
  ∧ listeners (doc (stopDialogKeyDown (startDialogKeyDown s)))
      = listeners (doc (stopDialogKeyDown s))
  ∧ (keyListener ∉ listeners (doc s) →
     stopDialogKeyDown (startDialogKeyDown s) = s)
  ∧ (∀ e, isKey e [13; 27; 32]%Z = true →
       isDialogVisible_
         (vars (dispatch Body "keydown" e (startDialogKeyDown s))) = false).
Proof.
  assert (Hreg : keyListener ∈ listeners (doc (startDialogKeyDown s)))
    by apply addEventListener_registers.
  split; [exact Hreg|].
  split.
  { unfold startDialogKeyDown at 1. by apply addEventListener_again. }
  split.
  { unfold stopDialogKeyDown. rewrite removeEventListener_listeners.
    by intros [Hne _]%list_elem_of_filter. }
  assert (Hstart : listeners (doc (startDialogKeyDown s)) = listeners (doc s)
                   ∨ listeners (doc (startDialogKeyDown s))
                     = listeners (doc s) ++ [keyListener]).
  { destruct s as [[? ? ? ? ls ?] ? ? ? ?]. cbn.
    case_bool_decide; [by left|by right]. }
  split.
  { unfold stopDialogKeyDown. rewrite !removeEventListener_listeners.
    destruct Hstart as [-> | ->]; [done|].
    rewrite filter_app, filter_cons_False, filter_nil, app_nil_r; [done|].
    by intros []. }
  split.
  { intros Habs.
    assert (Hadd : startDialogKeyDown s =
              with_doc (set_listeners (listeners (doc s) ++ [keyListener])) s).
    { destruct s as [[? ? ? ? ls ?] ? ? ? ?].
      unfold startDialogKeyDown, addEventListener, with_doc, set_listeners.
      cbn in *. rewrite bool_decide_eq_false_2; [done|].
      intros (l & Hl & ->%sameRegistration_eq)%Exists_exists. by apply Habs. }
    rewrite Hadd. destruct s as [[? ? ? ? ls ?] ? ? ? ?].
    unfold stopDialogKeyDown, removeEventListener, with_doc, set_listeners.
    cbn in *. do 2 f_equal.
    rewrite (list_filter_iff _ (λ l, l ≠ keyListener))
      by (intros l; by rewrite sameRegistration_eq).
    rewrite filter_app, filter_cons_False, filter_nil, app_nil_r
      by (by intros []).
    by apply filter_absent. }
  intros e He.
  apply (closing_listener_closes_aux keyListener e _ Hreg eq_refl).
  right. split; [by left|exact He].
Qed.

(** *** The animated border *)

Lemma styles_setStyle n p v s :
  styles (doc (setStyle n p v s)) = <[(n, p) := v]> (styles (doc s)).
Proof. by destruct s as [[]]. Qed.

Lemma styles_change bBox opacity s :
  styles (doc (change bBox opacity s)) =
    <[(border, "opacity") := Lit opacity]>
      (<[(border, "top") := Px (by_ bBox)]>
         (<[(border, "left") := Px (bx bBox)]>
            (<[(border, "height") := Px (bheight bBox)]>
               (<[(border, "width") := Px (bwidth bBox)]> (styles (doc s)))))).
Proof. unfold change, andThen. by rewrite !styles_setStyle. Qed.

Lemma change_frame bBox opacity s :
  classes (doc (change bBox opacity s)) = classes (doc s)
  ∧ timers (change bBox opacity s) = timers s.
Proof. by destruct s as [[]]. Qed.

(** X10: matchBorder_.  Without an element it does nothing.  Without
    animation it gives the border the box of the element and the opacity at
    once.  With animation it leaves them as they are and sets a timer of
    1 ms; when that timer expires the border gets the box that was measured
    when matchBorder_ was called, also if the page has been laid out anew
    since, and its style is then what the call without animation would have
    made it. *)
Theorem matchBorder_deferred element opacity s L' :
  let box := getBBox s element in
  let now := matchBorder_ (Some element) false opacity s in
  let later := matchBorder_ (Some element) true opacity s in
  (∀ animate, matchBorder_ None animate opacity s = s)
  ∧ style now border "width" = Some (Px (bwidth box))
  ∧ style now border "height" = Some (Px (bheight box))
  ∧ style now border "left" = Some (Px (bx box))
  ∧ style now border "top" = Some (Px (by_ box))
  ∧ style now border "opacity" = Some (Lit opacity)
  ∧ style now border "visibility" = Some (Lit "visible")
  ∧ classList now border = [] ∧ timers now = timers s
  ∧ classList later border = ["dialogAnimate"]
  ∧ timers later = timers s ++ [(BorderChange box opacity, 1)]
  ∧ style later border "visibility" = Some (Lit "visible")
  ∧ (∀ prop, prop ∈ ["width"; "height"; "left"; "top"; "opacity"] →
       style later border prop = style s border prop)
  ∧ styles (doc (fireTimer (length (timers s)) (relayout L' later)))
      = styles (doc now)
  ∧ timers (fireTimer (length (timers s)) (relayout L' later)) = timers s.
Proof.
  intros box now later.
  assert (Hnow : now = setStyle border "visibility" (Lit "visible")
                         (change box opacity (setClassName border [] s)))
    by reflexivity.
  assert (Hlater : later = setStyle border "visibility" (Lit "visible")
                             (setTimeout (BorderChange box opacity) 1
                                (setClassName border ["dialogAnimate"] s)))
    by reflexivity.
  clearbody now later box. subst now later.
  split; [done|].
  assert (Hst0 : ∀ l, styles (doc (setClassName border l s)) = styles (doc s))
    by (by destruct s as [[]]).
  unfold style. rewrite !styles_setStyle, styles_change, Hst0.
  do 6 (split; [by simplify_map_eq|]).
  split.
  { unfold classList.
    assert (H : classes (doc (setStyle border "visibility" (Lit "visible")
                   (change box opacity (setClassName border [] s))))
                = <[border := []]> (classes (doc s))).
    { transitivity (classes (doc (change box opacity
                                    (setClassName border [] s)))).
      - by destruct (change _ _ _) as [[]].
      - rewrite (proj1 (change_frame _ _ _)). by destruct s as [[]]. }
    rewrite H. by rewrite lookup_insert_eq. }
  split.
  { transitivity (timers (change box opacity (setClassName border [] s))).
    - by destruct (change _ _ _) as [[]].
    - rewrite (proj2 (change_frame _ _ _)). by destruct s as [[]]. }
  split.
  { unfold classList. destruct s as [[ch cl tg st ls nk] v ap tm lg]. cbn.
    by rewrite lookup_insert_eq. }
  split; [by destruct s as [[]]|].
  assert (Hst1 : styles (doc (setTimeout (BorderChange box opacity) 1
                    (setClassName border ["dialogAnimate"] s)))
                 = styles (doc s)) by (by destruct s as [[]]).
  rewrite Hst1.
  split; [by rewrite lookup_insert_eq|].
  split.
  { intros prop Hp. rewrite lookup_insert_ne; [done|].
    intros [= <-]. revert Hp. rewrite !elem_of_cons, elem_of_nil.
    by intros [|[|[|[|[|]]]]]. }
  set (later := setStyle border "visibility" (Lit "visible") _).
  assert (Htm : timers (relayout L' later)
                = timers s ++ [(BorderChange box opacity, 1)])
    by (unfold later; by destruct s as [[]]).
  assert (Hstl : styles (doc (relayout L' later))
                 = <[(border, "visibility") := Lit "visible"]> (styles (doc s)))
    by (unfold later; by destruct s as [[]]).
  unfold fireTimer. rewrite Htm, list_lookup_middle by done.
  cbn [runTask]. rewrite styles_change. cbn [doc styles].
  rewrite Hstl. rewrite delete_middle, app_nil_r.
  split.
  - rewrite (insert_insert_ne _ (border, "width") (border, "visibility")) by done.
    rewrite (insert_insert_ne _ (border, "height") (border, "visibility")) by done.
    rewrite (insert_insert_ne _ (border, "left") (border, "visibility")) by done.
    rewrite (insert_insert_ne _ (border, "top") (border, "visibility")) by done.
    by rewrite (insert_insert_ne _ (border, "opacity") (border, "visibility"))
      by done.
  - by rewrite (proj2 (change_frame _ _ _)).
Qed.

(** *** The end of a drag, and the window *)

(** X11: releasing the button ends the drag.  After a press that started a
    drag, a mouseup on the document unbinds the two drag listeners: the drag
    variables are null, the listeners for mouse moves and button releases
    that are left are those of other modules, and mouse moves no longer
    change anything. *)
Theorem mouseup_ends_drag s e0 e1 moves :
  dragTracked s → rightButton e0 = false →
  let s1 := dialogMouseDown_ e0 s in
  let s2 := dispatch Document "mouseup" e1 s1 in
  is_Some (dialogMouseMoveWrapper_ (vars s1))
  ∧ s2 = dialogUnbindDragEvents_ s1
  ∧ dialogMouseUpWrapper_ (vars s2) = None
  ∧ dialogMouseMoveWrapper_ (vars s2) = None
  ∧ (∀ l, l ∈ listeners (doc s2) →
       l_type l = "mousemove" ∨ l_type l = "mouseup" → foreign l)
  ∧ foldl (λ s e', dispatch Document "mousemove" e' s) s2 moves = s2.
Proof.
  intros Htr Hbtn s1 s2.
  pose proof (dialogMouseDown_tracked e0 s Htr) as Htr1. fold s1 in Htr1.
  destruct (unbind_leaves_foreign s Htr)
    as (Hup & Hmove & Hfor & _ & _ & _ & _ & _ & _ & _ & _).
  assert (Hs1 : is_Some (dialogMouseMoveWrapper_ (vars s1))
    ∧ ∃ k F, filter (λ l, l_target l = Document ∧ l_type l = "mouseup")
                    (listeners (doc s1)) = F ++ [upListener k]
             ∧ Forall foreign F).
  { unfold s1, dialogMouseDown_, andThen. rewrite Hbtn.
    destruct (dialogUnbindDragEvents_ s)
      as [[ch cl tg st ls nk] [vis og dp wd wu wm sx sy] [L mw wdrag lc] tm lg].
    projs_in Hfor. dlg_cbn. split; [by eexists|].
    exists nk,
      (filter (λ l, l_target l = Document ∧ l_type l = "mouseup") ls).
    split.
    - rewrite !filter_app. rewrite filter_cons_True, filter_nil by done.
      rewrite filter_cons_False, filter_nil, app_nil_r; [done|].
      cbn. intros [_ [=]].
    - apply Forall_forall. intros l [[_ Hty] Hl]%list_elem_of_filter.
      apply Hfor; auto. }
  destruct Hs1 as (Hsome & k & F & Hf & HF).
  assert (Hs2 : s2 = dialogUnbindDragEvents_ s1).
  { unfold s2, dispatch. rewrite Hf, foldl_app.
    rewrite (foldl_foreign e1 F s1) by done. cbn [foldl].
    rewrite bool_decide_eq_true_2; [reflexivity|].
    assert (H : upListener k ∈ F ++ [upListener k])
      by (apply elem_of_app; right; by apply list_elem_of_singleton).
    rewrite <- Hf in H. by apply list_elem_of_filter in H as [_ H]. }
  destruct (unbind_leaves_foreign s1 Htr1)
    as (Hup2 & Hmove2 & Hfor2 & _).
  rewrite <- Hs2 in Hup2, Hmove2, Hfor2.
  split; [exact Hsome|]. split; [exact Hs2|].
  split; [exact Hup2|]. split; [exact Hmove2|]. split; [exact Hfor2|].
  induction moves as [|e' moves IH]; [done|].
  simpl. rewrite dispatch_foreign; [exact IH|].
  intros l Hl Hty. apply Hfor2; auto.
Qed.

Lemma mouseup_ends_drag_witness :
  dragTracked demoPage ∧ rightButton leftPress = false
  ∧ let s1 := dialogMouseDown_ leftPress demoPage in
    let s2 := dispatch Document "mouseup" leftPress s1 in
    dialogMouseMoveWrapper_ (vars s2) = None
    ∧ foldl (λ s e', dispatch Document "mousemove" e' s) s2 [moveTo80] = s2.
Proof.
  split; [constructor|]. split; [reflexivity|].
  destruct (mouseup_ends_drag demoPage leftPress leftPress [moveTo80])
    as (_ & _ & _ & Hmove & _ & Hfix); [constructor|reflexivity|].
  split; [exact Hmove|exact Hfix].
Defined.

(** X12: where a mouse move puts the dialog.  When the dialog fits in the
    window, a mouse move of a drag leaves it wholly inside the window; in a
    direction in which it is larger than the window, the upper bound, which
    is applied last, wins: the far edge of the dialog is put on the far edge
    of the window and the near edge is outside. *)
Theorem dragged_dialog_and_window e s :
  let L := layout (host s) in
  let s' := dialogMouseMove_ e s in
  let w := (innerWidth L - offsetWidth L dialog)%Z in
  let h := (innerHeight L - offsetHeight L dialog)%Z in
  ∃ x y,
    style s' dialog "left" = Some (Px x)
    ∧ style s' dialog "top" = Some (Px y)
    ∧ ((0 ≤ w)%Z → (0 ≤ x ≤ w)%Z)
    ∧ ((w < 0)%Z → x = w)
    ∧ ((0 ≤ h)%Z → (0 ≤ y ≤ h)%Z)
    ∧ ((h < 0)%Z → y = h).
Proof.
  intros L s' w h.
  destruct (dialogMouseMove_style e s) as [Hx Hy].
  eexists _, _. split; [exact Hx|]. split; [exact Hy|].
  fold L w h. unfold clamp. repeat split; lia.
Qed.

(** *** A show that is closed before it has completed *)

(** X13: when the completion of an animated show expires while no dialog is
    visible, in particular after any call of hideDialog (whether it returned
    or threw), it does nothing: the timer is gone and document, variables
    and log are as they were. *)
Theorem closed_dialog_cancels_opening s a i c ms :
  (isDialogVisible_ (vars s) = false →
   timers s !! i = Some (ShowEndResult c, ms) →
   fireTimer i s =
     mkState (doc s) (vars s) (host s) (delete i (timers s)) (log s))
  ∧ (timers (after (hideDialog a s)) !! i = Some (ShowEndResult c, ms) →
     let s1 := after (hideDialog a s) in
     fireTimer i s1 =
       mkState (doc s1) (vars s1) (host s1) (delete i (timers s1)) (log s1)).
Proof.
  assert (H : ∀ s0, isDialogVisible_ (vars s0) = false →
    timers s0 !! i = Some (ShowEndResult c, ms) →
    fireTimer i s0 =
      mkState (doc s0) (vars s0) (host s0) (delete i (timers s0)) (log s0)).
  { intros s0 Hvis Ht. unfold fireTimer. rewrite Ht. cbn [runTask].
    by apply showEndResult_closed. }
  split; [apply H|]. intros Ht s1. apply H; [apply hideDialog_hides|exact Ht].
Qed.

End DialogProofs.

(** * Properties of the turtle field *)

Module TurtleProofs.
Import FieldTurtle.

Section index.
Local Open Scope Z_scope.

Lemma indexFrom_absent i array s :
  0 <= i → (indexFrom i array s = -1 ↔ s ∉ array).
Proof.
  revert i. induction array as [|x rest IH]; intros i Hi; simpl.
  - split; [intros _; apply not_elem_of_nil|done].
  - case_bool_decide as Hx.
    + subst x. split; [lia|]. intros []. left.
    + rewrite IH by lia. rewrite not_elem_of_cons. split; [by split|by intros []].
Qed.

Lemma indexFrom_lookup i array (k : nat) s :
  NoDup array → array !! k = Some s → indexFrom i array s = i + Z.of_nat k.
Proof.
  revert i k. induction array as [|x rest IH]; intros i k Hnd Hk; [done|].
  apply NoDup_cons in Hnd as [Hx Hnd]. simpl.
  destruct k as [|k]; simpl in Hk.
  - injection Hk as ->. rewrite bool_decide_eq_true_2 by done. lia.
  - rewrite bool_decide_eq_false_2.
    + rewrite (IH (i + 1) k) by done. lia.
    + intros ->. apply Hx. by eapply list_elem_of_lookup_2.
Qed.

End index.

Lemma indexOf_absent array v :
  indexOf array v = (-1)%Z ↔ v ∉ Str <$> array.
Proof.
  destruct v as [| |s]; simpl.
  - split; [|done]. intros _ (x & [=] & _)%list_elem_of_fmap.
  - split; [|done]. intros _ (x & [=] & _)%list_elem_of_fmap.
  - rewrite indexFrom_absent by done. split.
    + intros Hs (x & [= ->] & Hx)%list_elem_of_fmap. done.
    + intros Hs Hin. apply Hs. apply list_elem_of_fmap. eauto.
Qed.

Lemma options_NoDup variable : NoDup (optionsOf variable).
Proof. destruct variable; refine (bool_decide_unpack _ _); vm_compute; exact I. Qed.

(** No option is the empty string, so every option is truthy. *)
Lemma options_truthy variable s :
  s ∈ optionsOf variable → truthy (Str s) = true.
Proof.
  intros Hs. simpl. rewrite bool_decide_eq_false_2; [done|].
  intros ->. revert Hs.
  destruct variable; refine (bool_decide_unpack _ _); vm_compute; exact I.
Qed.

(** ** doClassValidation_ *)

(** The object [newValue] after the assignments, property by property. *)
Lemma doClassValidation_component variable newValue f :
  getKey variable (newValue' (doClassValidation_ newValue f)) =
    if looseEqUndefined (getKey variable newValue) then displayed variable f
    else if bool_decide (getKey variable newValue ∈ Str <$> optionsOf variable)
         then getKey variable newValue
         else Null.
Proof.
  assert (Hsel : ∀ array v,
    (if (indexOf array v =? -1)%Z then Null else v) =
    (if bool_decide (v ∈ Str <$> array) then v else Null)).
  { intros array v. destruct (Z.eqb_spec (indexOf array v) (-1)) as [H|H].
    - apply indexOf_absent in H. by rewrite bool_decide_eq_false_2.
    - rewrite bool_decide_eq_true_2; [done|].
      destruct (decide (v ∈ Str <$> array)) as [|Hn]; [done|].
      by apply indexOf_absent in Hn. }
  unfold doClassValidation_. cbv zeta.
  match goal with |- context [if ?c then mkValidation None _ _ else _] =>
    destruct c end;
  destruct variable; cbn [newValue' getKey pattern hat turtleName optionsOf];
  rewrite Hsel; reflexivity.
Qed.

(** The validator writes the cache and nothing else of the field. *)
Lemma doClassValidation_field newValue f :
  let v := doClassValidation_ newValue f in
  field' v = mkField (value_ f) (displayValue_ f) (Some (newValue' v))
                     (isValueInvalid_ f) (isDirty_ f).
Proof.
  unfold doClassValidation_. cbv zeta.
  match goal with |- context [if ?c then mkValidation None _ _ else _] =>
    destruct c end; reflexivity.
Qed.

(** What the validator returns, from the object it has resolved. *)
Lemma doClassValidation_returned newValue f :
  let v := doClassValidation_ newValue f in
  returned v =
    if truthy (pattern (newValue' v)) && truthy (hat (newValue' v))
       && truthy (turtleName (newValue' v))
    then Some (newValue' v) else None.
Proof.
  unfold doClassValidation_. cbv zeta.
  match goal with |- context [if ?c then mkValidation None ?nv ?g else _] =>
    generalize nv; intros nv0 end.
  destruct (truthy (pattern nv0)) eqn:Hp, (truthy (hat nv0)) eqn:Hh,
    (truthy (turtleName nv0)) eqn:Hn; simpl; rewrite ?Hp, ?Hh, ?Hn;
    reflexivity.
Qed.

(** Either way the field displays the resolved object afterwards. *)
Lemma setValue_displayed newValue f :
  displayValue_ (setValue newValue f) =
    Some (newValue' (doClassValidation_ newValue f)).
Proof.
  unfold setValue. pose proof (doClassValidation_returned newValue f) as Hret.
  cbv zeta in Hret. rewrite Hret. by destruct (_ && _).
Qed.

(** Where no property of the new value is null, the validator resolves it as
    the specification says. *)
Lemma resolvedAsClaimed_agrees variable newValue f :
  getKey variable newValue ≠ Null →
  getKey variable (newValue' (doClassValidation_ newValue f)) =
    resolvedAsClaimed variable newValue f.
Proof.
  intros Hnull. rewrite doClassValidation_component. unfold resolvedAsClaimed.
  by destruct (getKey variable newValue).
Qed.

(** C9, as the specification has it, fails for a property that is null.  A
    saved field without a pattern attribute is read by fromXml with a null
    pattern; null is not among the patterns, so by the specification the
    pattern resolves to null and the value is rejected.  The validator
    compares with [== undefined], which null satisfies: it takes the pattern
    on display, returns the completed value, and the value is stored. *)
Lemma null_component_takes_displayed_value :
  let fieldElement := mkFieldElement None (Some "Crown") "Franklin" in
  let newValue := mkTurtle Null (Str "Crown") (Str "Franklin") in
  let v := doClassValidation_ newValue defaultField in
  fromXml fieldElement defaultField = setValue newValue defaultField
  ∧ resolvedAsClaimed PatternKey newValue defaultField = Null
  ∧ getKey PatternKey (newValue' v) = Str "Dots"
  ∧ returned v = Some (mkTurtle (Str "Dots") (Str "Crown") (Str "Franklin"))
  ∧ value_ (fromXml fieldElement defaultField) =
      Some (mkTurtle (Str "Dots") (Str "Crown") (Str "Franklin")).
Proof. repeat split. Qed.

(** C9, as the code has it: a property of the new value that is undefined or
    null takes the property on display; any other property is kept when it
    is one of the allowed options and set to null when it is not.  The
    validator returns null exactly when a resolved property is falsy, and
    the resolved object otherwise.  When it returns null, setValue leaves
    the stored value as it was; otherwise the stored value is what the
    validator returned. *)
Theorem doClassValidation_resolves newValue f :
  let v := doClassValidation_ newValue f in
  (∀ variable,
     getKey variable (newValue' v) =
       if looseEqUndefined (getKey variable newValue) then displayed variable f
       else if bool_decide (getKey variable newValue ∈ Str <$> optionsOf variable)
            then getKey variable newValue
            else Null)
  ∧ (returned v = None ↔
       ∃ variable, truthy (getKey variable (newValue' v)) = false)
  ∧ (returned v = None ∨ returned v = Some (newValue' v))
  ∧ (returned v = None → value_ (setValue newValue f) = value_ f)
  ∧ (∀ r, returned v = Some r → value_ (setValue newValue f) = Some r).
Proof.
  intros v. split; [intros variable; apply doClassValidation_component|].
  pose proof (doClassValidation_returned newValue f) as Hret.
  cbv zeta in Hret. fold v in Hret.
  split; [|split; [|split]].
  - rewrite Hret. split.
    + destruct (truthy (pattern (newValue' v))) eqn:Hp;
        [|by exists PatternKey].
      destruct (truthy (hat (newValue' v))) eqn:Hh; [|by exists HatKey].
      destruct (truthy (turtleName (newValue' v))) eqn:Hn;
        [done|by exists TurtleNameKey].
    + intros [[] Hk]; simpl in Hk; rewrite Hk;
        rewrite ?andb_false_r; reflexivity.
  - rewrite Hret. destruct (_ && _); auto.
  - intros Hnone. unfold setValue. fold v. rewrite Hnone.
    unfold v. rewrite doClassValidation_field. reflexivity.
  - intros r Hr. unfold setValue. fold v. rewrite Hr. reflexivity.
Qed.

Lemma doClassValidation_resolves_witness :
  let newValue := mkTurtle Undefined (Str "Beret") (Str "Crush") in
  let v := doClassValidation_ newValue defaultField in
  returned v = None
  ∧ newValue' v = mkTurtle (Str "Dots") Null (Str "Crush")
  ∧ value_ (setValue newValue defaultField) = Some defaultTurtle.
Proof.
  intros newValue v.
  destruct (doClassValidation_resolves newValue defaultField)
    as (_ & _ & _ & Hkeep & _).
  split; [reflexivity|]. split; [reflexivity|].
  apply Hkeep. reflexivity.
Defined.

(** ** The arrows of the editor *)

Section arrows.
Local Open Scope Z_scope.

Lemma at_lookup array (k : nat) s :
  array !! k = Some s → at_ array (Z.of_nat k) = Str s.
Proof.
  intros Hk. unfold at_.
  destruct (Z.ltb_spec (Z.of_nat k) 0); [lia|].
  by rewrite Nat2Z.id, Hk.
Qed.

(** The display value after [setValue] of an object with one property, which
    is one of the options: that property is the option, the other two are as
    they were. *)
Lemma setValue_singleton_displayed variable s f other :
  s ∈ optionsOf variable →
  displayed other (setValue (singleton variable (Str s)) f) =
    if bool_decide (other = variable) then Str s else displayed other f.
Proof.
  intros Hs. unfold displayed at 1. rewrite setValue_displayed.
  rewrite doClassValidation_component.
  destruct (decide (other = variable)) as [->|Hne].
  - assert (Hget : getKey variable (singleton variable (Str s)) = Str s)
      by (by destruct variable).
    rewrite Hget. cbn [looseEqUndefined].
    rewrite (bool_decide_eq_true_2 (variable = variable)) by done.
    rewrite bool_decide_eq_true_2; [done|]. apply list_elem_of_fmap. eauto.
  - assert (Hget : getKey other (singleton variable (Str s)) = Undefined)
      by (by destruct other, variable).
    rewrite Hget. by rewrite (bool_decide_eq_false_2 (other = variable)).
Qed.

(** The listener for [direction] 1 or -1, on a field that displays the
    [i]-th option. *)
Lemma arrow_index variable (i : nat) s f d direction :
  displayValue_ f = Some d →
  optionsOf variable !! i = Some s →
  getKey variable d = Str s →
  (direction = 1 ∨ direction = -1) →
  ∃ (j : nat) t f',
    j = Z.to_nat ((Z.of_nat i + direction)
                    `mod` Z.of_nat (length (optionsOf variable)))
    ∧ optionsOf variable !! j = Some t
    ∧ createArrowListener variable (optionsOf variable) direction f = Some f'
    ∧ ∀ other, displayed other f' =
                 if bool_decide (other = variable) then Str t
                 else displayed other f.
Proof.
  intros Hd Hi Hk Hdir.
  pose proof (lookup_lt_Some _ _ _ Hi) as Hlt.
  set (n := length (optionsOf variable)) in *.
  set (j := Z.to_nat ((Z.of_nat i + direction) `mod` Z.of_nat n)).
  assert (Hj : Z.of_nat j = (Z.of_nat i + direction) `mod` Z.of_nat n).
  { unfold j. rewrite Z2Nat.id; [done|]. apply Z.mod_pos_bound. lia. }
  assert (Hjn : (j < n)%nat).
  { pose proof (Z.mod_pos_bound (Z.of_nat i + direction) (Z.of_nat n)). lia. }
  destruct (lookup_lt_is_Some_2 (optionsOf variable) j Hjn) as [t Ht].
  exists j, t. eexists. split; [reflexivity|]. split; [exact Ht|].
  unfold createArrowListener. rewrite Hd, Hk. cbv zeta.
  unfold indexOf. rewrite (indexFrom_lookup 0 _ i s (options_NoDup variable) Hi).
  fold n.
  assert (Hwrap :
    (if 0 + Z.of_nat i + direction <=? -1 then Z.of_nat n - 1
     else if 0 + Z.of_nat i + direction >=? Z.of_nat n then 0
          else 0 + Z.of_nat i + direction) = Z.of_nat j).
  { rewrite Hj.
    destruct (Z.leb_spec (0 + Z.of_nat i + direction) (-1)).
    - assert (Z.of_nat i = 0 ∧ direction = -1) as [-> ->] by lia.
      apply (Z.mod_unique _ _ (-1)); lia.
    - destruct (Z.geb_spec (0 + Z.of_nat i + direction) (Z.of_nat n)).
      + assert (Z.of_nat i + direction = Z.of_nat n) as -> by lia.
        by rewrite Z.mod_same by lia.
      + rewrite Z.mod_small by lia. lia. }
  rewrite Hwrap, (at_lookup _ _ _ Ht).
  split; [reflexivity|]. intros other.
  apply setValue_singleton_displayed. by eapply list_elem_of_lookup_2.
Qed.

(** C10: on a field that displays the [i]-th option of a row, the left arrow
    of the row selects the option at index [(i - 1) mod |L|] and the right
    arrow the option at index [(i + 1) mod |L|] of the row's list [L]; from
    the first option the left arrow goes to the last, and from the last the
    right arrow goes to the first.  The option selected is an element of
    [L], and the other two properties on display are as they were. *)
Theorem arrows_wrap_around variable (i : nat) s f d :
  displayValue_ f = Some d →
  optionsOf variable !! i = Some s →
  getKey variable d = Str s →
  let L := optionsOf variable in
  let n := Z.of_nat (length L) in
  ∃ fl fr tl tr,
    leftArrow variable f = Some fl
    ∧ rightArrow variable f = Some fr
    ∧ L !! Z.to_nat ((Z.of_nat i - 1) `mod` n) = Some tl
    ∧ L !! Z.to_nat ((Z.of_nat i + 1) `mod` n) = Some tr
    ∧ displayed variable fl = Str tl
    ∧ displayed variable fr = Str tr
    ∧ (i = 0%nat → L !! (length L - 1)%nat = Some tl)
    ∧ (S i = length L → L !! 0%nat = Some tr)
    ∧ tl ∈ L ∧ tr ∈ L
    ∧ ∀ other, other ≠ variable →
        displayed other fl = displayed other f
        ∧ displayed other fr = displayed other f.
Proof.
  intros Hd Hi Hk L n.
  destruct (arrow_index variable i s f d (-1) Hd Hi Hk)
    as (jl & tl & fl & Hjl & Htl & Hfl & Hdl); [by right|].
  destruct (arrow_index variable i s f d 1 Hd Hi Hk)
    as (jr & tr & fr & Hjr & Htr & Hfr & Hdr); [by left|].
  fold L in Hjl, Htl, Hfl, Hjr, Htr, Hfr. fold n in Hjl, Hjr.
  pose proof (lookup_lt_Some _ _ _ Hi) as Hlt. fold L in Hlt.
  exists fl, fr, tl, tr.
  split; [exact Hfl|]. split; [exact Hfr|].
  change (Z.of_nat i - 1) with (Z.of_nat i + -1).
  split; [by rewrite <- Hjl|]. split; [by rewrite <- Hjr|].
  split; [by rewrite Hdl, bool_decide_eq_true_2|].
  split; [by rewrite Hdr, bool_decide_eq_true_2|].
  split.
  { intros ->. rewrite <- Htl, Hjl. f_equal.
    assert (Hm : (Z.of_nat 0 + -1) `mod` n = n - 1).
    { symmetry. apply (Z.mod_unique _ _ (-1)); lia. }
    rewrite Hm. lia. }
  split.
  { intros Hlast. rewrite <- Htr, Hjr. f_equal.
    assert (Hm : (Z.of_nat i + 1) `mod` n = 0).
    { replace (Z.of_nat i + 1) with n by lia. apply Z.mod_same. lia. }
    by rewrite Hm. }
  split; [by eapply list_elem_of_lookup_2|].
  split; [by eapply list_elem_of_lookup_2|].
  intros other Hne. rewrite Hdl, Hdr.
  by rewrite bool_decide_eq_false_2.
Qed.

End arrows.

Lemma arrows_wrap_around_witness :
  displayValue_ defaultField = Some defaultTurtle
  ∧ optionsOf HatKey !! 0 = Some "Stovepipe"
  ∧ getKey HatKey defaultTurtle = Str "Stovepipe"
  ∧ ∃ fl fr,
      leftArrow HatKey defaultField = Some fl
      ∧ rightArrow HatKey defaultField = Some fr
      ∧ displayed HatKey fl = Str "Fedora"
      ∧ displayed HatKey fr = Str "Crown".
Proof.
  split; [reflexivity|]. split; [reflexivity|]. split; [reflexivity|].
  destruct (arrows_wrap_around HatKey 0 "Stovepipe" defaultField defaultTurtle
              eq_refl eq_refl eq_refl)
    as (fl & fr & tl & tr & Hfl & Hfr & Htl & Htr & Hdl & Hdr & _).
  exists fl, fr. split; [exact Hfl|]. split; [exact Hfr|].
  vm_compute in Htl, Htr. injection Htl as <-. injection Htr as <-.
  split; [exact Hdl|exact Hdr].
Defined.

(** ** What setValue stores *)

(** The field after setValue, from what the validator returned. *)
Lemma setValue_fields newValue f :
  let v := doClassValidation_ newValue f in
  setValue newValue f =
    match returned v with
    | None => mkField (value_ f) (Some (newValue' v)) (Some (newValue' v))
                      true true
    | Some validated =>
        mkField (Some validated) (Some validated) (Some (newValue' v))
                false true
    end.
Proof.
  intros v. unfold setValue. fold v.
  pose proof (doClassValidation_field newValue f) as Hf. cbv zeta in Hf.
  fold v in Hf. destruct (returned v);
    unfold doValueUpdate_, doValueInvalid_; rewrite Hf; reflexivity.
Qed.

Lemma validTurtle_truthy v variable :
  validTurtle v → truthy (getKey variable v) = true.
Proof.
  intros Hv. destruct (Hv variable) as (s & -> & Hs).
  by eapply options_truthy.
Qed.

(** A turtle with three valid properties passes the validator as it is,
    whatever the field displays. *)
Lemma validTurtle_resolved v f :
  validTurtle v → newValue' (doClassValidation_ v f) = v.
Proof.
  intros Hv.
  assert (Hk : ∀ variable,
    getKey variable (newValue' (doClassValidation_ v f)) = getKey variable v).
  { intros variable. rewrite doClassValidation_component.
    destruct (Hv variable) as (s & -> & Hs). cbn [looseEqUndefined].
    rewrite bool_decide_eq_true_2; [done|]. apply list_elem_of_fmap. eauto. }
  pose proof (Hk PatternKey) as Hp. pose proof (Hk HatKey) as Hh.
  pose proof (Hk TurtleNameKey) as Hn. cbn [getKey] in Hp, Hh, Hn.
  destruct (newValue' _), v. cbn in *. by subst.
Qed.

Lemma validTurtle_returned v f :
  validTurtle v → returned (doClassValidation_ v f) = Some v.
Proof.
  intros Hv. pose proof (doClassValidation_returned v f) as Hr.
  cbv zeta in Hr. rewrite Hr, (validTurtle_resolved v f Hv).
  rewrite (validTurtle_truthy v PatternKey Hv : truthy (pattern v) = true).
  rewrite (validTurtle_truthy v HatKey Hv : truthy (hat v) = true).
  by rewrite (validTurtle_truthy v TurtleNameKey Hv : truthy (turtleName v) = true).
Qed.

(** On a field with a displayable value, what the validator resolves is
    displayable, and what it returns is valid. *)
Lemma resolved_displayable newValue f variable :
  displayable f →
  truthy (getKey variable (newValue' (doClassValidation_ newValue f))) = true →
  ∃ s, getKey variable (newValue' (doClassValidation_ newValue f)) = Str s
       ∧ s ∈ optionsOf variable.
Proof.
  intros Hd. rewrite doClassValidation_component.
  destruct (looseEqUndefined _); [apply Hd|].
  case_bool_decide as Hin; [|done].
  intros _. apply list_elem_of_fmap in Hin as (s & -> & Hs). eauto.
Qed.

Lemma returned_valid newValue f r :
  displayable f →
  returned (doClassValidation_ newValue f) = Some r → validTurtle r.
Proof.
  intros Hd Hr. pose proof (doClassValidation_returned newValue f) as Hret.
  cbv zeta in Hret. rewrite Hr in Hret.
  destruct (truthy (pattern _)) eqn:Hp; [|done].
  destruct (truthy (hat _)) eqn:Hh; [|done].
  destruct (truthy (turtleName _)) eqn:Hn; [|done].
  injection Hret as ->. intros [];
    apply (resolved_displayable newValue f _ Hd); assumption.
Qed.

Lemma setValue_ok newValue f : fieldOk f → fieldOk (setValue newValue f).
Proof.
  intros [Hval Hdisp]. split.
  - intros v. rewrite setValue_fields. cbv zeta.
    destruct (returned _) eqn:Hr; cbn [value_].
    + intros [= <-]. by eapply returned_valid.
    + apply Hval.
  - intros variable. unfold displayed. rewrite setValue_displayed.
    by apply resolved_displayable.
Qed.

Lemma runField_ok o f : fieldOk f → fieldOk (runField o f).
Proof.
  intros Hf. destruct o as [nv|el|variable|variable]; simpl.
  - by apply setValue_ok.
  - by apply setValue_ok.
  - unfold leftArrow, createArrowListener.
    destruct (displayValue_ f); [by apply setValue_ok|done].
  - unfold rightArrow, createArrowListener.
    destruct (displayValue_ f); [by apply setValue_ok|done].
Qed.

(** X14: the field never stores an invalid turtle.  From a field whose stored
    value is valid and whose display is displayable (in particular from a
    field that holds nothing yet), whatever values are set, whatever saved
    fields are loaded and whatever arrows are pressed, the stored value, if
    there is one, has a pattern, a hat and a name from the three lists. *)
Theorem stored_turtle_always_valid ops f :
  fieldOk f →
  fieldOk (runFieldAll ops f)
  ∧ ∀ v, value_ (runFieldAll ops f) = Some v → validTurtle v.
Proof.
  intros Hf.
  assert (Hok : fieldOk (runFieldAll ops f)).
  { unfold runFieldAll. revert f Hf.
    induction ops as [|o ops IH]; intros f Hf; [done|].
    simpl. apply IH. by apply runField_ok. }
  split; [exact Hok|]. apply Hok.
Qed.

Lemma emptyField_ok : fieldOk emptyField.
Proof. split; [intros v [=]|intros variable [=]]. Qed.

Lemma stored_turtle_always_valid_witness :
  fieldOk emptyField
  ∧ value_ (runFieldAll
              [SetValue (mkTurtle (Str "Stripes") (Str "Beret") Undefined);
               SetValue (mkTurtle Undefined (Str "Mask") (Str "Crush"));
               LeftArrow HatKey;
               FromXml (mkFieldElement None (Some "Wig") "Bowser")]
              emptyField)
      = Some (mkTurtle (Str "Stripes") (Str "Propeller") (Str "Crush"))
  ∧ validTurtle (mkTurtle (Str "Stripes") (Str "Propeller") (Str "Crush")).
Proof.
  split; [exact emptyField_ok|]. split; [reflexivity|].
  apply (proj2 (stored_turtle_always_valid
                  [SetValue (mkTurtle (Str "Stripes") (Str "Beret") Undefined);
                   SetValue (mkTurtle Undefined (Str "Mask") (Str "Crush"));
                   LeftArrow HatKey;
                   FromXml (mkFieldElement None (Some "Wig") "Bowser")]
                  emptyField emptyField_ok)).
  reflexivity.
Defined.

Lemma validTurtle_setValue v f :
  validTurtle v →
  doClassValidation_ v f =
    mkValidation (Some v) v
      (mkField (value_ f) (displayValue_ f) (Some v) (isValueInvalid_ f)
               (isDirty_ f))
  ∧ setValue v f = mkField (Some v) (Some v) (Some v) false true.
Proof.
  intros Hv.
  pose proof (validTurtle_returned v f Hv) as Hr.
  pose proof (validTurtle_resolved v f Hv) as Hn.
  pose proof (doClassValidation_field v f) as Hf. cbv zeta in Hf.
  rewrite Hn in Hf. split.
  - destruct (doClassValidation_ v f). cbn in *. by subst.
  - rewrite setValue_fields. cbv zeta. by rewrite Hr, Hn.
Qed.

(** X15: a valid turtle is accepted whatever the field held or displayed
    before, also after a value was rejected: it is returned by the validator
    unchanged, stored and displayed, and the field is flagged valid and
    dirty. *)
Theorem valid_turtle_is_stored v f :
  validTurtle v →
  doClassValidation_ v f =
    mkValidation (Some v) v
      (mkField (value_ f) (displayValue_ f) (Some v) (isValueInvalid_ f)
               (isDirty_ f))
  ∧ setValue v f = mkField (Some v) (Some v) (Some v) false true.
Proof. apply validTurtle_setValue. Qed.

Lemma defaultTurtle_valid : validTurtle defaultTurtle.
Proof.
  intros []; eexists; (split; [reflexivity|]);
    refine (bool_decide_unpack _ _); vm_compute; exact I.
Qed.

Lemma valid_turtle_is_stored_witness :
  validTurtle defaultTurtle
  ∧ setValue defaultTurtle
      (mkField None (Some (mkTurtle Null Null Null)) None true true)
    = mkField (Some defaultTurtle) (Some defaultTurtle) (Some defaultTurtle)
              false true.
Proof.
  split; [exact defaultTurtle_valid|].
  apply (valid_turtle_is_stored defaultTurtle), defaultTurtle_valid.
Defined.

(** ** Saving and loading *)

(** X16: what toXml saves, fromXml loads.  A field that stores a valid turtle
    is saved with both attributes and the name as text, and loading that
    element into any field stores and displays the same turtle; a field
    whose value is still null cannot be saved (toXml throws). *)
Theorem toXml_fromXml_roundtrip f v fieldElement g :
  value_ f = Some v → validTurtle v →
  ∃ saved,
    toXml fieldElement f = Some saved
    ∧ patternAttribute saved = Some (toStr (pattern v))
    ∧ hatAttribute saved = Some (toStr (hat v))
    ∧ elementText saved = toStr (turtleName v)
    ∧ fromXml saved g = mkField (Some v) (Some v) (Some v) false true.
Proof.
  intros Hf Hv. unfold toXml. rewrite Hf. eexists. split; [reflexivity|].
  cbn [patternAttribute hatAttribute elementText].
  destruct (Hv PatternKey) as (p & Hp & _).
  destruct (Hv HatKey) as (h & Hh & _).
  destruct (Hv TurtleNameKey) as (n & Hn & _).
  destruct v as [vp vh vn]. cbn in Hp, Hh, Hn. subst vp vh vn.
  repeat split.
  unfold fromXml. cbn.
  apply (validTurtle_setValue (mkTurtle (Str p) (Str h) (Str n)) g Hv).
Qed.

Lemma toXml_fromXml_roundtrip_witness :
  value_ defaultField = Some defaultTurtle ∧ validTurtle defaultTurtle
  ∧ toXml (mkFieldElement None None "") defaultField
      = Some (mkFieldElement (Some "Dots") (Some "Stovepipe") "Yertle")
  ∧ fromXml (mkFieldElement (Some "Dots") (Some "Stovepipe") "Yertle")
            emptyField
      = mkField (Some defaultTurtle) (Some defaultTurtle) (Some defaultTurtle)
                false true.
Proof.
  split; [reflexivity|]. split; [exact defaultTurtle_valid|].
  destruct (toXml_fromXml_roundtrip defaultField defaultTurtle
              (mkFieldElement None None "") emptyField eq_refl
              defaultTurtle_valid)
    as (saved & Hsaved & _ & _ & _ & Hload).
  injection Hsaved as <-. split; [reflexivity|exact Hload].
Defined.

(** ** The constructor *)

Lemma orFirst_option opt variable :
  truthy (orFirst opt (optionsOf variable)) = true
  ∧ (truthy opt = true → orFirst opt (optionsOf variable) = opt)
  ∧ (truthy opt = false →
     ∃ s, optionsOf variable !! 0 = Some s
          ∧ orFirst opt (optionsOf variable) = Str s).
Proof.
  unfold orFirst. destruct (truthy opt) eqn:Ht.
  - split; [exact Ht|]. split; [done|]. intros [=].
  - destruct variable; (split; [reflexivity|]); (split; [intros [=]|]);
      intros _; eexists; split; reflexivity.
Qed.

(** X17: the constructor replaces every parameter that is omitted, null or
    empty by the first option of its list, and keeps every other parameter.
    The turtle it builds is accepted (by a field in any state) exactly when
    every parameter that was given is one of the options; so a field
    constructed without parameters holds Dots, Stovepipe and Yertle. *)
Theorem constructor_defaults opt_pattern opt_hat opt_turtleName f :
  let v := constructorValue opt_pattern opt_hat opt_turtleName in
  let given variable :=
    getKey variable (mkTurtle opt_pattern opt_hat opt_turtleName) in
  (∀ variable,
     getKey variable v =
       if truthy (given variable) then given variable
       else at_ (optionsOf variable) 0)
  ∧ constructorValue Undefined Undefined Undefined = defaultTurtle
  ∧ (returned (doClassValidation_ v f) = Some v ↔
       ∀ variable, truthy (given variable) = true →
                   given variable ∈ Str <$> optionsOf variable)
  ∧ (returned (doClassValidation_ v f) = None ↔
       ∃ variable, truthy (given variable) = true
                   ∧ given variable ∉ Str <$> optionsOf variable).
Proof.
  intros v given.
  assert (Hkey : ∀ variable,
    getKey variable v = orFirst (given variable) (optionsOf variable))
    by (by intros []).
  assert (Hvalid : validTurtle v ↔
    ∀ variable, truthy (given variable) = true →
                given variable ∈ Str <$> optionsOf variable).
  { split.
    - intros Hv variable Ht. destruct (Hv variable) as (s & Hs & Hin).
      rewrite Hkey in Hs.
      destruct (orFirst_option (given variable) variable) as (_ & Hkeep & _).
      rewrite (Hkeep Ht) in Hs. rewrite Hs. apply list_elem_of_fmap. eauto.
    - intros Hall variable. rewrite Hkey.
      destruct (orFirst_option (given variable) variable)
        as (_ & Hkeep & Hfirst).
      destruct (truthy (given variable)) eqn:Ht.
      + rewrite (Hkeep eq_refl).
        pose proof (Hall variable Ht) as Hin.
        apply list_elem_of_fmap in Hin as (s & Hs & Hin). eauto.
      + destruct (Hfirst eq_refl) as (s & H0 & ->). exists s.
        split; [done|]. by eapply list_elem_of_lookup_2. }
  assert (Hresolved : ∀ variable,
    getKey variable (newValue' (doClassValidation_ v f)) =
      if bool_decide (getKey variable v ∈ Str <$> optionsOf variable)
      then getKey variable v else Null).
  { intros variable. rewrite doClassValidation_component, Hkey.
    destruct (orFirst_option (given variable) variable) as (Ht & _).
    by destruct (orFirst _ _). }
  assert (Hacc : returned (doClassValidation_ v f) = Some v ↔ validTurtle v).
  { split; [|apply validTurtle_returned].
    intros Hr variable.
    pose proof (doClassValidation_returned v f) as Hret. cbv zeta in Hret.
    rewrite Hr in Hret.
    destruct (truthy (pattern _)) eqn:Hp; [|done].
    destruct (truthy (hat _)) eqn:Hh; [|done].
    destruct (truthy (turtleName _)) eqn:Hn; [|done].
    injection Hret as Hv.
    assert (Ht : truthy (getKey variable
                           (newValue' (doClassValidation_ v f))) = true)
      by (by destruct variable).
    rewrite Hresolved in Ht. case_bool_decide as Hin; [|done].
    apply list_elem_of_fmap in Hin as (s & Hs & Hin). eauto. }
  split; [intros variable; rewrite Hkey; unfold orFirst; reflexivity|].
  split; [reflexivity|].
  split; [by rewrite Hacc, Hvalid|].
  split.
  - intros Hnone.
    destruct (decide (truthy (given PatternKey) = true
                      ∧ given PatternKey ∉ Str <$> optionsOf PatternKey));
      [by exists PatternKey|].
    destruct (decide (truthy (given HatKey) = true
                      ∧ given HatKey ∉ Str <$> optionsOf HatKey));
      [by exists HatKey|].
    destruct (decide (truthy (given TurtleNameKey) = true
                      ∧ given TurtleNameKey ∉ Str <$> optionsOf TurtleNameKey));
      [by exists TurtleNameKey|].
    exfalso.
    assert (Hall : ∀ variable, truthy (given variable) = true →
                     given variable ∈ Str <$> optionsOf variable).
    { intros variable Ht.
      destruct (decide (given variable ∈ Str <$> optionsOf variable));
        [done|]. destruct variable; tauto. }
    apply Hvalid, Hacc in Hall. congruence.
  - intros (variable & Ht & Hnot).
    destruct (returned (doClassValidation_ v f)) as [r|] eqn:Hr; [|done].
    exfalso. apply Hnot.
    pose proof (doClassValidation_returned v f) as Hret. cbv zeta in Hret.
    rewrite Hr in Hret.
    destruct (truthy (pattern _)) eqn:Hp; [|done].
    destruct (truthy (hat _)) eqn:Hh; [|done].
    destruct (truthy (turtleName _)) eqn:Hn; [|done].
    assert (Htr : truthy (getKey variable
                            (newValue' (doClassValidation_ v f))) = true)
      by (by destruct variable).
    rewrite Hresolved in Htr. case_bool_decide as Hin; [|done].
    rewrite Hkey in Hin.
    destruct (orFirst_option (given variable) variable) as (_ & Hkeep & _).
    by rewrite (Hkeep Ht) in Hin.
Qed.

(** ** The arrows, off the lists *)

Section arrows_edge.
Local Open Scope Z_scope.

Lemma options_first_last variable :
  ∃ first last,
    optionsOf variable !! 0%nat = Some first
    ∧ optionsOf variable !! (length (optionsOf variable) - 1)%nat = Some last
    ∧ at_ (optionsOf variable) 0 = Str first
    ∧ at_ (optionsOf variable) (Z.of_nat (length (optionsOf variable)) - 1)
        = Str last.
Proof. destruct variable; eexists _, _; repeat split. Qed.

(** X18: when the property on display is not one of the options of its row
    (it is null or undefined after a value was rejected or nothing was set),
    the right arrow selects the first option and the left arrow the last
    one, and the other two properties on display stay as they are.  On a
    field that displays nothing the listeners throw. *)
Theorem arrows_from_invalid_component variable f :
  (displayValue_ f = None →
   leftArrow variable f = None ∧ rightArrow variable f = None)
  ∧ (∀ d, displayValue_ f = Some d →
       getKey variable d ∉ Str <$> optionsOf variable →
       ∃ fl fr first last,
         leftArrow variable f = Some fl
         ∧ rightArrow variable f = Some fr
         ∧ optionsOf variable !! 0%nat = Some first
         ∧ optionsOf variable !! (length (optionsOf variable) - 1)%nat
             = Some last
         ∧ displayed variable fr = Str first
         ∧ displayed variable fl = Str last
         ∧ ∀ other, other ≠ variable →
             displayed other fl = displayed other f
             ∧ displayed other fr = displayed other f).
Proof.
  split.
  - intros Hd. unfold leftArrow, rightArrow, createArrowListener.
    by rewrite Hd.
  - intros d Hd Hout.
    destruct (options_first_last variable)
      as (first & last & Hfirst & Hlast & Hat0 & Hatn).
    apply indexOf_absent in Hout.
    exists (setValue (singleton variable (Str last)) f),
           (setValue (singleton variable (Str first)) f), first, last.
    assert (Hlen : 0 < Z.of_nat (length (optionsOf variable)))
      by (destruct variable; done).
    split.
    { unfold leftArrow, createArrowListener. rewrite Hd. cbv zeta.
      rewrite Hout. change (-1 + -1 <=? -1) with true. cbv iota.
      by rewrite Hatn. }
    split.
    { unfold rightArrow, createArrowListener. rewrite Hd. cbv zeta.
      rewrite Hout. change (-1 + 1) with 0. change (0 <=? -1) with false.
      cbv iota.
      destruct (Z.geb_spec 0 (Z.of_nat (length (optionsOf variable))));
        [lia|]. by rewrite Hat0. }
    split; [exact Hfirst|]. split; [exact Hlast|].
    assert (Hf : first ∈ optionsOf variable)
      by (by eapply list_elem_of_lookup_2).
    assert (Hl : last ∈ optionsOf variable)
      by (by eapply list_elem_of_lookup_2).
    split.
    { rewrite setValue_singleton_displayed by done.
      by rewrite bool_decide_eq_true_2. }
    split.
    { rewrite setValue_singleton_displayed by done.
      by rewrite bool_decide_eq_true_2. }
    intros other Hne. rewrite !setValue_singleton_displayed by done.
    by rewrite bool_decide_eq_false_2.
Qed.

(** X19: on a field that displays an option of a row, the right arrow followed
    by the left arrow of that row, and the left arrow followed by the right
    arrow, bring back the three properties that were on display. *)
Theorem arrows_are_inverse variable (i : nat) s f d :
  displayValue_ f = Some d →
  optionsOf variable !! i = Some s →
  getKey variable d = Str s →
  ∃ fr frl fl flr,
    rightArrow variable f = Some fr ∧ leftArrow variable fr = Some frl
    ∧ leftArrow variable f = Some fl ∧ rightArrow variable fl = Some flr
    ∧ ∀ other, displayed other frl = displayed other f
               ∧ displayed other flr = displayed other f.
Proof.
  intros Hd Hi Hk.
  pose proof (lookup_lt_Some _ _ _ Hi) as Hlt.
  set (n := length (optionsOf variable)) in *.
  assert (Hback : ∀ direction f1 (j : nat) t,
    (direction = 1 ∨ direction = -1) →
    j = Z.to_nat ((Z.of_nat i + direction) `mod` Z.of_nat n) →
    optionsOf variable !! j = Some t →
    (∀ other, displayed other f1 =
                if bool_decide (other = variable) then Str t
                else displayed other f) →
    ∃ f2, createArrowListener variable (optionsOf variable) (- direction) f1
            = Some f2
          ∧ ∀ other, displayed other f2 = displayed other f).
  { intros direction f1 j t Hdir Hj Ht Hdisp.
    destruct (displayValue_ f1) as [d1|] eqn:Hd1.
    2:{ specialize (Hdisp variable). unfold displayed in Hdisp.
        rewrite Hd1, bool_decide_eq_true_2 in Hdisp by done. done. }
    assert (Hk1 : getKey variable d1 = Str t).
    { specialize (Hdisp variable). unfold displayed in Hdisp.
      by rewrite Hd1, bool_decide_eq_true_2 in Hdisp. }
    destruct (arrow_index variable j t f1 d1 (- direction) Hd1 Ht Hk1)
      as (j' & t' & f2 & Hj' & Ht' & Hf2 & Hdisp2); [lia|].
    fold n in Hj'.
    assert (Hji : j' = i).
    { subst j' j. rewrite Z2Nat.id by (apply Z.mod_pos_bound; lia).
      rewrite Zplus_mod_idemp_l.
      replace (Z.of_nat i + direction + - direction) with (Z.of_nat i) by lia.
      rewrite Z.mod_small by lia. apply Nat2Z.id. }
    rewrite Hji, Hi in Ht'. injection Ht' as <-.
    exists f2. split; [exact Hf2|]. intros other. rewrite Hdisp2.
    case_bool_decide as Ho.
    - subst other. unfold displayed. by rewrite Hd.
    - rewrite Hdisp. by rewrite bool_decide_eq_false_2. }
  destruct (arrow_index variable i s f d 1 Hd Hi Hk)
    as (jr & tr & fr & Hjr & Htr & Hfr & Hdr); [by left|].
  destruct (arrow_index variable i s f d (-1) Hd Hi Hk)
    as (jl & tl & fl & Hjl & Htl & Hfl & Hdl); [by right|].
  fold n in Hjr, Hjl.
  destruct (Hback 1 fr jr tr (or_introl eq_refl) Hjr Htr Hdr)
    as (frl & Hfrl & Hdrl).
  destruct (Hback (-1) fl jl tl (or_intror eq_refl) Hjl Htl Hdl)
    as (flr & Hflr & Hdlr).
  exists fr, frl, fl, flr.
  split; [exact Hfr|]. split; [exact Hfrl|].
  split; [exact Hfl|]. split; [exact Hflr|].
  intros other. split; [apply Hdrl|apply Hdlr].
Qed.

End arrows_edge.

Lemma arrows_from_invalid_component_witness :
  let f := setValue (mkTurtle Undefined (Str "Beret") Undefined) defaultField in
  displayValue_ f = Some (mkTurtle (Str "Dots") Null (Str "Yertle"))
  ∧ (Null ∉ Str <$> optionsOf HatKey)
  ∧ ∃ fl fr,
      leftArrow HatKey f = Some fl ∧ rightArrow HatKey f = Some fr
      ∧ displayed HatKey fr = Str "Stovepipe"
      ∧ displayed HatKey fl = Str "Fedora".
Proof.
  intros f.
  assert (Hout : Null ∉ Str <$> optionsOf HatKey).
  { intros (x & [=] & _)%list_elem_of_fmap. }
  split; [reflexivity|]. split; [exact Hout|].
  destruct (proj2 (arrows_from_invalid_component HatKey f)
              (mkTurtle (Str "Dots") Null (Str "Yertle")) eq_refl Hout)
    as (fl & fr & first & last & Hfl & Hfr & Hfirst & Hlast & Hdr & Hdl & _).
  exists fl, fr. split; [exact Hfl|]. split; [exact Hfr|].
  injection Hfirst as <-. injection Hlast as <-. split; [exact Hdr|exact Hdl].
Defined.

Lemma arrows_are_inverse_witness :
  displayValue_ defaultField = Some defaultTurtle
  ∧ optionsOf TurtleNameKey !! 0 = Some "Yertle"
  ∧ getKey TurtleNameKey defaultTurtle = Str "Yertle"
  ∧ ∃ fl flr,
      leftArrow TurtleNameKey defaultField = Some fl
      ∧ rightArrow TurtleNameKey fl = Some flr
      ∧ displayed TurtleNameKey flr = Str "Yertle".
Proof.
  split; [reflexivity|]. split; [reflexivity|]. split; [reflexivity|].
  destruct (arrows_are_inverse TurtleNameKey 0 "Yertle" defaultField
              defaultTurtle eq_refl eq_refl eq_refl)
    as (fr & frl & fl & flr & _ & _ & Hfl & Hflr & Hd).
  exists fl, flr. split; [exact Hfl|]. split; [exact Hflr|].
  apply (proj2 (Hd TurtleNameKey)).
Defined.

(** ** A value that was rejected *)

(** X20: once a property on display is invalid (null, undefined or empty),
    every update that leaves that property out is rejected, whatever it
    says about the other two: the stored value stays, the field is flagged
    invalid, and the property is still invalid on display.  Only an update
    of that property itself can make the field valid again. *)
Theorem invalid_component_blocks_updates variable newValue f :
  truthy (displayed variable f) = false →
  looseEqUndefined (getKey variable newValue) = true →
  returned (doClassValidation_ newValue f) = None
  ∧ value_ (setValue newValue f) = value_ f
  ∧ isValueInvalid_ (setValue newValue f) = true
  ∧ truthy (displayed variable (setValue newValue f)) = false.
Proof.
  intros Hbad Hout.
  assert (Hres : truthy (getKey variable
                   (newValue' (doClassValidation_ newValue f))) = false)
    by (by rewrite doClassValidation_component, Hout).
  assert (Hret : returned (doClassValidation_ newValue f) = None).
  { pose proof (doClassValidation_returned newValue f) as Hr. cbv zeta in Hr.
    rewrite Hr. destruct variable; cbn [getKey] in Hres; rewrite Hres;
      rewrite ?andb_false_r; reflexivity. }
  split; [exact Hret|].
  rewrite setValue_fields. cbv zeta. rewrite Hret.
  repeat split. exact Hres.
Qed.

Lemma invalid_component_blocks_updates_witness :
  let f := setValue (mkTurtle Undefined (Str "Beret") Undefined) defaultField in
  truthy (displayed HatKey f) = false
  ∧ looseEqUndefined (getKey HatKey (singleton PatternKey (Str "Stripes")))
      = true
  ∧ value_ (setValue (singleton PatternKey (Str "Stripes")) f)
      = Some defaultTurtle
  ∧ isValueInvalid_ (setValue (singleton PatternKey (Str "Stripes")) f) = true.
Proof.
  intros f. split; [reflexivity|]. split; [reflexivity|].
  destruct (invalid_component_blocks_updates HatKey
              (singleton PatternKey (Str "Stripes")) f eq_refl eq_refl)
    as (_ & Hval & Hinv & _).
  split; [exact Hval|exact Hinv].
Defined.

(** ** The editor *)

(** X21: after any call of setValue the editor can be rendered, and it shows
    in every row the property the validator resolved, with the warning icon
    of the row displayed exactly when that property is invalid; some warning
    icon is displayed exactly when the field is flagged invalid. *)
Theorem renderEditor_warns_of_invalid newValue f e :
  let v := doClassValidation_ newValue f in
  ∃ e',
    renderEditor_ (setValue newValue f) e = Some e'
    ∧ (∀ variable,
         rowText variable e' = textOf (getKey variable (newValue' v))
         ∧ warningOf variable e' =
             if truthy (getKey variable (newValue' v)) then "none" else "")
    ∧ ((∃ variable, warningOf variable e' = "") ↔
         isValueInvalid_ (setValue newValue f) = true).
Proof.
  intros v. rewrite setValue_fields. fold v.
  pose proof (doClassValidation_returned newValue f) as Hret.
  cbv zeta in Hret. fold v in Hret.
  assert (Hdisp : ∀ r, returned v = Some r → r = newValue' v).
  { intros r Hr. rewrite Hr in Hret. destruct (_ && _); congruence. }
  assert (Hrender : ∀ f',
    displayValue_ f' = Some (newValue' v) →
    cachedValidatedValue_ f' = Some (newValue' v) →
    ∃ e', renderEditor_ f' e = Some e'
      ∧ ∀ variable,
          rowText variable e' = textOf (getKey variable (newValue' v))
          ∧ warningOf variable e' =
              if truthy (getKey variable (newValue' v)) then "none" else "").
  { intros f' Hd Hc. unfold renderEditor_. rewrite Hd, Hc.
    eexists. split; [reflexivity|]. by intros []. }
  destruct (returned v) as [r|] eqn:Hr.
  - rewrite (Hdisp r eq_refl).
    destruct (Hrender (mkField (Some (newValue' v)) (Some (newValue' v))
                (Some (newValue' v)) false true) eq_refl eq_refl)
      as (e' & He' & Hrows).
    exists e'. split; [exact He'|]. split; [exact Hrows|].
    cbn [isValueInvalid_]. split; [|done].
    intros [variable Hw]. rewrite (proj2 (Hrows variable)) in Hw.
    destruct (truthy (pattern (newValue' v))) eqn:Hp; [|done].
    destruct (truthy (hat (newValue' v))) eqn:Hh; [|done].
    destruct (truthy (turtleName (newValue' v))) eqn:Hn; [|done].
    destruct variable; cbn [getKey] in Hw; rewrite ?Hp, ?Hh, ?Hn in Hw; done.
  - destruct (Hrender (mkField (value_ f) (Some (newValue' v))
                (Some (newValue' v)) true true) eq_refl eq_refl)
      as (e' & He' & Hrows).
    exists e'. split; [exact He'|]. split; [exact Hrows|].
    cbn [isValueInvalid_]. split; [done|]. intros _.
    destruct (truthy (pattern (newValue' v))) eqn:Hp.
    2:{ exists PatternKey. rewrite (proj2 (Hrows PatternKey)).
        cbn [getKey]. by rewrite Hp. }
    destruct (truthy (hat (newValue' v))) eqn:Hh.
    2:{ exists HatKey. rewrite (proj2 (Hrows HatKey)).
        cbn [getKey]. by rewrite Hh. }
    destruct (truthy (turtleName (newValue' v))) eqn:Hn; [done|].
    exists TurtleNameKey. rewrite (proj2 (Hrows TurtleNameKey)).
    cbn [getKey]. by rewrite Hn.
Qed.

(** X22: dropdownDispose_ unbinds nothing.  Its loop starts at the index one
    past the last listener, where the array holds nothing, so the test fails
    before the first round: whatever listeners the editor has bound, none is
    handed to unbind and all stay in the list, the seven that every opening
    of the editor binds among them. *)
Theorem dropdownDispose_unbinds_nothing (editorListeners_ : list nat) next :
  dropdownDispose_ editorListeners_ = (editorListeners_, [])
  ∧ dropdownDispose_ (pushEditorListeners next editorListeners_)
      = (editorListeners_ ++ seq next 7, []).
Proof.
  assert (H : ∀ l : list nat, dropdownDispose_ l = (l, [])).
  { intros l. unfold dropdownDispose_. cbn [disposeLoop].
    destruct (Z.ltb_spec (Z.of_nat (length l)) 0); [lia|].
    rewrite Nat2Z.id. by rewrite lookup_ge_None_2. }
  split; apply H.
Qed.

(** ** The view *)

Lemma showHat_display hatValue v h :
  h ∈ HATS →
  hatDisplay h (showHat hatValue v) =
    Some (if bool_decide (hatValue = Str h) then "" else "none").
Proof.
  intros Hh.
  assert (Hcases : h = "Stovepipe" ∨ h = "Crown" ∨ h = "Propeller"
                   ∨ h = "Mask" ∨ h = "Fedora").
  { unfold HATS in Hh. rewrite !elem_of_cons in Hh.
    destruct Hh as [?|[?|[?|[?|[?|Hh]]]]]; auto.
    by apply elem_of_nil in Hh. }
  destruct (decide (hatValue = Str "Stovepipe")) as [->|H1];
    [destruct Hcases as [-> | [-> | [-> | [-> | ->]]]]; reflexivity|].
  destruct (decide (hatValue = Str "Crown")) as [->|H2];
    [destruct Hcases as [-> | [-> | [-> | [-> | ->]]]]; reflexivity|].
  destruct (decide (hatValue = Str "Mask")) as [->|H3];
    [destruct Hcases as [-> | [-> | [-> | [-> | ->]]]]; reflexivity|].
  destruct (decide (hatValue = Str "Propeller")) as [->|H4];
    [destruct Hcases as [-> | [-> | [-> | [-> | ->]]]]; reflexivity|].
  destruct (decide (hatValue = Str "Fedora")) as [->|H5];
    [destruct Hcases as [-> | [-> | [-> | [-> | ->]]]]; reflexivity|].
  unfold showHat. cbv zeta.
  rewrite (bool_decide_eq_false_2 _ H1), (bool_decide_eq_false_2 _ H2),
    (bool_decide_eq_false_2 _ H3), (bool_decide_eq_false_2 _ H4),
    (bool_decide_eq_false_2 _ H5).
  destruct Hcases as [-> | [-> | [-> | [-> | ->]]]];
    rewrite bool_decide_eq_false_2 by done; reflexivity.
Qed.

(** The switch on the pattern writes the fill of the shell and nothing
    else. *)
Lemma showPattern_view patternValue v :
  ∃ fill,
    showPattern patternValue v =
      mkView (stovepipe_ v) (crown_ v) (mask_ v) (propeller_ v) (fedora_ v)
             (turtleGroupTransform v) (textElementTransform v) fill
             (textContentValue v) (borderRectFill v) (borderRectFillOpacity v)
    ∧ (patternValue ∉ Str <$> PATTERNS → fill = shellPatternFill v).
Proof.
  unfold showPattern.
  destruct (decide (patternValue = Str "Dots")) as [->|H1].
  { eexists. split; [reflexivity|]. intros []. by left. }
  destruct (decide (patternValue = Str "Stripes")) as [->|H2].
  { eexists. split; [reflexivity|]. intros []. right. by left. }
  destruct (decide (patternValue = Str "Hexagons")) as [->|H3].
  { eexists. split; [reflexivity|]. intros []. right. right. by left. }
  rewrite (bool_decide_eq_false_2 _ H1), (bool_decide_eq_false_2 _ H2),
    (bool_decide_eq_false_2 _ H3).
  exists (shellPatternFill v). split; [by destruct v|done].
Qed.

(** The switch on the hat leaves the fill of the shell as it was. *)
Lemma showHat_fill hatValue v :
  shellPatternFill (showHat hatValue v) = shellPatternFill v.
Proof. unfold showHat. cbv zeta. by repeat case_bool_decide. Qed.

(** X23: render_ shows the hat on display and no other: of the five hat
    graphics the one named by the hat on display is displayed and the other
    four are hidden, and when the hat on display is not one of the five (it
    is null after an invalid value) all five are hidden.  The border is red
    (#f99, opaque) exactly when the field is flagged invalid, and the text is
    the name on display.  A pattern that is not one of the three leaves the
    fill of the shell as it was. *)
Theorem render_shows_the_hat w value :
  displayValue_ (field w) = Some value →
  editor_ w = None ∨ is_Some (cachedValidatedValue_ (field w)) →
  ∃ w',
    render_ w = Some w'
    ∧ field w' = field w
    ∧ (∀ h, h ∈ HATS →
         hatDisplay h (view w') =
           Some (if bool_decide (hat value = Str h) then "" else "none"))
    ∧ borderRectFill (view w') =
        Some (if isValueInvalid_ (field w) then "#f99" else "#fff")
    ∧ borderRectFillOpacity (view w') =
        Some (if isValueInvalid_ (field w) then "1" else "0.6")
    ∧ textContentValue (view w') = textOf (turtleName value)
    ∧ (pattern value ∉ Str <$> PATTERNS →
       shellPatternFill (view w') = shellPatternFill (view w)).
Proof.
  intros Hd Hed. unfold render_. rewrite Hd.
  assert (Heditor : ∃ editor,
    match editor_ w with
    | Some e => option_map Some (renderEditor_ (field w) e)
    | None => Some None
    end = Some editor).
  { destruct (editor_ w) as [e|]; [|by eexists].
    destruct Hed as [[=]|[c Hc]]. unfold renderEditor_. rewrite Hd, Hc.
    by eexists. }
  destruct Heditor as [editor ->]. cbv zeta.
  destruct (showPattern_view (pattern value) (showHat (hat value) (view w)))
    as (fill & -> & Hfill).
  eexists. split; [reflexivity|].
  cbn [field view stovepipe_ crown_ mask_ propeller_ fedora_
       turtleGroupTransform textElementTransform shellPatternFill
       textContentValue borderRectFill borderRectFillOpacity].
  split; [reflexivity|].
  split.
  { intros h Hh. rewrite <- (showHat_display (hat value) (view w) h Hh).
    reflexivity. }
  split; [reflexivity|]. split; [reflexivity|]. split; [reflexivity|].
  intros Hout. rewrite (Hfill Hout). apply showHat_fill.
Qed.

Lemma render_shows_the_hat_witness :
  let w :=
    mkWidget (setValue (mkTurtle Undefined (Str "Crown") Undefined) defaultField)
             (mkView "" "" "" "" "" None None None "" None None) None in
  displayValue_ (field w)
    = Some (mkTurtle (Str "Dots") (Str "Crown") (Str "Yertle"))
  ∧ ∃ w', render_ w = Some w'
          ∧ hatDisplay "Crown" (view w') = Some ""
          ∧ hatDisplay "Fedora" (view w') = Some "none"
          ∧ borderRectFill (view w') = Some "#fff".
Proof.
  intros w. split; [reflexivity|].
  destruct (render_shows_the_hat w
              (mkTurtle (Str "Dots") (Str "Crown") (Str "Yertle")) eq_refl
              (or_introl eq_refl))
    as (w' & Hw' & _ & Hhats & Hfill & _).
  exists w'. split; [exact Hw'|].
  split; [apply (Hhats "Crown"); refine (bool_decide_unpack _ _);
          vm_compute; exact I|].
  split; [apply (Hhats "Fedora"); refine (bool_decide_unpack _ _);
          vm_compute; exact I|].
  exact Hfill.
Defined.

End TurtleProofs.
